(** * Meridian Community Bank: synthetic data generators and query tools

    A shallow embedding of the Python generators
    ([generators/generate_customers.py], [generate_accounts.py],
    [generate_transactions.py], [generate_gl_entries.py]), of the id
    registry ([generators/utils/relationships.py]) and of the SQL query
    tool ([agent/tools.py]), with the properties the specification states
    about them.

    Conventions of the embedding.
    - A Python [int] is a [Z]; a Python [float] is the rational [Q] it
      denotes. A sampled amount is kept as the generator gives it, with
      [round] as round-half-to-even on that value; where a count or a
      recorded figure depends on binary rounding (the number of personal
      customers, the balances of the general ledger), the operations
      round to the nearest double (module [Float]).
    - A [dict] with a fixed key set, built by a literal, is a [Record];
      a value that may be [None] is an [option].
    - A row fetched from the store is a tuple of dynamically typed
      values, [list value], indexed by position as the source does.
    - A numpy [Generator] is an abstract state with its sampling methods
      (class [Generator]); every theorem holds for every generator.
    - A query handed to the SQL tool is a sequence of code points; the
      character tables [strip], [upper] and [\b] consult are those of
      the runtime (class [Unicode.Tables]), and every theorem about the
      tool holds for every table.
    - Exceptions are explicit: a computation returns an [outcome]. *)

From Stdlib Require Import ZArith QArith Qround List String Ascii Bool Lia.
From Stdlib Require Import DecimalString DecimalN DecimalPos.
From Stdlib Require Finite.
Import ListNotations.
Local Open Scope string_scope.
Local Open Scope Z_scope.

Set Implicit Arguments.

(* ------------------------------------------------------------------ *)
(** ** Python runtime: exceptions, outcomes, dynamically typed values *)
(* ------------------------------------------------------------------ *)

Module Py.

(** The exceptions the embedded code can raise or catch. *)
Inductive exn : Type :=
| KeyError (msg : string)
| ValueError (msg : string)
| IndexError (msg : string)
| TypeError (msg : string)
| IntegrityError (msg : string)
| DatabaseError (msg : string).

(** [str(e)] as used by [except Exception as e: ... str(e)]. *)
Definition exn_message (e : exn) : string :=
  match e with
  | KeyError m => m
  | ValueError m => m
  | IndexError m => m
  | TypeError m => m
  | IntegrityError m => m
  | DatabaseError m => m
  end.

(** Result of running a piece of Python: a value, a raised
    exception, or (for the model only) an exhausted iteration budget
    of a [while True] loop. *)
Inductive outcome (A : Type) : Type :=
| Ok (a : A)
| Raise (e : exn)
| OutOfFuel.

Arguments Ok {A} a.
Arguments Raise {A} e.
Arguments OutOfFuel {A}.

Definition is_ok {A : Type} (o : outcome A) : bool :=
  match o with
  | Ok _ => true
  | _ => false
  end.

(** Values as the database driver hands them over. *)
#[warnings="-register-all"]
Inductive value : Type :=
| VNone
| VBool (b : bool)
| VInt (z : Z)
| VFloat (q : Q)
| VStr (s : string)
| VTemporal (iso : string)   (* date / datetime; carries its isoformat() *)
| VBytes (repr : string)     (* bytes / memoryview; carries its str() *)
| VList (items : list value) (* list, as an array column is handed over *)
| VObject (repr : string).   (* Decimal, UUID, ...; carries its str() *)

(** Python's [==] on the values above: numbers compare numerically
    ([True == 1]), strings compare with strings, lists item by item,
    and values of unrelated types are never equal. *)
Definition as_number (v : value) : option Q :=
  match v with
  | VBool b => Some (inject_Z (if b then 1 else 0))
  | VInt z => Some (inject_Z z)
  | VFloat q => Some q
  | _ => None
  end.

Fixpoint value_eqb (a b : value) : bool :=
  match as_number a, as_number b with
  | Some x, Some y => Qeq_bool x y
  | _, _ =>
      match a, b with
      | VNone, VNone => true
      | VStr s, VStr t => String.eqb s t
      | VTemporal s, VTemporal t => String.eqb s t
      | VBytes s, VBytes t => String.eqb s t
      | VObject s, VObject t => String.eqb s t
      | VList xs, VList ys =>
          (fix items_eqb (xs ys : list value) : bool :=
             match xs, ys with
             | [], [] => true
             | x :: xs', y :: ys' => (value_eqb x y && items_eqb xs' ys')%bool
             | _, _ => false
             end) xs ys
      | _, _ => false
      end
  end.

(** [x in xs] for a list [xs]. *)
Definition py_in (x : value) (xs : list value) : bool :=
  existsb (value_eqb x) xs.

(** [r[i]] on a tuple; the rows indexed in the source always have
    the selected arity, out of range is [None] here. *)
Definition index (r : list value) (i : nat) : value := nth i r VNone.

(** [int(x)] on a float: truncation towards zero. *)
Definition int_of_float (q : Q) : Z := Z.quot (Qnum q) (Zpos (Qden q)).

(** [round(x)]: nearest integer, ties to even. *)
Definition round (q : Q) : Z :=
  let f := Qfloor q in
  let r := (q - inject_Z f)%Q in
  match Qcompare r (1 # 2) with
  | Lt => f
  | Gt => f + 1
  | Eq => if Z.even f then f else f + 1
  end.

(** [round(x, 2)]. *)
Definition round2 (q : Q) : Q := (round (q * 100) # 100)%Q.

Definition Qltb (a b : Q) : bool := negb (Qle_bool b a).
Definition Qmin (a b : Q) : Q := if Qle_bool a b then a else b.

(** [str(n)] for an int. *)
Definition str_of_N (n : N) : string := NilZero.string_of_uint (N.to_uint n).

Definition str_of_Z (z : Z) : string :=
  match z with
  | Zneg p => "-" ++ str_of_N (Npos p)
  | _ => str_of_N (Z.to_N z)
  end.

Fixpoint zeros (k : nat) : string :=
  match k with
  | O => ""
  | S k' => String "0" (zeros k')
  end.

(** [f'{n:0{w}d}'] for a non-negative int: left padding with zeros. *)
Definition zfill (w : nat) (s : string) : string :=
  zeros (w - String.length s) ++ s.

Definition format_0d (w : nat) (n : N) : string := zfill w (str_of_N n).

(** [f'{z:0{w}d}'] for any int: the sign, when there is one, counts
    in the width. *)
Definition format_0d_Z (w : nat) (z : Z) : string :=
  match z with
  | Zneg p => "-" ++ zfill (w - 1) (str_of_N (Npos p))
  | _ => format_0d w (Z.to_N z)
  end.

(** [int(s)] for a string of decimal digits. *)
Definition parse_N (s : string) : option N :=
  option_map N.of_uint (NilEmpty.uint_of_string s).

(** [sep.join(xs)]. *)
Fixpoint join (sep : string) (xs : list string) : string :=
  match xs with
  | [] => ""
  | [x] => x
  | x :: rest => x ++ sep ++ join sep rest
  end.

(** [repr] of a str free of quotes, backslashes and control
    characters, which is what every registry key of the repository
    is: the text between single quotes. *)
Definition repr_str (s : string) : string := "'" ++ s ++ "'".

(** [repr] of a list of such strings, as an f-string renders it. *)
Definition repr_list (xs : list string) : string :=
  "[" ++ join ", " (map repr_str xs) ++ "]".

(** *** [str] methods on the text of the generators

    The strings the generators transform are the names of the
    transaction types, which are ASCII, and names Faker gives, taken
    as ASCII text; on them [lower] and [title] change the letters a to
    z and A to Z. The query tool, which is handed any text, has its own
    model of [str] (module [Unicode]). *)

Definition code (c : ascii) : N := N_of_ascii c.

Definition in_range (lo hi : N) (c : ascii) : bool :=
  (N.leb lo (code c) && N.leb (code c) hi)%bool.

Definition ascii_upper (c : ascii) : ascii :=
  if in_range 97 122 c then ascii_of_N (code c - 32) else c.

Definition ascii_lower (c : ascii) : ascii :=
  if in_range 65 90 c then ascii_of_N (code c + 32) else c.

Definition is_alpha (c : ascii) : bool :=
  (in_range 65 90 c || in_range 97 122 c)%bool.

(** [str.lower] *)
Fixpoint lower (s : string) : string :=
  match s with
  | EmptyString => EmptyString
  | String c rest => String (ascii_lower c) (lower rest)
  end.

(** [s.replace(old, new)] for a one-character [old]. *)
Fixpoint replace_char (old : ascii) (new : string) (s : string) : string :=
  match s with
  | EmptyString => EmptyString
  | String c rest =>
      if Ascii.eqb c old then new ++ replace_char old new rest
      else String c (replace_char old new rest)
  end.

(** [str.title]: a letter is upper-cased after a non-letter and
    lower-cased after a letter. *)
Fixpoint title_from (after_letter : bool) (s : string) : string :=
  match s with
  | EmptyString => EmptyString
  | String c rest =>
      String (if after_letter then ascii_lower c else ascii_upper c)
             (title_from (is_alpha c) rest)
  end.

Definition title (s : string) : string := title_from false s.

(** [s[:n]] *)
Definition take (n : nat) (s : string) : string := String.substring 0 n s.

(** [needle in hay] for strings, as a proposition. *)
Definition occurs (needle hay : string) : Prop :=
  exists pre post, hay = pre ++ needle ++ post.

End Py.

Import Py.

(* ------------------------------------------------------------------ *)
(** ** Floats as doubles                                               *)
(* ------------------------------------------------------------------ *)

(** A float is the rational it denotes. Where a count or a recorded
    figure depends on it, an operation on floats yields the double
    nearest to the exact result, ties going to the even mantissa
    ([binary64]): 53 bits of precision, with the subnormal numbers at
    the low end. The numbers these operations are applied to (a
    customer count, sums of a [numeric] column) are far below the
    largest double, and the model has no infinity. *)

Module Float.

(** [2 ** k] *)
Definition pow2 (k : Z) : Q :=
  if 0 <=? k then inject_Z (2 ^ k) else (1 / inject_Z (2 ^ (- k)))%Q.

(** The exponent of the leading bit of [q], a number other than 0:
    the [k] with [2 ** k <= |q| < 2 ** (k + 1)]. *)
Definition ilog2 (q : Q) : Z :=
  let k := Z.log2 (Z.abs (Qnum q)) - Z.log2 (Zpos (Qden q)) in
  if Qle_bool (pow2 k) (Z.abs (Qnum q) # Qden q) then k else k - 1.

(** The double nearest to [q]: [q] in units of the last place of its
    binade, rounded to an integer with ties to even. *)
Definition binary64 (q : Q) : Q :=
  if Qeq_bool q 0 then 0%Q
  else
    let e := Z.max (ilog2 q - 52) (-1074) in
    Qred (inject_Z (round (q / pow2 e)) * pow2 e).

(** [float(n)] for an int, and the conversion [n * x] applies to [n]. *)
Definition of_int (n : Z) : Q := binary64 (inject_Z n).

(** [float(d)] for a [Decimal], and the float a decimal numeral of a
    configuration file is read as. *)
Definition of_decimal (d : Q) : Q := binary64 d.

(** [a + b], [a - b], [a * b] on floats. *)
Definition add (a b : Q) : Q := binary64 (a + b).
Definition sub (a b : Q) : Q := binary64 (a - b).
Definition mul (a b : Q) : Q := binary64 (a * b).

(** [round(x, 2)] on a float: the value of [x] rounded to two
    decimal places, ties to even, and the double nearest to that. *)
Definition round2 (x : Q) : Q := binary64 (Py.round2 x).

End Float.

(* ------------------------------------------------------------------ *)
(** ** The id registry ([generators/utils/relationships.py])           *)
(* ------------------------------------------------------------------ *)

Module IDRegistry.

(** What a stage registers: a list of ids, or (for
    ['account_customer_map']) a one-element list holding a dict. *)
Inductive payload : Type :=
| Ids (l : list Z)
| Maps (l : list (list (Z * Z))).

(** [self._store]: a dict keeps its keys in insertion order, which
    the error message of [get_ids] prints, so the store is an
    association list. *)
Definition t : Type := list (string * payload).

(** [__init__] *)
Definition init : t := [].

Definition keys (r : t) : list string := map fst r.

Fixpoint lookup (r : t) (k : string) : option payload :=
  match r with
  | [] => None
  | (k', v) :: rest => if String.eqb k k' then Some v else lookup rest k
  end.

(** [self._store[entity_type] = np.array(ids)]: an existing key keeps
    its position and gets the new value, a new key goes last. *)
Fixpoint register (r : t) (entity_type : string) (ids : payload) : t :=
  match r with
  | [] => [(entity_type, ids)]
  | (k', v) :: rest =>
      if String.eqb entity_type k' then (k', ids) :: rest
      else (k', v) :: register rest entity_type ids
  end.

Definition not_registered_message (entity_type : string) (r : t) : string :=
  "No IDs registered for '" ++ entity_type ++ "'. " ++
  "Available: " ++ repr_list (keys r).

(** [get_ids] *)
Definition get_ids (r : t) (entity_type : string) : outcome payload :=
  match lookup r entity_type with
  | None => Raise (KeyError (not_registered_message entity_type r))
  | Some v => Ok v
  end.

(** [count] *)
Definition count (r : t) (entity_type : string) : outcome nat :=
  match get_ids r entity_type with
  | Ok (Ids l) => Ok (List.length l)
  | Ok (Maps l) => Ok (List.length l)
  | Raise e => Raise e
  | OutOfFuel => OutOfFuel
  end.

(** [len(v)] of a stored array. *)
Definition payload_len (v : payload) : nat :=
  match v with
  | Ids l => List.length l
  | Maps l => List.length l
  end.

(** [summary]: [{k: len(v) for k, v in self._store.items()}] *)
Definition summary (r : t) : list (string * nat) :=
  map (fun kv => (fst kv, payload_len (snd kv))) r.

(** A run of the pipeline: the [register] calls made so far, oldest
    first, replayed on a fresh registry. *)
Definition replay (calls : list (string * payload)) : t :=
  fold_left (fun r c => register r (fst c) (snd c)) calls init.

(** What the specification says is stored for a type after those
    calls: the ids of the last call for it, if there was one. *)
Fixpoint last_registered (calls : list (string * payload)) (k : string)
  : option payload :=
  match calls with
  | [] => None
  | (k', v) :: rest =>
      match last_registered rest k with
      | Some w => Some w
      | None => if String.eqb k k' then Some v else None
      end
  end.

End IDRegistry.

(* ------------------------------------------------------------------ *)
(** ** The SQL query tool ([agent/tools.py])                           *)
(* ------------------------------------------------------------------ *)

(** *** Text as the query tool sees it *)

Module Unicode.
Local Open Scope N_scope.

(** A [str] is a sequence of code points. *)
Definition char : Type := N.
Definition str : Type := list char.

(** The [str] of an ASCII literal of the source. *)
Definition lit (s : string) : str := map N_of_ascii (list_ascii_of_string s).

(** The character tables of the Python runtime, which come from the
    Unicode database of its version: what [str.isspace] answers for a
    character, its full upper-case mapping (one to three characters),
    and whether [\w] of a [str] pattern matches it (it is alphanumeric
    or the underscore). Every theorem about the tool holds for every
    table. *)
Class Tables : Type := {
  isspace : char -> bool;
  toupper : char -> str;
  isword : char -> bool;
}.

Section Methods.
Context {U : Tables}.

(** [str.lstrip] *)
Fixpoint lstrip (s : str) : str :=
  match s with
  | [] => []
  | c :: rest => if isspace c then lstrip rest else s
  end.

(** [str.rstrip] *)
Definition rstrip (s : str) : str := rev (lstrip (rev s)).

(** [str.strip] *)
Definition strip (s : str) : str := lstrip (rstrip s).

(** [str.upper]: each character gives way to its upper-case mapping. *)
Definition upper (s : str) : str := flat_map toupper s.

(** [str.startswith] *)
Fixpoint startswith (s p : str) : bool :=
  match p, s with
  | [], _ => true
  | a :: p', b :: s' => (N.eqb a b && startswith s' p')%bool
  | _ :: _, [] => false
  end.

End Methods.

Definition between (lo hi : N) (c : char) : bool := (N.leb lo c && N.leb c hi)%bool.

(** White space: the twenty-nine characters [str.isspace] accepts. *)
Definition white_space (c : char) : bool :=
  (between 9 13 c || between 28 32 c || N.eqb c 133 || N.eqb c 160
   || N.eqb c 5760 || between 8192 8202 c || between 8232 8233 c
   || N.eqb c 8239 || N.eqb c 8287 || N.eqb c 12288)%bool.

(** Upper case on Latin-1 (U+0000 to U+00FF), and for the dotless i
    (U+0131) and the long s (U+017F), whose capitals are ASCII. *)
Definition latin_toupper (c : char) : str :=
  if between 97 122 c then [c - 32]
  else if N.eqb c 181 then [924]
  else if N.eqb c 223 then [83; 83]
  else if (between 224 254 c && negb (N.eqb c 247))%bool then [c - 32]
  else if N.eqb c 255 then [376]
  else if N.eqb c 305 then [73]
  else if N.eqb c 383 then [83]
  else [c].

(** [\w] up to U+024F, and for the capital of the micro sign
    (U+039C). *)
Definition latin_isword (c : char) : bool :=
  (between 48 57 c || between 65 90 c || N.eqb c 95 || between 97 122 c
   || N.eqb c 170 || between 178 179 c || N.eqb c 181 || between 185 186 c
   || between 188 190 c || between 192 214 c || between 216 246 c
   || between 248 591 c || N.eqb c 924)%bool.

(** Tables for examples. On a text made of characters up to U+00FF,
    of the dotless i and of the long s they are the tables of Unicode
    14, and so the tool does with them what it does in Python 3.11; a
    character beyond is taken as caseless and, above U+024F, as no word
    character, which it need not be. *)
Definition latin : Tables := {|
  isspace := white_space;
  toupper := latin_toupper;
  isword := latin_isword;
|}.

(** A text of ASCII characters. *)
Definition is_ascii (s : str) : Prop := Forall (fun c => c < 128) s.

(** An ASCII character, or the end of a text. *)
Definition ascii_or_none (c : option char) : Prop :=
  match c with
  | Some x => x < 128
  | None => True
  end.

(** What the Unicode database has for ASCII, in every version: the
    entries of the tables above. *)
Definition ascii_as_latin (U : Tables) : Prop :=
  forall c : char,
    c < 128 ->
    isspace c = white_space c /\ toupper c = latin_toupper c /\ isword c = latin_isword c.

End Unicode.

Module Tools.
Import Unicode.

Section Guard.
Context {U : Tables}.

(** *** The [re] operations the guard uses *)

Definition is_word (c : option char) : bool :=
  match c with
  | Some x => isword x
  | None => false
  end.

(** [\b]: between a word character and a non-word character, the
    ends of the text counting as non-word. *)
Definition boundary (l r : option char) : bool := xorb (is_word l) (is_word r).

Definition first_char (s : str) : option char :=
  match s with
  | [] => None
  | c :: _ => Some c
  end.

(** Last character of [s], or [prev] when [s] is empty. *)
Fixpoint last_char (prev : option char) (s : str) : option char :=
  match s with
  | [] => prev
  | c :: rest => last_char (Some c) rest
  end.

(** The text after the literal [p], when [s] starts with it. *)
Fixpoint strip_prefix (p s : str) : option str :=
  match p, s with
  | [], _ => Some s
  | a :: p', b :: s' =>
      if N.eqb a b then strip_prefix p' s' else None
  | _ :: _, [] => None
  end.

(** Does [\b kw \b] match at the start of [text], [prev] being the
    character before it? *)
Definition match_word_here (prev : option char) (kw text : str) : bool :=
  (boundary prev (first_char text) &&
   match strip_prefix kw text with
   | Some rest => boundary (last_char prev kw) (first_char rest)
   | None => false
   end)%bool.

(** [re.search(rf'\b{kw}\b', text)], scanning left to right. *)
Fixpoint search_word_from (prev : option char) (kw text : str) : bool :=
  (match_word_here prev kw text ||
   match text with
   | [] => false
   | c :: rest => search_word_from (Some c) kw rest
   end)%bool.

Definition search_word (kw text : str) : bool :=
  search_word_from None kw text.

(** What "contains [kw] as a whole word" means, stated without a
    scan: some occurrence of [kw] has a word boundary on each side. *)
Definition whole_word (kw text : str) : Prop :=
  exists pre post,
    text = (pre ++ kw ++ post)%list
    /\ boundary (last_char None pre) (first_char (kw ++ post)%list) = true
    /\ boundary (last_char (last_char None pre) kw) (first_char post) = true.

End Guard.

(** *** The store behind the tool *)

(** A result set: column names and all rows the statement yields. *)
Definition result_set : Type := (list string * list (list value))%type.

(** The result of the tool, a JSON-like dict:
    [{"error": msg}] or [{"columns", "rows", "row_count", "truncated"}]. *)
Inductive response : Type :=
| Error (msg : string)
| Result (columns : list string) (rows : list (list (string * value)))
         (row_count : nat) (truncated : bool).

Definition dangerous : list string :=
  ["INSERT"; "UPDATE"; "DELETE"; "DROP"; "ALTER"; "TRUNCATE"; "CREATE"].

Definition ROW_CAP : nat := 500.

(** [d[k] = v] on a dict kept in insertion order. *)
Fixpoint dict_set (d : list (string * value)) (k : string) (v : value)
  : list (string * value) :=
  match d with
  | [] => [(k, v)]
  | (k', w) :: rest =>
      if String.eqb k k' then (k', v) :: rest else (k', w) :: dict_set rest k v
  end.

(** [dict(zip(columns, row))] *)
Definition dict_zip (columns : list string) (row : list value) : list (string * value) :=
  fold_left (fun d kv => dict_set d (fst kv) (snd kv)) (combine columns row) [].

(** [row[k]] on such a dict. *)
Fixpoint dict_get (d : list (string * value)) (k : string) : option value :=
  match d with
  | [] => None
  | (k', v) :: rest => if String.eqb k k' then Some v else dict_get rest k
  end.

(** What [dict(pairs)] holds for [k]: the value of the last pair
    with that key. *)
Fixpoint last_assigned (pairs : list (string * value)) (k : string) : option value :=
  match pairs with
  | [] => None
  | (k', v) :: rest =>
      match last_assigned rest k with
      | Some w => Some w
      | None => if String.eqb k k' then Some v else None
      end
  end.

(** [None], a bool, an int, a float or a str. *)
Definition scalar (v : value) : bool :=
  match v with
  | VNone | VBool _ | VInt _ | VFloat _ | VStr _ => true
  | _ => false
  end.

Definition is_list (v : value) : bool :=
  match v with
  | VList _ => true
  | _ => false
  end.

(** The conversion of non-serialisable values, lines 133 to 138: a
    value with [isoformat] gives way to its ISO text, bytes and any
    other object to their [str]; [None], a str, an int, a float, a bool
    and a list are left as they are, the list with whatever it
    holds. *)
Definition serialise (v : value) : value :=
  match v with
  | VTemporal iso => VStr iso
  | VBytes r => VStr r
  | VObject r => VStr r
  | VNone | VBool _ | VInt _ | VFloat _ | VStr _ | VList _ => v
  end.

Definition serialise_row (row : list (string * value)) : list (string * value) :=
  map (fun kv => (fst kv, serialise (snd kv))) row.

Section WithStore.
Context {U : Tables}.

(** The database behind [create_engine(DB_URL)]: its state, and
    what connecting and executing one statement does to it. *)
Variable database : Type.
Variable run_statement : database -> str -> (exn + result_set) * database.

(** The state the tool can touch: the database and, for stating
    what was sent to it, the log of executed statements. *)
Record store : Type := mkStore {
  db : database;
  executed : list str;
}.

(** [engine.connect(); conn.execute(text(query))] *)
Definition execute (query : str) (s : store) : (exn + result_set) * store :=
  let (r, db') := run_statement (db s) query in
  (r, {| db := db'; executed := (executed s ++ [query])%list |}).

(** [execute_sql_query] *)
Definition execute_sql_query (query : str) (s : store) : outcome response * store :=
  let query_upper := upper (strip query) in
  if (negb (startswith query_upper (lit "SELECT"))
      && negb (startswith query_upper (lit "WITH")))%bool
  then (Ok (Error "Only SELECT queries are permitted."), s)
  else
    match find (fun keyword => search_word (lit keyword) query_upper) dangerous with
    | Some keyword =>
        (Ok (Error ("Query contains forbidden keyword: " ++ keyword)), s)
    | None =>
        (* try: ... except Exception as e: return {"error": str(e)} *)
        match execute query s with
        | (inr (columns, all_rows), s') =>
            let rows := map (dict_zip columns) (firstn ROW_CAP all_rows) in
            let total := List.length rows in
            let rows := map serialise_row rows in
            (Ok (Result columns rows total (Nat.leb ROW_CAP total)), s')
        | (inl e, s') => (Ok (Error (exn_message e)), s')
        end
    end.

End WithStore.

(** A store for examples: one table, which every statement reads
    in full. *)
Definition table_store : Type := list (list value).

Definition run_on_table (t : table_store) (query : str)
  : (exn + result_set) * table_store :=
  (inr (["n"], t), t).

(** C8 as the specification words it: the flag is set if and only
    if rows were left out. *)
Definition truncated_iff_rows_omitted {U : Tables}
           (database : Type)
           (run_statement : database -> str -> (exn + result_set) * database)
           (query : str) (s : store database) : Prop :=
  forall columns cols all_rows rows n tr d s',
    run_statement (db s) query = (inr (cols, all_rows), d) ->
    execute_sql_query run_statement query s = (Ok (Result columns rows n tr), s') ->
    (List.length rows <= ROW_CAP)%nat
    /\ n = List.length rows
    /\ (tr = true <-> (List.length rows < List.length all_rows)%nat).

End Tools.

(* ------------------------------------------------------------------ *)
(** ** [datetime.date]                                                 *)
(* ------------------------------------------------------------------ *)

Module Date.

(** A date is its day number (days since 1970-01-01 in the proleptic
    Gregorian calendar), so that [d + timedelta(days=n)] is [d + n]
    and dates compare as integers. *)
Definition t : Type := Z.

(** [date(y, m, d)] *)
Definition make (y m d : Z) : t :=
  let y' := if m <=? 2 then y - 1 else y in
  let era := y' / 400 in
  let yoe := y' - era * 400 in
  let mp := if 2 <? m then m - 3 else m + 9 in
  let doy := (153 * mp + 2) / 5 + d - 1 in
  let doe := yoe * 365 + yoe / 4 - yoe / 100 + doy in
  era * 146097 + doe - 719468.

(** [(d.year, d.month, d.day)] *)
Definition civil (z : t) : Z * Z * Z :=
  let z' := z + 719468 in
  let era := z' / 146097 in
  let doe := z' - era * 146097 in
  let yoe := (doe - doe / 1460 + doe / 36524 - doe / 146096) / 365 in
  let y := yoe + era * 400 in
  let doy := doe - (365 * yoe + yoe / 4 - yoe / 100) in
  let mp := (5 * doy + 2) / 153 in
  let d := doy - (153 * mp + 2) / 5 + 1 in
  let m := if mp <? 10 then mp + 3 else mp - 9 in
  ((if m <=? 2 then y + 1 else y), m, d).

Definition digits (w : nat) (z : Z) : string := format_0d w (Z.to_N z).

(** [d.isoformat()] *)
Definition isoformat (z : t) : string :=
  let '(y, m, d) := civil z in
  digits 4 y ++ "-" ++ digits 2 m ++ "-" ++ digits 2 d.

(** [d.strftime("%Y%m%d")] *)
Definition strftime_Ymd (z : t) : string :=
  let '(y, m, d) := civil z in
  digits 4 y ++ digits 2 m ++ digits 2 d.

(** [datetime(d.year, d.month, d.day, hour, minute).isoformat()] *)
Definition datetime_isoformat (z : t) (hour minute : Z) : string :=
  isoformat z ++ "T" ++ digits 2 hour ++ ":" ++ digits 2 minute ++ ":00".

(** [range]-style list of the [n] days from [start]. *)
Definition days_from (start : t) (n : Z) : list t :=
  map (fun k => start + Z.of_nat k) (seq 0 (Z.to_nat n)).

End Date.

(* ------------------------------------------------------------------ *)
(** ** Random sources: [numpy.random.Generator] and [Faker]            *)
(* ------------------------------------------------------------------ *)

Module Numpy.

(** The sampling methods the generators call, on an explicit
    generator state. [choice_index n p] is the position picked by
    [rng.choice(a)] (or [rng.choice(a, p=p)]) in a population of [n]
    items; [choice_indices n p k] is [rng.choice(a, size=k, p=p)].
    numpy documents [0 <= random() < 1], [low <= integers(low, high)
    < high], positions below [n], [poisson >= 0] and [lognormal >= 0];
    a theorem that needs one of these ranges assumes it. *)
Class Generator (G : Type) : Type := {
  default_rng : Z -> G;
  random : G -> Q * G;
  integers : Z -> Z -> G -> Z * G;
  choice_index : nat -> option (list Q) -> G -> nat * G;
  choice_indices : nat -> option (list Q) -> nat -> G -> list nat * G;
  poisson : Q -> G -> Z * G;
  lognormal : Q -> Q -> G -> Q * G;
  normal : Q -> Q -> G -> Q * G;
}.

(** [lognormal] draws are not negative. *)
Definition lognormal_nonneg (G : Type) {gen : Generator G} : Prop :=
  forall mean sigma (g : G), (0 <= fst (lognormal mean sigma g))%Q.

Arguments lognormal_nonneg G {gen}.

End Numpy.

Module Faker.

(** The providers of the process-wide [Faker('en_GB')] generator the
    customer stage calls, on an explicit generator state. All
    [Faker] instances of a process share this state, and
    [Faker.seed] resets it. *)
Class Provider (F : Type) : Type := {
  seed : Z -> F;
  first_name_male : F -> string * F;
  first_name_female : F -> string * F;
  last_name : F -> string * F;
  free_email_domain : F -> string * F;
  phone_number : F -> string * F;
  company : F -> string * F;
}.

End Faker.

(* ------------------------------------------------------------------ *)
(** ** Stateful, failing computations                                  *)
(* ------------------------------------------------------------------ *)

Module Monad.

(** A computation over a state [S]: it returns a value and the next
    state, raises, or runs out of iteration budget. *)
Definition M (S A : Type) : Type := S -> outcome (A * S).

Definition ret {S A : Type} (a : A) : M S A := fun s => Ok (a, s).

Definition bind {S A B : Type} (m : M S A) (k : A -> M S B) : M S B :=
  fun s =>
    match m s with
    | Ok (a, s') => k a s'
    | Raise e => Raise e
    | OutOfFuel => OutOfFuel
    end.

Definition raise {S A : Type} (e : exn) : M S A := fun _ => Raise e.

Definition get {S : Type} : M S S := fun s => Ok (s, s).
Definition put {S : Type} (s : S) : M S unit := fun _ => Ok (tt, s).
Definition modify {S : Type} (f : S -> S) : M S unit := fun s => Ok (tt, f s).

(** [for x in xs: body(x)] *)
Fixpoint for_each {S A : Type} (xs : list A) (body : A -> M S unit) : M S unit :=
  match xs with
  | [] => ret tt
  | x :: rest => bind (body x) (fun _ => for_each rest body)
  end.

(** [range(n)] *)
Definition range (n : Z) : list Z := map Z.of_nat (seq 0 (Z.to_nat n)).

(** [if c: body] *)
Definition when {S : Type} (c : bool) (body : M S unit) : M S unit :=
  if c then body else ret tt.

Declare Scope monad_scope.
Delimit Scope monad_scope with monad.

Notation "x <- m ;; k" := (bind m (fun x => k))
  (at level 61, m at next level, right associativity) : monad_scope.
Notation "' pat <- m ;; k" := (bind m (fun x => match x with pat => k end))
  (at level 61, pat pattern, m at next level, right associativity) : monad_scope.
Notation "m ;; k" := (bind m (fun _ => k))
  (at level 61, right associativity) : monad_scope.

End Monad.

(* ------------------------------------------------------------------ *)
(** ** Configuration ([generators/config.py])                          *)
(* ------------------------------------------------------------------ *)

Module Config.

(** The generation parameters read from [db_config.yaml]. The file
    is not among the sources, so the values are parameters of every
    stage. A ratio is the decimal numeral of the file; the float the
    stages compute with is the double nearest to it
    ([Float.of_decimal]). *)
Record t : Type := {
  SEED : Z;
  CUSTOMER_COUNT : Z;
  PERSONAL_RATIO : Q;
  ACTIVE_ACCOUNT_RATIO : Q;
  ARREARS_RATIO : Q;
  TXN_DATE_START : Date.t;
  TXN_DATE_END : Date.t;
  AVG_TXN_PER_ACCOUNT_MONTH : Q;
  ZERO_AMOUNT_TXNS : Z;
  ORPHANED_ACCOUNTS : Z;
  GL_IMBALANCE_BATCH : string;
}.

Definition BATCH_SIZE : nat := 5000.

End Config.

(* ------------------------------------------------------------------ *)
(** ** Records written by the stages                                   *)
(* ------------------------------------------------------------------ *)

Module Customer.
Record t : Type := {
  customer_ref : string;
  type : string;
  title : option string;
  first_name : option string;
  last_name : option string;
  full_name : string;
  date_of_birth : option string;
  gender : option string;
  nationality : option string;
  ni_number : option string;
  email : string;
  phone_mobile : string;
  phone_home : option string;
  company_name : option string;
  company_reg_number : option string;
  sic_code : option string;
  kyc_status : string;
  kyc_verified_date : option string;
  risk_rating : string;
  customer_segment : string;
  is_active : bool;
  onboarded_date : string;
  closed_date : option string;
}.
End Customer.

Module Account.
Record t : Type := {
  customer_id : Z;
  product_id : Z;
  account_number : string;
  sort_code : string;
  account_name : option string;
  status : string;
  currency : string;
  credit_limit : option Q;
  overdraft_limit : option Q;
  opened_date : string;
  closed_date : option string;
  last_transaction_date : option string;
}.
End Account.

Module Transaction.
Record t : Type := {
  account_id : Z;
  txn_date : string;
  txn_timestamp : string;
  value_date : string;
  amount : Q;
  currency : string;
  txn_type : string;
  description : string;
  counterparty_name : string;
  counterparty_account : option string;
  counterparty_sort_code : option string;
  channel : string;
  reference : string;
  status : string;
  balance_after : option Q;
}.
End Transaction.

Module GLEntry.
Record t : Type := {
  journal_id : string;
  batch_id : string;
  entry_date : string;
  posting_date : string;
  account_code : string;
  cost_centre_code : string;
  debit_amount : Q;
  credit_amount : Q;
  currency : string;
  description : string;
  source_system : string;
  source_reference : string;
  is_manual : bool;
  posted_by : string;
}.
End GLEntry.

(* ------------------------------------------------------------------ *)
(** ** The relational store and [bulk_insert]                          *)
(* ------------------------------------------------------------------ *)

Module Store.

(** A table with a generated integer primary key. The schema files
    are not among the sources; the key is taken to be assigned by the
    store from a counter, in insertion order, which is how the stages
    use it (insert, then read the assigned keys back). *)
Record table (R : Type) : Type := mkTable {
  next_id : Z;
  rows : list (Z * R);
}.

Arguments mkTable {R} next_id rows.

(** The keys the next [n] rows receive. *)
Definition new_keys (first : Z) (n : nat) : list Z :=
  map (fun k => first + Z.of_nat k) (seq 0 n).

(** One [conn.execute(sql, batch)]: every record of the batch
    becomes a row. *)
Definition insert_batch {R : Type} (t : table R) (batch : list R) : table R :=
  {| next_id := next_id t + Z.of_nat (List.length batch);
     rows := rows t ++ combine (new_keys (next_id t) (List.length batch)) batch |}.

(** [records[i:i + size] for i in range(0, len(records), size)] *)
Fixpoint chunks_upto {R : Type} (fuel size : nat) (records : list R) : list (list R) :=
  match fuel with
  | O => []
  | S fuel' =>
      match records with
      | [] => []
      | _ => firstn size records :: chunks_upto fuel' size (skipn size records)
      end
  end.

Definition chunks {R : Type} (size : nat) (records : list R) : list (list R) :=
  chunks_upto (List.length records) size records.

(** [bulk_insert(table_name, records, columns)]: nothing for an
    empty list, else one batch after the other and one commit. *)
Definition bulk_insert {R : Type} (t : table R) (records : list R) : table R :=
  match records with
  | [] => t
  | _ => fold_left insert_batch (chunks Config.BATCH_SIZE records) t
  end.

(** [ORDER BY] the key: insertion into a list sorted by key. *)
Fixpoint insert_by_key {R : Type} (x : Z * R) (l : list (Z * R)) : list (Z * R) :=
  match l with
  | [] => [x]
  | y :: rest => if fst x <=? fst y then x :: l else y :: insert_by_key x rest
  end.

Definition order_by_key {R : Type} (l : list (Z * R)) : list (Z * R) :=
  fold_right insert_by_key [] l.

(** The part of the database the embedded stages read and write. *)
Record database : Type := mkDatabase {
  (** [SELECT product_id, category FROM core_banking.products] *)
  products : list (Z * string);
  customers : table Customer.t;
  accounts : table Account.t;
  (** Is the foreign key [accounts_customer_id_fkey] declared? *)
  accounts_customer_id_fkey : bool;
  transactions : table Transaction.t;
  (** [SELECT cost_centre_code FROM gl.cost_centres] *)
  cost_centres : list string;
  gl_entries : table GLEntry.t;
}.

End Store.

(* ------------------------------------------------------------------ *)
(** ** The process a stage runs in                                     *)
(* ------------------------------------------------------------------ *)

Module World.

Section WithFaker.
Variable F : Type.

(** What outlives a stage: the module-level [registry], the
    database, and the state of the process-wide Faker generator. *)
Record t : Type := mk {
  registry : IDRegistry.t;
  db : Store.database;
  faker : F;
}.

Definition set_registry (r : IDRegistry.t) (w : t) : t :=
  {| registry := r; db := db w; faker := faker w |}.

Definition set_db (d : Store.database) (w : t) : t :=
  {| registry := registry w; db := d; faker := faker w |}.

Definition set_faker (f : F) (w : t) : t :=
  {| registry := registry w; db := db w; faker := f |}.

Definition register (k : string) (v : IDRegistry.payload) (w : t) : t :=
  set_registry (IDRegistry.register (registry w) k v) w.

End WithFaker.

End World.

(* ------------------------------------------------------------------ *)
(** ** Sampling inside a stage                                         *)
(* ------------------------------------------------------------------ *)

Module Sampling.
Import Monad Numpy.
Local Open Scope monad_scope.

Section WithGenerator.
Context {G : Type} {gen : Generator G}.
(** [L]: the local variables of the stage next to its [rng]. *)
Context {L : Type}.

Definition draw {A : Type} (f : G -> A * G) : M (G * L) A :=
  fun s => let (a, g') := f (fst s) in Ok (a, (g', snd s)).

Definition get_local : M (G * L) L := fun s => Ok (snd s, s).

Definition modify_local (f : L -> L) : M (G * L) unit :=
  fun s => Ok (tt, (fst s, f (snd s))).

(** [rng.random()] *)
Definition rng_random : M (G * L) Q := draw random.

(** [rng.integers(low, high)] *)
Definition rng_integers (low high : Z) : M (G * L) Z :=
  if low <? high then draw (integers low high)
  else raise (ValueError "low >= high").

Definition Qsum (p : list Q) : Q := fold_right Qplus 0%Q p.

Definition check_population (n : nat) (p : option (list Q)) : M (G * L) unit :=
  match n with
  | O => raise (ValueError "a cannot be empty unless no samples are taken")
  | _ =>
      match p with
      | None => ret tt
      | Some w =>
          if negb (Nat.eqb (List.length w) n)
          then raise (ValueError "a and p must have same size")
          else if negb (Qeq_bool (Qsum w) 1)
          then raise (ValueError "probabilities do not sum to 1")
          else ret tt
      end
  end.

(** [rng.choice(n, p=p)] for an int [n]: a position below [n]. *)
Definition rng_choice_int (n : nat) (p : option (list Q)) : M (G * L) nat :=
  check_population n p ;;
  draw (choice_index n p).

(** [rng.choice(xs)] and [rng.choice(xs, p=p)] *)
Definition rng_choice {A : Type} (xs : list A) (p : option (list Q)) : M (G * L) A :=
  match xs with
  | [] => raise (ValueError "a cannot be empty unless no samples are taken")
  | x :: _ =>
      i <- rng_choice_int (List.length xs) p ;;
      ret (nth i xs x)
  end.

(** [rng.choice(xs, size=size, p=p)] *)
Definition rng_choice_sized {A : Type} (xs : list A) (size : nat) (p : option (list Q))
  : M (G * L) (list A) :=
  match xs with
  | [] =>
      match size with
      | O => ret []
      | _ => raise (ValueError "a cannot be empty unless no samples are taken")
      end
  | x :: _ =>
      check_population (List.length xs) p ;;
      idx <- draw (choice_indices (List.length xs) p size) ;;
      ret (map (fun i => nth i xs x) idx)
  end.

(** [rng.poisson(lam)] *)
Definition rng_poisson (lam : Q) : M (G * L) Z := draw (poisson lam).

(** [rng.lognormal(mean, sigma)] *)
Definition rng_lognormal (mean sigma : Q) : M (G * L) Q := draw (lognormal mean sigma).

(** [rng.normal(loc, scale)] *)
Definition rng_normal (loc scale : Q) : M (G * L) Q := draw (normal loc scale).

(** *** [generators/utils/faker_extensions.py] *)

Definition MERIDIAN_SORT_CODES : list string :=
  ["200100"; "200101"; "200102"; "200103"; "200104";
   "200200"; "200201";
   "200300"; "200301";
   "200400";
   "200500";
   "200600";
   "200700";
   "200800"].

(** [generate_sort_code] *)
Definition generate_sort_code : M (G * L) string :=
  rng_choice MERIDIAN_SORT_CODES None.

(** [generate_account_number] *)
Definition generate_account_number : M (G * L) string :=
  n <- rng_integers 10000000 99999999 ;;
  ret (str_of_Z n).

Definition letters (s : string) : list string :=
  map (fun c => String c EmptyString) (list_ascii_of_string s).

(** [generate_ni_number] *)
Definition generate_ni_number : M (G * L) string :=
  let prefix_letters := "ABCEGHJKLMNPRSTWXYZ" in
  let suffix_letters := "ABCD" in
  p1 <- rng_choice (letters prefix_letters) None ;;
  p2 <- rng_choice (letters prefix_letters) None ;;
  n <- rng_integers 100000 999999 ;;
  let digits := str_of_Z n in
  suffix <- rng_choice (letters suffix_letters) None ;;
  ret (p1 ++ p2 ++ digits ++ suffix).

Definition RETAIL_COUNTERPARTIES : list string :=
  ["Tesco Stores"; "Sainsbury's"; "ASDA"; "Morrisons"; "Aldi"; "Lidl";
   "Marks & Spencer"; "Waitrose"; "Co-op Food";
   "Amazon.co.uk"; "ASOS.com"; "John Lewis"; "Argos"; "Currys";
   "Shell"; "BP"; "Esso"; "Texaco";
   "Costa Coffee"; "Starbucks"; "Greggs"; "Pret A Manger"; "Nandos";
   "Deliveroo"; "Just Eat"; "Uber Eats";
   "Netflix"; "Spotify"; "Apple"; "Google";
   "Sky"; "BT"; "Virgin Media"; "EE"; "Three"; "Vodafone";
   "British Gas"; "EDF Energy"; "SSE"; "Octopus Energy";
   "Thames Water"; "Severn Trent"; "United Utilities";
   "Council Tax"; "HMRC"; "DVLA";
   "Aviva"; "Direct Line"; "Admiral"; "AA";
   "PureGym"; "David Lloyd"; "Gymshark";
   "TfL"; "Trainline"; "National Rail";
   "NHS"; "Boots Pharmacy"].

Definition BUSINESS_COUNTERPARTIES : list string :=
  ["HMRC VAT"; "HMRC Corporation Tax"; "HMRC PAYE";
   "Companies House"; "Business Rates";
   "AWS"; "Microsoft Azure"; "Google Cloud";
   "Royal Mail"; "DHL"; "FedEx";
   "Sage Accounting"; "Xero"; "QuickBooks";
   "Barclaycard Merchant"; "Worldpay"; "Stripe"].

Definition SALARY_PAYERS : list string :=
  ["Meridian Bank Payroll"; "Tesco PLC Payroll"; "NHS Trust Payroll";
   "Barclays Payroll"; "BT Group Payroll"; "Unilever Payroll";
   "GSK Payroll"; "Rolls Royce Payroll"; "BAE Systems Payroll";
   "Lloyds Banking Payroll"; "JCB Payroll"; "Astra Zeneca Payroll";
   "Royal Mail Payroll"; "Network Rail Payroll"; "BBC Payroll"].

(** [get_counterparty] *)
Definition get_counterparty (txn_type : string) (is_business : bool) : M (G * L) string :=
  if String.eqb txn_type "salary" then rng_choice SALARY_PAYERS None
  else
    let pool := if is_business
                then (BUSINESS_COUNTERPARTIES ++ firstn 10 RETAIL_COUNTERPARTIES)%list
                else RETAIL_COUNTERPARTIES in
    rng_choice pool None.

End WithGenerator.

End Sampling.

(* ------------------------------------------------------------------ *)
(** ** Stage: customers ([generators/generate_customers.py])           *)
(* ------------------------------------------------------------------ *)

Module GenerateCustomers.
Import Monad Numpy Sampling Faker Config.
Local Open Scope monad_scope.

Section Stage.
Context {G : Type} {gen : Generator G} {F : Type} {prov : Provider F}.
Variable cfg : Config.t.

(** Next to [rng]: the Faker generator and the [records] list. *)
Definition local : Type := (F * list Customer.t)%type.
Definition stage : Type -> Type := M (G * local).

(** A call of a provider of [fake]. *)
Definition fake (f : F -> string * F) : stage string :=
  fun s =>
    let (a, fk') := f (fst (snd s)) in
    Ok (a, (fst s, (fk', snd (snd s)))).

(** [records.append(r)] *)
Definition append (r : Customer.t) : stage unit :=
  modify_local (fun l => (fst l, (snd l ++ [r])%list)).

(** [generate_uk_phone] *)
Definition generate_uk_phone : stage string := fake phone_number.

Definition age_weights : list Q := [15#100; 25#100; 30#100; 20#100; 10#100]%Q.
Definition age_ranges : list (Z * Z) := [(18, 25); (26, 35); (36, 50); (51, 65); (66, 85)].

Definition kyc_statuses : list string :=
  ["verified"; "verified"; "verified"; "verified"; "verified";
   "verified"; "verified"; "enhanced_due_diligence"; "pending"; "expired"].

Definition risk_weights : list Q := [25#100; 55#100; 12#100; 5#100; 2#100; 1#100]%Q.
Definition risk_ratings : list string :=
  ["low"; "standard"; "medium"; "high"; "pep"; "sanctioned"].

Definition personal_segments : list string :=
  ["mass_market"; "mass_affluent"; "high_net_worth";
   "young_professional"; "student"; "retired"].
Definition personal_seg_weights : list Q := [45#100; 25#100; 5#100; 12#100; 5#100; 8#100]%Q.

Definition foreign_nationalities : list string :=
  ["Irish"; "Polish"; "Indian"; "Pakistani"; "Nigerian"; "Romanian";
   "Italian"; "Portuguese"; "French"; "German"].

Definition business_segments : list string := ["small_business"; "growing_business"].
Definition business_seg_weights : list Q := [70#100; 30#100]%Q.
Definition sic_codes : list string :=
  ["62020"; "47110"; "56101"; "41201"; "69201"; "86210";
   "96020"; "55100"; "49410"; "01110"; "74909"; "82990"].

(** [date(2015, 1, 1) + timedelta(days=int(rng.integers(0, 3650)))],
    capped at the end of 2024. *)
Definition draw_onboarded : stage Date.t :=
  offset <- rng_integers 0 3650 ;;
  let onboarded := Date.make 2015 1 1 + offset in
  ret (if Date.make 2024 12 31 <? onboarded then Date.make 2024 12 31 else onboarded).

(** Body of the loop over [range(n_personal)]. *)
Definition personal_customer (i : Z) : stage unit :=
  age_bracket <- rng_choice_int (List.length age_ranges) (Some age_weights) ;;
  let bracket := nth age_bracket age_ranges (0, 0) in
  age <- rng_integers (fst bracket) (snd bracket + 1) ;;
  extra <- rng_integers 0 365 ;;
  let dob := Date.make 2024 7 1 - (age * 365 + extra) in
  onboarded <- draw_onboarded ;;
  gender <- rng_choice ["male"; "female"] None ;;
  '(first, title) <-
    (if String.eqb gender "male"
     then (first <- fake first_name_male ;;
           title <- rng_choice ["Mr"; "Mr"; "Mr"; "Dr"] None ;;
           ret (first, title))
     else (first <- fake first_name_female ;;
           title <- rng_choice ["Ms"; "Mrs"; "Miss"; "Dr"] None ;;
           ret (first, title))) ;;
  last <- fake last_name ;;
  risk <- rng_choice risk_ratings (Some risk_weights) ;;
  kyc <- rng_choice kyc_statuses None ;;
  segment <- rng_choice personal_segments (Some personal_seg_weights) ;;
  u <- rng_random ;;
  let is_active := Qltb (8#100) u in
  closed_date <-
    (if negb is_active
     then (d <- rng_integers 180 3000 ;; ret (Some (Date.isoformat (onboarded + d))))
     else ret None) ;;
  u_nat <- rng_random ;;
  nationality <-
    (if Qltb (15#100) u_nat then ret "British"
     else rng_choice foreign_nationalities None) ;;
  ni <- generate_ni_number ;;
  suffix <- rng_integers 1 999 ;;
  domain <- fake free_email_domain ;;
  mobile <- generate_uk_phone ;;
  u_home <- rng_random ;;
  home <-
    (if Qltb (6#10) u_home then (ph <- generate_uk_phone ;; ret (Some ph))
     else ret None) ;;
  verified <-
    (if String.eqb kyc "verified"
     then (d <- rng_integers 1 30 ;; ret (Some (Date.isoformat (onboarded + d))))
     else ret None) ;;
  append {|
    Customer.customer_ref := "MCB-" ++ str_of_Z (10000001 + i);
    Customer.type := "personal";
    Customer.title := Some title;
    Customer.first_name := Some first;
    Customer.last_name := Some last;
    Customer.full_name := title ++ " " ++ first ++ " " ++ last;
    Customer.date_of_birth := Some (Date.isoformat dob);
    Customer.gender := Some gender;
    Customer.nationality := Some nationality;
    Customer.ni_number := Some ni;
    Customer.email := lower first ++ "." ++ lower last ++ str_of_Z suffix ++ "@" ++ domain;
    Customer.phone_mobile := mobile;
    Customer.phone_home := home;
    Customer.company_name := None;
    Customer.company_reg_number := None;
    Customer.sic_code := None;
    Customer.kyc_status := kyc;
    Customer.kyc_verified_date := verified;
    Customer.risk_rating := risk;
    Customer.customer_segment := segment;
    Customer.is_active := is_active;
    Customer.onboarded_date := Date.isoformat onboarded;
    Customer.closed_date := closed_date;
  |}.

(** Body of the loop over [range(n_business)]. *)
Definition business_customer (n_personal i : Z) : stage unit :=
  company_name <- fake company ;;
  onboarded <- draw_onboarded ;;
  risk <- rng_choice (firstn 4 risk_ratings) (Some [20#100; 50#100; 20#100; 10#100]%Q) ;;
  u <- rng_random ;;
  let is_active := Qltb (10#100) u in
  mobile <- generate_uk_phone ;;
  u_home <- rng_random ;;
  home <-
    (if Qltb (4#10) u_home then (ph <- generate_uk_phone ;; ret (Some ph))
     else ret None) ;;
  reg <- rng_integers 1000000 99999999 ;;
  sic <- rng_choice sic_codes None ;;
  kyc <- rng_choice ["verified"; "verified"; "verified"; "enhanced_due_diligence"] None ;;
  d_kyc <- rng_integers 1 30 ;;
  segment <- rng_choice business_segments (Some business_seg_weights) ;;
  closed_date <-
    (if is_active then ret None
     else (d <- rng_integers 180 2000 ;; ret (Some (Date.isoformat (onboarded + d))))) ;;
  append {|
    Customer.customer_ref := "MCB-" ++ str_of_Z (10000001 + n_personal + i);
    Customer.type := "business";
    Customer.title := None;
    Customer.first_name := None;
    Customer.last_name := None;
    Customer.full_name := company_name;
    Customer.date_of_birth := None;
    Customer.gender := None;
    Customer.nationality := None;
    Customer.ni_number := None;
    Customer.email :=
      "info@" ++
      take 20 (replace_char "&" "" (replace_char "," "" (replace_char " " "" (lower company_name))))
      ++ ".co.uk";
    Customer.phone_mobile := mobile;
    Customer.phone_home := home;
    Customer.company_name := Some company_name;
    Customer.company_reg_number := Some (format_0d_Z 8 reg);
    Customer.sic_code := Some sic;
    Customer.kyc_status := kyc;
    Customer.kyc_verified_date := Some (Date.isoformat (onboarded + d_kyc));
    Customer.risk_rating := risk;
    Customer.customer_segment := segment;
    Customer.is_active := is_active;
    Customer.onboarded_date := Date.isoformat onboarded;
    Customer.closed_date := closed_date;
  |}.

(** [int(CUSTOMER_COUNT * PERSONAL_RATIO)]: the product of an int and
    a float is a float product. *)
Definition n_personal : Z :=
  int_of_float (Float.mul (Float.of_int (CUSTOMER_COUNT cfg))
                          (Float.of_decimal (PERSONAL_RATIO cfg))).
Definition n_business : Z := CUSTOMER_COUNT cfg - n_personal.

(** The two generation loops. *)
Definition build_records : stage unit :=
  for_each (range n_personal) personal_customer ;;
  for_each (range n_business) (business_customer n_personal).

(** [SELECT customer_id, type, is_active FROM core_banking.customers
    ORDER BY customer_id] *)
Definition select_customers (d : Store.database) : list (Z * string * bool) :=
  map (fun r => (fst r, Customer.type (snd r), Customer.is_active (snd r)))
      (Store.order_by_key (Store.rows (Store.customers d))).

Definition with_customers (d : Store.database) (t : Store.table Customer.t) : Store.database :=
  {| Store.products := Store.products d;
     Store.customers := t;
     Store.accounts := Store.accounts d;
     Store.accounts_customer_id_fkey := Store.accounts_customer_id_fkey d;
     Store.transactions := Store.transactions d;
     Store.cost_centres := Store.cost_centres d;
     Store.gl_entries := Store.gl_entries d |}.

(** [generate_customers]: returns [all_ids]. *)
Definition generate_customers (w : World.t F) : outcome (list Z * World.t F) :=
  let rng := default_rng (SEED cfg) in
  match build_records (rng, (World.faker w, [])) with
  | Ok (_, (_, (fk, records))) =>
      match records with
      | [] => Raise (IndexError "list index out of range")   (* records[0] *)
      | _ =>
          let d := with_customers (World.db w)
                     (Store.bulk_insert (Store.customers (World.db w)) records) in
          let rows := select_customers d in
          let all_ids := map (fun '(c0, c1, c2) => c0) rows in
          let personal_ids :=
            map (fun '(c0, c1, c2) => c0)
                (filter (fun '(c0, c1, c2) => value_eqb (VStr c1) (VStr "personal")) rows) in
          let business_ids :=
            map (fun '(c0, c1, c2) => c0)
                (filter (fun '(c0, c1, c2) => value_eqb (VStr c1) (VStr "business")) rows) in
          let active_ids :=
            map (fun '(c0, c1, c2) => c0)
                (filter (fun '(c0, c1, c2) => c2) rows) in
          let w1 := World.set_faker fk (World.set_db d w) in
          let w2 := World.register "customer_ids" (IDRegistry.Ids all_ids) w1 in
          let w3 := World.register "personal_customer_ids" (IDRegistry.Ids personal_ids) w2 in
          let w4 := World.register "business_customer_ids" (IDRegistry.Ids business_ids) w3 in
          let w5 := World.register "active_customer_ids" (IDRegistry.Ids active_ids) w4 in
          Ok (all_ids, w5)
      end
  | Raise e => Raise e
  | OutOfFuel => OutOfFuel
  end.

(** The records the stage hands to [bulk_insert]. *)
Definition generated_records (fk : F) : outcome (list Customer.t) :=
  match build_records (default_rng (SEED cfg), (fk, [])) with
  | Ok (_, (_, (_, records))) => Ok records
  | Raise e => Raise e
  | OutOfFuel => OutOfFuel
  end.

End Stage.

(** The identity fields of each kind of customer. *)
Definition personal_fields_null (c : Customer.t) : Prop :=
  Customer.title c = None /\ Customer.first_name c = None
  /\ Customer.last_name c = None /\ Customer.date_of_birth c = None
  /\ Customer.gender c = None /\ Customer.nationality c = None
  /\ Customer.ni_number c = None.

Definition business_fields_null (c : Customer.t) : Prop :=
  Customer.company_name c = None /\ Customer.company_reg_number c = None
  /\ Customer.sic_code c = None.

(** A customer is of exactly one kind and carries none of the
    identity fields of the other kind. *)
Definition variant_exclusive (c : Customer.t) : Prop :=
  (Customer.type c = "personal" /\ business_fields_null c)
  \/ (Customer.type c = "business" /\ personal_fields_null c).

(** Fields of a customer that go together: an active customer has no
    closing date and a closed one has; a personal customer has a
    verification date exactly when the KYC status is verified, a title
    that fits the gender, and a full name made of title, first and last
    name; a business customer always has a verification date, the
    company name as full name, and neither the KYC statuses nor the risk
    ratings kept for persons. *)
Definition fields_consistent (c : Customer.t) : Prop :=
  (Customer.is_active c = true <-> Customer.closed_date c = None)
  /\ (Customer.type c = "personal" ->
      (Customer.kyc_verified_date c <> None <-> Customer.kyc_status c = "verified")
      /\ In (Customer.kyc_status c)
            ["verified"; "enhanced_due_diligence"; "pending"; "expired"]
      /\ In (Customer.risk_rating c)
            ["low"; "standard"; "medium"; "high"; "pep"; "sanctioned"]
      /\ exists title first last,
           Customer.title c = Some title
           /\ Customer.first_name c = Some first
           /\ Customer.last_name c = Some last
           /\ Customer.full_name c = title ++ " " ++ first ++ " " ++ last
           /\ ((Customer.gender c = Some "male" /\ In title ["Mr"; "Dr"])
               \/ (Customer.gender c = Some "female"
                   /\ In title ["Ms"; "Mrs"; "Miss"; "Dr"])))
  /\ (Customer.type c = "business" ->
      Customer.kyc_verified_date c <> None
      /\ In (Customer.kyc_status c) ["verified"; "enhanced_due_diligence"]
      /\ In (Customer.risk_rating c) ["low"; "standard"; "medium"; "high"]
      /\ Customer.company_name c = Some (Customer.full_name c)).

(** The reference and the kind of the customers of a run, in the
    order they are generated. *)
Definition expected_refs (cfg : Config.t) : list (string * string) :=
  List.app
    (map (fun i => ("MCB-" ++ str_of_Z (10000001 + i), "personal"))
         (range (n_personal cfg)))
    (map (fun i => ("MCB-" ++ str_of_Z (10000001 + n_personal cfg + i), "business"))
         (range (n_business cfg))).

(** The ids the stage has registered under a type, if they are ids. *)
Definition registered_ids {F : Type} (w : World.t F) (entity_type : string)
  : option (list Z) :=
  match IDRegistry.get_ids (World.registry w) entity_type with
  | Ok (IDRegistry.Ids l) => Some l
  | _ => None
  end.

(** The ids of the persisted customers that satisfy [p]. *)
Definition customer_ids_where (p : Customer.t -> bool) (d : Store.database) : list Z :=
  map fst (filter (fun r => p (snd r)) (Store.order_by_key (Store.rows (Store.customers d)))).

End GenerateCustomers.

(* ------------------------------------------------------------------ *)
(** ** Reasoning about stage code: postconditions                      *)
(* ------------------------------------------------------------------ *)

Module Logic.
Import Monad.

(** [wp m Q s]: if [m] run from [s] returns, its result and final
    state satisfy [Q]. *)
Definition wp {S A : Type} (m : M S A) (Q : A -> S -> Prop) (s : S) : Prop :=
  forall a s', m s = Ok (a, s') -> Q a s'.

(** [m] changes nothing of what [proj] shows of the state. *)
Definition preserves {S A X : Type} (proj : S -> X) (m : M S A) : Prop :=
  forall s a s', m s = Ok (a, s') -> proj s' = proj s.

(** [post I R m]: [m] keeps the state invariant [I] and returns a
    result satisfying [R]. *)
Definition post {S A : Type} (I : S -> Prop) (R : A -> Prop) (m : M S A) : Prop :=
  forall s a s', I s -> m s = Ok (a, s') -> I s' /\ R a.

Definition any {A : Type} : A -> Prop := fun _ => True.

(** [total R m]: from every state [m] returns, with a result in [R]. *)
Definition total {S A : Type} (R : A -> Prop) (m : M S A) : Prop :=
  forall s, exists a s', m s = Ok (a, s') /\ R a.

End Logic.

(* ------------------------------------------------------------------ *)
(** ** A small concrete generator and Faker, to run the stages         *)
(* ------------------------------------------------------------------ *)

Module Demo.
Import Numpy Faker.

(** A linear congruential generator standing in for numpy's: it
    respects the ranges of each method and nothing more. *)
Definition next (g : Z) : Z := (g * 1103515245 + 12345) mod 2147483648.
Definition bits (g : Z) : Z := g / 65536.

Fixpoint indices (n : nat) (k : nat) (g : Z) : list nat * Z :=
  match k with
  | O => ([], g)
  | S k' =>
      let g' := next g in
      let (rest, g'') := indices n k' g' in
      (Z.to_nat (bits g' mod Z.of_nat n) :: rest, g'')
  end.

#[export] Instance lcg : Generator Z := {|
  default_rng seed := next (seed mod 2147483648);
  random g := let g' := next g in (g' # 2147483648, g');
  integers lo hi g := let g' := next g in (lo + bits g' mod (hi - lo), g');
  choice_index n p g := let g' := next g in (Z.to_nat (bits g' mod Z.of_nat n), g');
  choice_indices n p k g := indices n k g;
  poisson lam g := let g' := next g in (bits g' mod (2 * Qfloor lam + 1), g');
  lognormal mean sigma g := let g' := next g in ((bits g' mod 100000 + 1) # 100, g');
  normal loc scale g :=
    let g' := next g in ((loc + scale * ((bits g' mod 4001 - 2000) # 1000))%Q, g');
|}.

(** A Faker whose state is a counter and whose providers number
    their answers. *)
Definition numbered (label : string) (k : Z) : string * Z :=
  (label ++ str_of_Z k, k + 1).

#[export] Instance counter_faker : Provider Z := {|
  seed s := 0;
  first_name_male := numbered "John";
  first_name_female := numbered "Jane";
  last_name := numbered "Smith";
  free_email_domain := numbered "example.org";
  phone_number := numbered "07700 900";
  company := numbered "Acme & Sons, Ltd ";
|}.

Definition config : Config.t := {|
  Config.SEED := 42;
  Config.CUSTOMER_COUNT := 4;
  Config.PERSONAL_RATIO := 1 # 2;
  Config.ACTIVE_ACCOUNT_RATIO := 85 # 100;
  Config.ARREARS_RATIO := 3 # 100;
  Config.TXN_DATE_START := Date.make 2024 7 1;
  Config.TXN_DATE_END := Date.make 2024 7 7;
  Config.AVG_TXN_PER_ACCOUNT_MONTH := 1 # 3;
  Config.ZERO_AMOUNT_TXNS := 2;
  Config.ORPHANED_ACCOUNTS := 2;
  Config.GL_IMBALANCE_BATCH := "BATCH-IMBALANCE-001";
|}.

(** The same with no customer asked for. *)
Definition no_customers : Config.t := {|
  Config.SEED := 42;
  Config.CUSTOMER_COUNT := 0;
  Config.PERSONAL_RATIO := 1 # 2;
  Config.ACTIVE_ACCOUNT_RATIO := 85 # 100;
  Config.ARREARS_RATIO := 3 # 100;
  Config.TXN_DATE_START := Date.make 2024 7 1;
  Config.TXN_DATE_END := Date.make 2024 7 7;
  Config.AVG_TXN_PER_ACCOUNT_MONTH := 1 # 3;
  Config.ZERO_AMOUNT_TXNS := 2;
  Config.ORPHANED_ACCOUNTS := 2;
  Config.GL_IMBALANCE_BATCH := "BATCH-IMBALANCE-001";
|}.

(** The same with another customer count and ratio. *)
Definition sized (customer_count : Z) (personal_ratio : Q) : Config.t := {|
  Config.SEED := 42;
  Config.CUSTOMER_COUNT := customer_count;
  Config.PERSONAL_RATIO := personal_ratio;
  Config.ACTIVE_ACCOUNT_RATIO := 85 # 100;
  Config.ARREARS_RATIO := 3 # 100;
  Config.TXN_DATE_START := Date.make 2024 7 1;
  Config.TXN_DATE_END := Date.make 2024 7 7;
  Config.AVG_TXN_PER_ACCOUNT_MONTH := 1 # 3;
  Config.ZERO_AMOUNT_TXNS := 2;
  Config.ORPHANED_ACCOUNTS := 2;
  Config.GL_IMBALANCE_BATCH := "BATCH-IMBALANCE-001";
|}.

Definition empty_table {R : Type} : Store.table R := Store.mkTable 1 [].

(** The database after the reference-data stage, cut down to a few
    products and cost centres. *)
Definition reference_db : Store.database := {|
  Store.products :=
    [(1, "current_account"); (4, "savings"); (9, "personal_loan");
     (11, "mortgage"); (15, "credit_card"); (17, "business_current");
     (19, "business_loan"); (21, "business_savings")];
  Store.customers := empty_table;
  Store.accounts := empty_table;
  Store.accounts_customer_id_fkey := true;
  Store.transactions := empty_table;
  Store.cost_centres := ["CC-RET"; "CC-FIN"];
  Store.gl_entries := empty_table;
|}.

Definition fresh_world : World.t Z :=
  {| World.registry := IDRegistry.init; World.db := reference_db; World.faker := 0 |}.

(** The same before any cost centre is loaded. *)
Definition no_cost_centres : World.t Z :=
  {| World.registry := IDRegistry.init;
     World.db := {|
       Store.products := Store.products reference_db;
       Store.customers := empty_table;
       Store.accounts := empty_table;
       Store.accounts_customer_id_fkey := true;
       Store.transactions := empty_table;
       Store.cost_centres := [];
       Store.gl_entries := empty_table;
     |};
     World.faker := 0 |}.

End Demo.

(* ------------------------------------------------------------------ *)
(** ** Stage: accounts ([generators/generate_accounts.py])             *)
(* ------------------------------------------------------------------ *)

Module GenerateAccounts.
Import Monad Numpy Sampling Config.
Local Open Scope monad_scope.

(** [products_by_cat.setdefault(cat, []).append(pid)] *)
Fixpoint group_add (d : list (string * list Z)) (cat : string) (pid : Z)
  : list (string * list Z) :=
  match d with
  | [] => [(cat, [pid])]
  | (c, pids) :: rest =>
      if String.eqb cat c then (c, (pids ++ [pid])%list) :: rest
      else (c, pids) :: group_add rest cat pid
  end.

Definition group_products (products : list (Z * string)) : list (string * list Z) :=
  fold_left (fun d p => group_add d (snd p) (fst p)) products [].

Fixpoint dict_get (d : list (string * list Z)) (cat : string) : option (list Z) :=
  match d with
  | [] => None
  | (c, pids) :: rest => if String.eqb cat c then Some pids else dict_get rest cat
  end.

(** [a.max()] on an array of ints. *)
Definition array_max (a : list Z) : option Z :=
  match a with
  | [] => None
  | x :: rest => Some (fold_left Z.max rest x)
  end.

(** Rows of [SELECT account_id, customer_id, product_id, status ...]. *)
Definition account_row : Type := (Z * Z * Z * string)%type.

(** [SELECT account_id, customer_id, product_id, status
     FROM core_banking.accounts ORDER BY account_id] *)
Definition select_accounts (d : Store.database) : list account_row :=
  map (fun r => (fst r, Account.customer_id (snd r), Account.product_id (snd r),
                 Account.status (snd r)))
      (Store.order_by_key (Store.rows (Store.accounts d))).

Definition with_accounts (d : Store.database) (fk : bool) (t : Store.table Account.t)
  : Store.database :=
  {| Store.products := Store.products d;
     Store.customers := Store.customers d;
     Store.accounts := t;
     Store.accounts_customer_id_fkey := fk;
     Store.transactions := Store.transactions d;
     Store.cost_centres := Store.cost_centres d;
     Store.gl_entries := Store.gl_entries d |}.

(** [ALTER TABLE core_banking.accounts DROP CONSTRAINT IF EXISTS
     accounts_customer_id_fkey] *)
Definition drop_fkey (d : Store.database) : Store.database :=
  with_accounts d false (Store.accounts d).

(** [ALTER TABLE core_banking.accounts ADD CONSTRAINT
     accounts_customer_id_fkey ... NOT VALID]: declared, existing rows
    are not checked. *)
Definition add_fkey_not_valid (d : Store.database) : Store.database :=
  with_accounts d true (Store.accounts d).

Definition customer_ids (d : Store.database) : list Z :=
  map fst (Store.rows (Store.customers d)).

Definition resolves (d : Store.database) (r : Account.t) : bool :=
  existsb (Z.eqb (Account.customer_id r)) (customer_ids d).

(** [bulk_insert('core_banking.accounts', records, cols)]: while the
    foreign key is declared, the store refuses a record whose customer
    does not exist. *)
Definition insert_accounts (d : Store.database) (records : list Account.t)
  : outcome Store.database :=
  if (Store.accounts_customer_id_fkey d && negb (forallb (resolves d) records))%bool
  then Raise (IntegrityError "violates foreign key constraint accounts_customer_id_fkey")
  else Ok (with_accounts d (Store.accounts_customer_id_fkey d)
                         (Store.bulk_insert (Store.accounts d) records)).

Section Stage.
Context {G : Type} {gen : Generator G}.
Variable cfg : Config.t.

(** How often one [make_unique_account] call may draw again. *)
Variable fuel : nat.

(** Next to [rng]: [records] and [used_account_numbers]. *)
Definition local : Type := (list Account.t * list string)%type.
Definition stage : Type -> Type := M (G * local).

(** [records.append(r)] *)
Definition append (r : Account.t) : stage unit :=
  modify_local (fun l => ((fst l ++ [r])%list, snd l)).

(** [make_unique_account]: draw until the pair is new. *)
Fixpoint make_unique_account (n : nat) : stage (string * string) :=
  match n with
  | O => fun _ => OutOfFuel
  | S n' =>
      sc <- generate_sort_code ;;
      an <- generate_account_number ;;
      let key := an ++ "-" ++ sc in
      l <- get_local ;;
      if existsb (String.eqb key) (snd l)
      then make_unique_account n'
      else (modify_local (fun l => (fst l, key :: snd l)) ;; ret (an, sc))
  end.

(** [products_by_cat[cat]] *)
Definition products_of (products_by_cat : list (string * list Z)) (cat : string)
  : stage (list Z) :=
  match dict_get products_by_cat cat with
  | Some pids => ret pids
  | None => raise (KeyError (repr_str cat))
  end.

(** [_make_account] *)
Definition _make_account (customer_id product_id : Z) (account_number sort_code : string)
           (status : string) (opened_date : Date.t) : stage Account.t :=
  let opened_date :=
    if Date.make 2024 12 31 <? opened_date then Date.make 2024 12 31 else opened_date in
  closed_date <-
    (if String.eqb status "closed"
     then (d <- rng_integers 90 2000 ;; ret (Some (Date.isoformat (opened_date + d))))
     else ret None) ;;
  credit_limit <-
    (if ((15 <=? product_id) && (product_id <? 17))%bool
     then (c <- rng_choice [1000; 2000; 3000; 5000; 7500; 10000; 15000] None ;;
           ret (Some (inject_Z c)))
     else ret None) ;;
  u <- rng_random ;;
  overdraft_limit <-
    (if Qltb u (3#10)
     then (c <- rng_choice [250; 500; 1000; 1500; 2000; 3000] None ;;
           ret (Some (inject_Z c)))
     else ret None) ;;
  ret {|
    Account.customer_id := customer_id;
    Account.product_id := product_id;
    Account.account_number := account_number;
    Account.sort_code := sort_code;
    Account.account_name := None;
    Account.status := status;
    Account.currency := "GBP";
    Account.credit_limit := credit_limit;
    Account.overdraft_limit := overdraft_limit;
    Account.opened_date := Date.isoformat opened_date;
    Account.closed_date := closed_date;
    Account.last_transaction_date := None;
  |}.

(** [date(2015, 1, 1) + timedelta(days=int(onboarded_offset))], capped. *)
Definition draw_base_date : stage Date.t :=
  onboarded_offset <- rng_integers 0 3650 ;;
  let base_date := Date.make 2015 1 1 + onboarded_offset in
  ret (if Date.make 2024 12 31 <? base_date then Date.make 2024 12 31 else base_date).

(** Body of the loop over [personal_ids]. *)
Definition personal_accounts (products_by_cat : list (string * list Z)) (cid : Z)
  : stage unit :=
  base_date <- draw_base_date ;;
  (* current account (always) *)
  '(an, sc) <- make_unique_account fuel ;;
  u <- rng_random ;;
  status <-
    (if Qltb u (ACTIVE_ACCOUNT_RATIO cfg) then ret "active"
     else rng_choice ["dormant"; "closed"] None) ;;
  pids <- products_of products_by_cat "current_account" ;;
  pid <- rng_choice pids None ;;
  r <- _make_account cid pid an sc status base_date ;;
  append r ;;
  (* savings (60%) *)
  u <- rng_random ;;
  when (Qltb u (60#100))
    ('(an, sc) <- make_unique_account fuel ;;
     cat <- rng_choice ["savings"; "savings"; "savings"] None ;;
     pids <- products_of products_by_cat "savings" ;;
     pid <- rng_choice pids None ;;
     d <- rng_integers 0 365 ;;
     r <- _make_account cid pid an sc "active" (base_date + d) ;;
     append r) ;;
  (* loan or mortgage (20%) *)
  u <- rng_random ;;
  when (Qltb u (20#100))
    ('(an, sc) <- make_unique_account fuel ;;
     cat <- rng_choice ["personal_loan"; "mortgage"] (Some [6#10; 4#10]%Q) ;;
     u <- rng_random ;;
     status <-
       (if Qltb u (ARREARS_RATIO cfg)
        then rng_choice ["in_arrears"; "default"] (Some [8#10; 2#10]%Q)
        else ret "active") ;;
     pids <- products_of products_by_cat cat ;;
     pid <- rng_choice pids None ;;
     d <- rng_integers 30 1000 ;;
     r <- _make_account cid pid an sc status (base_date + d) ;;
     append r) ;;
  (* credit card (30%) *)
  u <- rng_random ;;
  when (Qltb u (30#100))
    ('(an, sc) <- make_unique_account fuel ;;
     pids <- products_of products_by_cat "credit_card" ;;
     pid <- rng_choice pids None ;;
     d <- rng_integers 0 730 ;;
     r <- _make_account cid pid an sc "active" (base_date + d) ;;
     append r).

(** Body of the loop over [business_ids]. *)
Definition business_accounts (products_by_cat : list (string * list Z)) (cid : Z)
  : stage unit :=
  base_date <- draw_base_date ;;
  (* business current (always) *)
  '(an, sc) <- make_unique_account fuel ;;
  pids <- products_of products_by_cat "business_current" ;;
  pid <- rng_choice pids None ;;
  r <- _make_account cid pid an sc "active" base_date ;;
  append r ;;
  (* business savings (50%) *)
  u <- rng_random ;;
  when (Qltb u (50#100))
    ('(an, sc) <- make_unique_account fuel ;;
     pids <- products_of products_by_cat "business_savings" ;;
     pid <- rng_choice pids None ;;
     d <- rng_integers 0 365 ;;
     r <- _make_account cid pid an sc "active" (base_date + d) ;;
     append r) ;;
  (* business loan (30%) *)
  u <- rng_random ;;
  when (Qltb u (30#100))
    ('(an, sc) <- make_unique_account fuel ;;
     u <- rng_random ;;
     let status := if Qltb u (ARREARS_RATIO cfg) then "in_arrears" else "active" in
     pids <- products_of products_by_cat "business_loan" ;;
     pid <- rng_choice pids None ;;
     d <- rng_integers 30 730 ;;
     r <- _make_account cid pid an sc status (base_date + d) ;;
     append r).

(** Body of the loop over [range(ORPHANED_ACCOUNTS)]. *)
Definition orphaned_account (products_by_cat : list (string * list Z))
           (max_customer_id : Z) (i : Z) : stage unit :=
  '(an, sc) <- make_unique_account fuel ;;
  let fake_cid := max_customer_id + 1000 + i in
  pids <- products_of products_by_cat "current_account" ;;
  pid <- rng_choice pids None ;;
  append {|
    Account.customer_id := fake_cid;
    Account.product_id := pid;
    Account.account_number := an;
    Account.sort_code := sc;
    Account.account_name := Some ("Orphaned Account " ++ str_of_Z (i + 1));
    Account.status := "active";
    Account.currency := "GBP";
    Account.credit_limit := None;
    Account.overdraft_limit := None;
    Account.opened_date := "2023-06-15";
    Account.closed_date := None;
    Account.last_transaction_date := None;
  |}.

(** [int(max(personal_ids.max(), business_ids.max()))] *)
Definition max_customer_id_of (personal_ids business_ids : list Z) : stage Z :=
  match array_max personal_ids, array_max business_ids with
  | Some p, Some b => ret (Z.max p b)
  | _, _ =>
      raise (ValueError
        "zero-size array to reduction operation maximum which has no identity")
  end.

(** The three generation loops. *)
Definition build_records (products_by_cat : list (string * list Z))
           (personal_ids business_ids : list Z) : stage unit :=
  for_each personal_ids (personal_accounts products_by_cat) ;;
  for_each business_ids (business_accounts products_by_cat) ;;
  max_customer_id <- max_customer_id_of personal_ids business_ids ;;
  for_each (range (ORPHANED_ACCOUNTS cfg)) (orphaned_account products_by_cat max_customer_id).

(** [registry.get_ids(k)] for a key holding ids. *)
Definition get_id_list (r : IDRegistry.t) (k : string) : outcome (list Z) :=
  match IDRegistry.get_ids r k with
  | Ok (IDRegistry.Ids l) => Ok l
  | Ok (IDRegistry.Maps _) => Raise (TypeError "int() argument must be a number")
  | Raise e => Raise e
  | OutOfFuel => OutOfFuel
  end.

(** The records the stage hands to [bulk_insert]. *)
Definition generated_records (d : Store.database) (personal_ids business_ids : list Z)
  : outcome (list Account.t) :=
  match build_records (group_products (Store.products d)) personal_ids business_ids
          (default_rng (SEED cfg + 10), ([], [])) with
  | Ok (_, (_, (records, _))) => Ok records
  | Raise e => Raise e
  | OutOfFuel => OutOfFuel
  end.

(** What the stage registers, from the rows read back. *)
Definition register_accounts {F : Type} (rows : list account_row) (w : World.t F)
  : World.t F :=
  let all_ids := map (fun '(c0, c1, c2, c3) => c0) rows in
  let active_ids :=
    map (fun '(c0, c1, c2, c3) => c0)
        (filter (fun '(c0, c1, c2, c3) =>
                   py_in (VInt c1) [VStr "active"; VStr "in_arrears"]) rows) in
  let account_customer_map := map (fun '(c0, c1, c2, c3) => (c0, c1)) rows in
  let w1 := World.register "account_ids" (IDRegistry.Ids all_ids) w in
  let w2 := World.register "active_account_ids" (IDRegistry.Ids active_ids) w1 in
  World.register "account_customer_map" (IDRegistry.Maps [account_customer_map]) w2.

(** [generate_accounts]: returns [all_ids]. *)
Definition generate_accounts {F : Type} (w : World.t F) : outcome (list Z * World.t F) :=
  match get_id_list (World.registry w) "personal_customer_ids" with
  | Ok personal_ids =>
      match get_id_list (World.registry w) "business_customer_ids" with
      | Ok business_ids =>
          match generated_records (World.db w) personal_ids business_ids with
          | Ok records =>
              match insert_accounts (drop_fkey (World.db w)) records with
              | Ok d =>
                  let d := add_fkey_not_valid d in
                  let rows := select_accounts d in
                  Ok (map (fun '(c0, c1, c2, c3) => c0) rows,
                      register_accounts rows (World.set_db d w))
              | Raise e => Raise e
              | OutOfFuel => OutOfFuel
              end
          | Raise e => Raise e
          | OutOfFuel => OutOfFuel
          end
      | Raise e => Raise e
      | OutOfFuel => OutOfFuel
      end
  | Raise e => Raise e
  | OutOfFuel => OutOfFuel
  end.

End Stage.

(** The ids the specification wants under ['active_account_ids']:
    those of the accounts whose status is active or in_arrears. *)
Definition active_or_in_arrears (d : Store.database) : list Z :=
  map fst
      (filter (fun r => (String.eqb (Account.status (snd r)) "active"
                         || String.eqb (Account.status (snd r)) "in_arrears")%bool)
              (Store.order_by_key (Store.rows (Store.accounts d)))).

(** The check of [tests/test_referential_integrity.py], on a list of
    account records: how many have no customer. *)
Definition dangling (d : Store.database) (records : list Account.t) : list Account.t :=
  filter (fun r => negb (resolves d r)) records.

(** The database the stage leaves behind, given the records it built. *)
Definition database_after (d : Store.database) (records : list Account.t) : Store.database :=
  add_fkey_not_valid
    (with_accounts (drop_fkey d) false
       (Store.bulk_insert (Store.accounts d) records)).

(** The key [make_unique_account] keeps account numbers apart by. *)
Definition account_key (r : Account.t) : string :=
  Account.account_number r ++ "-" ++ Account.sort_code r.

(** Fields of an account that go together: a closing date exactly
    for a closed account, a status the stage knows, a credit limit only
    on the products numbered 15 and 16, limits among those listed. *)
Definition account_consistent (r : Account.t) : Prop :=
  (Account.closed_date r <> None <-> Account.status r = "closed")
  /\ In (Account.status r) ["active"; "dormant"; "closed"; "in_arrears"; "default"]
  /\ (Account.credit_limit r <> None -> 15 <= Account.product_id r < 17)
  /\ (forall x, Account.credit_limit r = Some x ->
                In x (map inject_Z [1000; 2000; 3000; 5000; 7500; 10000; 15000]))
  /\ (forall x, Account.overdraft_limit r = Some x ->
                In x (map inject_Z [250; 500; 1000; 1500; 2000; 3000]))
  /\ Account.currency r = "GBP"
  /\ Account.last_transaction_date r = None.

(** What [_make_account] returns for its arguments. *)
Definition made (cid pid : Z) (an sc st : string) (r : Account.t) : Prop :=
  Account.customer_id r = cid
  /\ Account.product_id r = pid
  /\ Account.account_number r = an
  /\ Account.sort_code r = sc
  /\ Account.status r = st
  /\ Account.account_name r = None
  /\ (15 <= pid < 17 -> Account.credit_limit r <> None)
  /\ (In st ["active"; "dormant"; "closed"; "in_arrears"; "default"] ->
      account_consistent r).

(** The records so far have different keys, all of them marked as
    used. *)
Definition unique (l : local) : Prop :=
  NoDup (map account_key (fst l))
  /\ (forall r, In r (fst l) -> In (account_key r) (snd l))
  /\ Forall account_consistent (fst l).

(** The same while an account number drawn for the next record is
    waiting to be used. *)
Definition pending (an sc : string) (l : local) : Prop :=
  unique l
  /\ ~ In (an ++ "-" ++ sc) (map account_key (fst l))
  /\ In (an ++ "-" ++ sc) (snd l).

(** The registry agrees with the customers table: the ids registered
    for personal and for business customers are, together, the ids of
    the persisted customers. This is what the customers stage leaves
    behind. *)
Definition registry_consistent {F : Type} (w : World.t F) : Prop :=
  forall personal_ids business_ids,
    get_id_list (World.registry w) "personal_customer_ids" = Ok personal_ids ->
    get_id_list (World.registry w) "business_customer_ids" = Ok business_ids ->
    forall c, In c (customer_ids (World.db w)) <-> In c personal_ids \/ In c business_ids.

(** The same as a check that can be run. *)
Definition registry_consistentb {F : Type} (w : World.t F) : bool :=
  match get_id_list (World.registry w) "personal_customer_ids",
        get_id_list (World.registry w) "business_customer_ids" with
  | Ok personal_ids, Ok business_ids =>
      (forallb (fun c => existsb (Z.eqb c) personal_ids || existsb (Z.eqb c) business_ids)
               (customer_ids (World.db w))
       && forallb (fun c => existsb (Z.eqb c) (customer_ids (World.db w)))
                  (personal_ids ++ business_ids)%list)%bool
  | _, _ => true
  end.

End GenerateAccounts.

Module DemoRun.
Import GenerateCustomers GenerateAccounts.

Definition after_customers : World.t Z :=
  match generate_customers (gen := Demo.lcg) (prov := Demo.counter_faker)
          Demo.config Demo.fresh_world with
  | Ok (_, w) => w
  | _ => Demo.fresh_world
  end.

Definition after_accounts : World.t Z :=
  match generate_accounts (gen := Demo.lcg) Demo.config 10 after_customers with
  | Ok (_, w) => w
  | _ => after_customers
  end.

End DemoRun.

(* ------------------------------------------------------------------ *)
(** ** Stage: transactions ([generators/generate_transactions.py])     *)
(* ------------------------------------------------------------------ *)

Module GenerateTransactions.
Import Monad Numpy Sampling Config.
Local Open Scope monad_scope.

(** Transaction type distributions by account category. *)
Definition TXN_TYPE_WEIGHTS : list (string * (list string * list Q)) :=
  [("current_account",
    (["direct_debit"; "standing_order"; "faster_payment"; "card_payment";
      "atm_withdrawal"; "salary"; "transfer_out"; "transfer_in"; "bacs"; "fee"],
     [15#100; 8#100; 20#100; 25#100; 5#100; 8#100; 5#100; 5#100; 7#100; 2#100]%Q));
   ("savings",
    (["transfer_in"; "transfer_out"; "interest"; "faster_payment"],
     [40#100; 35#100; 15#100; 10#100]%Q));
   ("personal_loan",
    (["loan_repayment"; "interest"; "fee"], [70#100; 20#100; 10#100]%Q));
   ("mortgage",
    (["mortgage_payment"; "interest"; "fee"], [70#100; 20#100; 10#100]%Q));
   ("credit_card",
    (["card_payment"; "faster_payment"; "interest"; "fee"; "transfer_in"],
     [55#100; 10#100; 15#100; 5#100; 15#100]%Q));
   ("business_current",
    (["direct_debit"; "faster_payment"; "bacs"; "chaps"; "card_payment";
      "salary"; "transfer_out"; "transfer_in"; "fee"],
     [12#100; 20#100; 15#100; 5#100; 15#100; 10#100; 8#100; 10#100; 5#100]%Q));
   ("business_loan",
    (["loan_repayment"; "interest"; "fee"], [70#100; 20#100; 10#100]%Q));
   ("business_savings",
    (["transfer_in"; "transfer_out"; "interest"], [45#100; 40#100; 15#100]%Q))].

(** Amount distributions by transaction type: (mean, std) of the
    lognormal. *)
Definition AMOUNT_PARAMS : list (string * (Q * Q)) :=
  [("direct_debit", (4, 8#10)); ("standing_order", (5, 5#10));
   ("faster_payment", (45#10, 1)); ("card_payment", (3, 9#10));
   ("atm_withdrawal", (33#10, 3#10)); ("salary", (75#10, 4#10));
   ("transfer_out", (5, 12#10)); ("transfer_in", (5, 12#10));
   ("bacs", (55#10, 1)); ("chaps", (9, 15#10));
   ("interest", (2, 1)); ("fee", (15#10, 5#10));
   ("loan_repayment", (58#10, 3#10)); ("mortgage_payment", (67#10, 3#10))]%Q.

Definition CHANNELS : list string :=
  ["online"; "mobile"; "branch"; "atm"; "phone"; "api"; "batch"].
Definition CHANNEL_WEIGHTS : list Q :=
  [25#100; 35#100; 5#100; 5#100; 3#100; 12#100; 15#100]%Q.

(** [d.get(k, default)] *)
Fixpoint dict_get_default {V : Type} (d : list (string * V)) (k : string) (default : V) : V :=
  match d with
  | [] => default
  | (k', v) :: rest => if String.eqb k k' then v else dict_get_default rest k default
  end.

(** [x in (a, b, ...)] for strings. *)
Definition str_in (x : string) (xs : list string) : bool := existsb (String.eqb x) xs.

(** [sorted(xs)] on dates. *)
Fixpoint insert_sorted (x : Z) (l : list Z) : list Z :=
  match l with
  | [] => [x]
  | y :: rest => if x <=? y then x :: l else y :: insert_sorted x rest
  end.

Definition sorted (l : list Z) : list Z := fold_right insert_sorted [] l.

(** Rows of the query over accounts, products and customers:
    [(account_id, customer_id, status, category, customer_type)]. *)
Definition active_account_row : Type := (Z * Z * string * string * option string)%type.

(** [SELECT a.account_id, a.customer_id, a.status, p.category, c.type
     FROM accounts a JOIN products p ON a.product_id = p.product_id
     LEFT JOIN customers c ON a.customer_id = c.customer_id
     WHERE a.status IN ('active', 'in_arrears') ORDER BY a.account_id] *)
Definition select_active_accounts (d : Store.database) : list active_account_row :=
  flat_map
    (fun a =>
       if str_in (Account.status (snd a)) ["active"; "in_arrears"]
       then
         flat_map
           (fun p =>
              if fst p =? Account.product_id (snd a)
              then
                match filter (fun c => fst c =? Account.customer_id (snd a))
                             (Store.rows (Store.customers d)) with
                | [] => [(fst a, Account.customer_id (snd a), Account.status (snd a),
                          snd p, None)]
                | cs => map (fun c => (fst a, Account.customer_id (snd a),
                                       Account.status (snd a), snd p,
                                       Some (Customer.type (snd c)))) cs
                end
              else [])
           (Store.products d)
       else [])
    (Store.order_by_key (Store.rows (Store.accounts d))).

(** What the stage prints when it is done. *)
Record report : Type := {
  count : Z;
  zero_amount_issues : Z;
}.

Section Stage.
Context {G : Type} {gen : Generator G}.
Variable cfg : Config.t.

(** Next to [rng]: the records not yet written, the transactions
    table, and the two counters. *)
Record local : Type := mkLocal {
  all_records : list Transaction.t;
  table : Store.table Transaction.t;
  total_txns : Z;
  zero_amount_inserted : Z;
}.

Definition stage : Type -> Type := M (G * local).

(** [all_records.append(r)] *)
Definition append (r : Transaction.t) : stage unit :=
  modify_local (fun l => {| all_records := (all_records l ++ [r])%list;
                            table := table l;
                            total_txns := total_txns l;
                            zero_amount_inserted := zero_amount_inserted l |}).

(** [_insert_txn_batch(all_records); all_records = []] *)
Definition flush : stage unit :=
  modify_local (fun l => {| all_records := [];
                            table := Store.bulk_insert (table l) (all_records l);
                            total_txns := total_txns l;
                            zero_amount_inserted := zero_amount_inserted l |}).

(** [total_txns += 1] *)
Definition count_txn : stage unit :=
  modify_local (fun l => {| all_records := all_records l;
                            table := table l;
                            total_txns := total_txns l + 1;
                            zero_amount_inserted := zero_amount_inserted l |}).

(** [zero_amount_inserted += 1] *)
Definition count_zero : stage unit :=
  modify_local (fun l => {| all_records := all_records l;
                            table := table l;
                            total_txns := total_txns l;
                            zero_amount_inserted := zero_amount_inserted l + 1 |}).

(** [xs[i]] *)
Definition item {A : Type} (xs : list A) (i : Z) : stage A :=
  match nth_error xs (Z.to_nat i) with
  | Some x => ret x
  | None => raise (IndexError "index out of bounds")
  end.

(** The amount of one transaction, lines 137 to 155 of the source. *)
Definition draw_amount (txn_type : string) : stage Q :=
  let '(mean, std) := dict_get_default AMOUNT_PARAMS txn_type (4, 8#10)%Q in
  x <- rng_lognormal mean std ;;
  let amount := round2 x in
  let amount := Qmin amount 500000 in
  (* ATM: round to 10 *)
  let amount :=
    if String.eqb txn_type "atm_withdrawal"
    then
      let amount := round (amount / 10) * 10 in
      inject_Z (Z.max 10 (Z.min amount 500))
    else amount in
  (* intentional zero amount *)
  l <- get_local ;;
  amount <-
    (if zero_amount_inserted l <? ZERO_AMOUNT_TXNS cfg
     then (u <- rng_random ;;
           if Qltb u (1#10000) then (count_zero ;; ret 0%Q) else ret amount)
     else ret amount) ;;
  (* sign: debits are negative *)
  let is_credit := str_in txn_type ["salary"; "transfer_in"; "interest"] in
  ret (if negb is_credit then (- amount)%Q else amount).

(** The channel of one transaction. *)
Definition draw_channel (txn_type : string) : stage string :=
  if str_in txn_type ["direct_debit"; "standing_order"; "bacs"; "interest"; "fee"]
  then ret "batch"
  else if String.eqb txn_type "atm_withdrawal" then ret "atm"
  else if str_in txn_type ["card_payment"]
  then rng_choice ["mobile"; "online"; "branch"] (Some [4#10; 3#10; 3#10]%Q)
  else if String.eqb txn_type "salary"
  then (u <- rng_random ;; ret (if Qltb (5#10) u then "api" else "batch"))
  else if str_in txn_type ["chaps"] then ret "api"
  else rng_choice CHANNELS (Some CHANNEL_WEIGHTS).

(** Body of the loop over [range(n_txns)]. *)
Definition transaction (account_id : Z) (is_business : bool)
           (txn_types : list string) (txn_dates : list Date.t) (i : Z) : stage unit :=
  txn_type <- item txn_types i ;;
  txn_date <- item txn_dates i ;;
  amount <- draw_amount txn_type ;;
  channel <- draw_channel txn_type ;;
  (* timestamp *)
  h <- rng_normal 13 4 ;;
  let hour := int_of_float h in
  let hour := Z.max 0 (Z.min 23 hour) in
  minute <- rng_integers 0 60 ;;
  let txn_ts := Date.datetime_isoformat txn_date hour minute in
  (* status *)
  u <- rng_random ;;
  status_val <-
    (if Qltb u (5#1000) then rng_choice ["failed"; "reversed"; "disputed"] None
     else ret "completed") ;;
  counterparty <- get_counterparty txn_type is_business ;;
  u_acc <- rng_random ;;
  counterparty_account <-
    (if Qltb (3#10) u_acc then (an <- generate_account_number ;; ret (Some an))
     else ret None) ;;
  u_sc <- rng_random ;;
  counterparty_sort_code <-
    (if Qltb (3#10) u_sc then (sc <- generate_sort_code ;; ret (Some sc))
     else ret None) ;;
  ref <- rng_integers 100000 999999 ;;
  append {|
    Transaction.account_id := account_id;
    Transaction.txn_date := Date.isoformat txn_date;
    Transaction.txn_timestamp := txn_ts;
    Transaction.value_date := Date.isoformat txn_date;
    Transaction.amount := amount;
    Transaction.currency := "GBP";
    Transaction.txn_type := txn_type;
    Transaction.description :=
      title (replace_char "_" " " txn_type) ++ " - " ++ counterparty;
    Transaction.counterparty_name := counterparty;
    Transaction.counterparty_account := counterparty_account;
    Transaction.counterparty_sort_code := counterparty_sort_code;
    Transaction.channel := channel;
    Transaction.reference := "REF" ++ str_of_Z ref;
    Transaction.status := status_val;
    Transaction.balance_after := None;
  |} ;;
  count_txn.

(** Body of the loop over [accounts]. *)
Definition account_transactions (dates : list Date.t) (a : active_account_row)
  : stage unit :=
  let '(account_id, customer_id, status, product_cat, c4) := a in
  (* r[4] or 'personal' *)
  let cust_type :=
    match c4 with
    | Some t => if String.eqb t "" then "personal" else t
    | None => "personal"
    end in
  let avg_monthly :=
    if str_in product_cat ["savings"; "business_savings"] then 3%Q
    else if str_in product_cat ["personal_loan"; "mortgage"; "business_loan"] then 2%Q
    else if String.eqb product_cat "credit_card" then 15%Q
    else AVG_TXN_PER_ACCOUNT_MONTH cfg in
  k <- rng_poisson (avg_monthly * 6) ;;
  let n_txns := Z.max 1 k in
  if n_txns =? 0 then ret tt
  else
    let type_config :=
      dict_get_default TXN_TYPE_WEIGHTS product_cat
        (dict_get_default TXN_TYPE_WEIGHTS "current_account" ([], [])) in
    txn_types <- rng_choice_sized (fst type_config) (Z.to_nat n_txns)
                                  (Some (snd type_config)) ;;
    chosen <- rng_choice_sized dates (Z.to_nat n_txns) None ;;
    let txn_dates := sorted chosen in
    let is_business := String.eqb cust_type "business" in
    for_each (range n_txns) (transaction account_id is_business txn_types txn_dates) ;;
    (* batch insert periodically to manage memory *)
    l <- get_local ;;
    when (50000 <=? Z.of_nat (List.length (all_records l))) flush.

(** The loop over the accounts and the insertion of what remains. *)
Definition build_records (accounts : list active_account_row) : stage unit :=
  let n_days := TXN_DATE_END cfg - TXN_DATE_START cfg + 1 in
  let dates := Date.days_from (TXN_DATE_START cfg) n_days in
  for_each accounts (account_transactions dates) ;;
  l <- get_local ;;
  match all_records l with
  | [] => ret tt
  | _ => flush
  end.

Definition with_transactions (d : Store.database) (t : Store.table Transaction.t)
  : Store.database :=
  {| Store.products := Store.products d;
     Store.customers := Store.customers d;
     Store.accounts := Store.accounts d;
     Store.accounts_customer_id_fkey := Store.accounts_customer_id_fkey d;
     Store.transactions := t;
     Store.cost_centres := Store.cost_centres d;
     Store.gl_entries := Store.gl_entries d |}.

Definition initial (d : Store.database) : G * local :=
  (default_rng (SEED cfg + 20),
   {| all_records := [];
      table := Store.transactions d;
      total_txns := 0;
      zero_amount_inserted := 0 |}).

(** What a state has produced so far: the rows of the table, then
    the records not yet written. *)
Definition emitted (s : G * local) : list Transaction.t :=
  (map snd (Store.rows (table (snd s))) ++ all_records (snd s))%list.

Definition zero_count (s : G * local) : Z := zero_amount_inserted (snd s).

Definition view (s : G * local) : list Transaction.t * Z := (emitted s, zero_count s).

(** [generate_transactions]: returns what it prints. *)
Definition generate_transactions {F : Type} (w : World.t F) : outcome (report * World.t F) :=
  let accounts := select_active_accounts (World.db w) in
  match build_records accounts (initial (World.db w)) with
  | Ok (_, (_, l)) =>
      let d := with_transactions (World.db w) (table l) in
      (* SELECT COUNT( * ) FROM core_banking.transactions *)
      let n := Z.of_nat (List.length (Store.rows (Store.transactions d))) in
      Ok ({| count := n; zero_amount_issues := zero_amount_inserted l |},
          World.set_db d w)
  | Raise e => Raise e
  | OutOfFuel => OutOfFuel
  end.

End Stage.

(** [|x|] *)
Definition Qabs_le (x bound : Q) : Prop := (- bound <= x /\ x <= bound)%Q.

(** The ATM rule: a multiple of 10 whose absolute value is within
    [10, 500]. *)
Definition atm_amount_ok (x : Q) : Prop :=
  exists k : Z, (x == inject_Z (10 * k))%Q /\ 10 <= Z.abs (10 * k) <= 500.

(** C3 as the specification words it, for one transaction. *)
Definition amount_as_specified (t : Transaction.t) : Prop :=
  Qabs_le (Transaction.amount t) 500000
  /\ (Transaction.txn_type t = "atm_withdrawal" -> atm_amount_ok (Transaction.amount t)).

(** The amount lines 139 to 145 make of the lognormal draw [x]:
    rounded, capped and, for an ATM withdrawal, rounded to 10 and
    clamped. *)
Definition drawn_amount (txn_type : string) (x : Q) : Q :=
  if String.eqb txn_type "atm_withdrawal"
  then inject_Z (Z.max 10 (Z.min (round (Qmin (round2 x) 500000 / 10) * 10) 500))
  else Qmin (round2 x) 500000.

(** The sign lines 153 to 155 give an amount: debits are negative. *)
Definition signed (txn_type : string) (a : Q) : Q :=
  if negb (str_in txn_type ["salary"; "transfer_in"; "interest"]) then (- a)%Q else a.

(** A transaction, and whether it was picked for the zero-amount
    defect, that is whether lines 149 and 150 ran while it was built.
    Picked, its amount is the 0 of line 149 with the sign of its type;
    not picked, its amount is the one lines 139 to 145 make of a
    lognormal draw with the parameters of its type. *)
Definition injection (G : Type) {gen : Generator G} (t : Transaction.t) (picked : bool)
  : Prop :=
  if picked
  then Transaction.amount t = signed (Transaction.txn_type t) 0
  else
    exists g : G,
      Transaction.amount t
      = signed (Transaction.txn_type t)
          (drawn_amount (Transaction.txn_type t)
             (fst (lognormal
                     (fst (dict_get_default AMOUNT_PARAMS (Transaction.txn_type t) (4, 8#10)%Q))
                     (snd (dict_get_default AMOUNT_PARAMS (Transaction.txn_type t) (4, 8#10)%Q))
                     g))).

Arguments injection G {gen} t picked.

(** The number of transactions picked. *)
Definition picks (picked : list bool) : Z :=
  Z.of_nat (List.length (filter (fun p : bool => p) picked)).

(** C3 as the code has it, for one transaction: an ATM withdrawal
    picked for the zero-amount defect is recorded as 0, any other is a
    multiple of 10 within [10, 500]. *)
Definition amount_as_generated (t : Transaction.t) (picked : bool) : Prop :=
  Qabs_le (Transaction.amount t) 500000
  /\ (Transaction.txn_type t = "atm_withdrawal" ->
      if picked then (Transaction.amount t == 0)%Q
      else atm_amount_ok (Transaction.amount t)).

Definition is_zero_amount (t : Transaction.t) : bool := Qeq_bool (Transaction.amount t) 0.

(** What a run has achieved in a state, [old] being the rows the
    table held before: each transaction emitted since was or was not
    picked for the defect, and the counter is the number of those
    picked, which the target bounds. *)
Definition injecting {G : Type} {gen : Generator G} (cfg : Config.t)
           (old : list Transaction.t) (s : G * local) : Prop :=
  exists new picked,
    emitted s = (old ++ new)%list
    /\ Forall2 (injection G) new picked
    /\ zero_count s = picks picked
    /\ zero_count s <= Z.max 0 (Config.ZERO_AMOUNT_TXNS cfg).

(** The rows a run added to the transactions table. *)
Definition added_rows {F : Type} (w w' : World.t F) : list Transaction.t :=
  skipn (List.length (Store.rows (Store.transactions (World.db w))))
        (map snd (Store.rows (Store.transactions (World.db w')))).

(** An ATM withdrawal recorded with amount zero. *)
Definition zero_atm_withdrawal (t : Transaction.t) : bool :=
  (String.eqb (Transaction.txn_type t) "atm_withdrawal"
   && Qeq_bool (Transaction.amount t) 0)%bool.

(** Credits are not negative, debits not positive. *)
Definition sign_rule (txn_type : string) (a : Q) : Prop :=
  if str_in txn_type ["salary"; "transfer_in"; "interest"] then (0 <= a)%Q else (a <= 0)%Q.

(** The channels a transaction of a type may come through. *)
Definition channel_rule (txn_type channel : string) : Prop :=
  (str_in txn_type ["direct_debit"; "standing_order"; "bacs"; "interest"; "fee"] = true ->
   channel = "batch")
  /\ (txn_type = "atm_withdrawal" -> channel = "atm")
  /\ (txn_type = "card_payment" -> In channel ["mobile"; "online"; "branch"])
  /\ (txn_type = "salary" -> channel = "api" \/ channel = "batch")
  /\ (txn_type = "chaps" -> channel = "api")
  /\ In channel CHANNELS.

(** The transaction types configured for a product category, those
    of a current account standing in for an unknown category. *)
Definition types_of (product_cat : string) : list string :=
  fst (dict_get_default TXN_TYPE_WEIGHTS product_cat
         (dict_get_default TXN_TYPE_WEIGHTS "current_account" ([], []))).

(** What the loop body gives a transaction of an account, the types
    and the dates drawn for the account being [txn_types] and
    [txn_dates]. *)
Definition generated (G : Type) {gen : Generator G} (account_id : Z)
           (txn_types : list string) (txn_dates : list Date.t) (t : Transaction.t) : Prop :=
  Transaction.account_id t = account_id
  /\ In (Transaction.txn_type t) txn_types
  /\ (exists d hour minute,
         In d txn_dates
         /\ 0 <= hour <= 23
         /\ Transaction.txn_date t = Date.isoformat d
         /\ Transaction.value_date t = Date.isoformat d
         /\ Transaction.txn_timestamp t = Date.datetime_isoformat d hour minute)
  /\ channel_rule (Transaction.txn_type t) (Transaction.channel t)
  /\ In (Transaction.status t) ["completed"; "failed"; "reversed"; "disputed"]
  /\ Transaction.currency t = "GBP"
  /\ Transaction.balance_after t = None
  /\ (lognormal_nonneg G -> sign_rule (Transaction.txn_type t) (Transaction.amount t)).

Arguments generated G {gen} account_id txn_types txn_dates t.

(** The days of the transaction period. *)
Definition period (cfg : Config.t) : list Date.t :=
  Date.days_from (TXN_DATE_START cfg) (TXN_DATE_END cfg - TXN_DATE_START cfg + 1).

(** A transaction generated for the account of row [a]. *)
Definition transaction_of (G : Type) {gen : Generator G} (cfg : Config.t)
           (a : active_account_row) (t : Transaction.t) : Prop :=
  let '(account_id, _, _, product_cat, _) := a in
  generated G account_id (types_of product_cat) (period cfg) t.

Arguments transaction_of G {gen} cfg a t.

(** [account_id] of a row of the query. *)
Definition row_account_id (a : active_account_row) : Z :=
  let '(account_id, _, _, _, _) := a in account_id.

(** [category] of a row of the query. *)
Definition row_category (a : active_account_row) : string :=
  let '(_, _, _, product_cat, _) := a in product_cat.

(** A generator whose every draw is the lowest of its range, except
    that it picks the fifth item of a population. *)
#[export] Instance low_draws : Generator unit := {|
  default_rng seed := tt;
  random g := (0%Q, g);
  integers lo hi g := (lo, g);
  choice_index n p g := (Nat.min 4 (n - 1), g);
  choice_indices n p k g := (repeat (Nat.min 4 (n - 1)) k, g);
  poisson lam g := (1, g);
  lognormal mean sigma g := (27%Q, g);
  normal loc scale g := (loc, g);
|}.

End GenerateTransactions.

(* ------------------------------------------------------------------ *)
(** ** Stage: general ledger ([generators/generate_gl_entries.py])     *)
(* ------------------------------------------------------------------ *)

Module GenerateGLEntries.
Import Monad Numpy Sampling Config.
Local Open Scope monad_scope.

(** GL account mappings for transaction types: (debit, credit). *)
Definition txn_gl_map : list (string * (string * string)) :=
  [("salary", ("2110", "4210"));
   ("direct_debit", ("2110", "1120"));
   ("standing_order", ("2110", "1120"));
   ("faster_payment", ("2110", "1120"));
   ("card_payment", ("2110", "4220"));
   ("interest", ("5110", "2120"));
   ("fee", ("4210", "2110"));
   ("loan_repayment", ("1210", "2110"));
   ("mortgage_payment", ("1220", "2110"));
   ("transfer_in", ("2110", "1120"));
   ("transfer_out", ("1120", "2110"));
   ("bacs", ("2110", "1120"));
   ("chaps", ("2110", "1120"));
   ("atm_withdrawal", ("2110", "1130"))].

Fixpoint dict_lookup {V : Type} (d : list (string * V)) (k : string) : option V :=
  match d with
  | [] => None
  | (k', v) :: rest => if String.eqb k k' then Some v else dict_lookup rest k
  end.

Definition start_date : Date.t := Date.make 2024 7 1.
Definition end_date : Date.t := Date.make 2024 12 31.
Definition n_days : Z := end_date - start_date + 1.

(** [f'BATCH-{current_date.strftime("%Y%m%d")}'] *)
Definition batch_of_day (day_offset : Z) : string :=
  "BATCH-" ++ Date.strftime_Ymd (start_date + day_offset).

(** [f'JNL-{journal_counter:08d}'] *)
Definition journal_id_of (journal_counter : Z) : string :=
  "JNL-" ++ format_0d_Z 8 journal_counter.

(** What the stage prints when it is done. *)
Record report : Type := {
  count : Z;
  imbalanced_batch : string;
}.

Section Stage.
Context {G : Type} {gen : Generator G}.
Variable cfg : Config.t.

(** Next to [rng]: the records not yet written, the [gl.gl_entries]
    table, and [journal_counter]. *)
Record local : Type := mkLocal {
  records : list GLEntry.t;
  table : Store.table GLEntry.t;
  journal_counter : Z;
}.

Definition stage : Type -> Type := M (G * local).

(** [records.append(r)] *)
Definition append (r : GLEntry.t) : stage unit :=
  modify_local (fun l => {| records := (records l ++ [r])%list;
                            table := table l;
                            journal_counter := journal_counter l |}).

(** [_insert_gl_batch(records); records = []] *)
Definition flush : stage unit :=
  modify_local (fun l => {| records := [];
                            table := Store.bulk_insert (table l) (records l);
                            journal_counter := journal_counter l |}).

(** [journal_counter += 1], giving the new value. *)
Definition next_journal : stage Z :=
  modify_local (fun l => {| records := records l;
                            table := table l;
                            journal_counter := journal_counter l + 1 |}) ;;
  l <- get_local ;;
  ret (journal_counter l).

(** Body of the loop over [range(n_journals)]. *)
Definition journal (cc_codes : list string) (date_str batch_id : string) (j : Z)
  : stage unit :=
  journal_counter <- next_journal ;;
  let journal_id := journal_id_of journal_counter in
  cc <- rng_choice cc_codes None ;;
  (* pick a transaction type and get GL codes *)
  txn_type <- rng_choice (map fst txn_gl_map) None ;;
  '(debit_code, credit_code) <-
    match dict_lookup txn_gl_map txn_type with
    | Some codes => ret codes
    | None => raise (KeyError (repr_str txn_type))
    end ;;
  x <- rng_lognormal 5 (12#10) ;;
  let amount := round2 x in
  let amount := Qmin amount 100000 in
  ref <- rng_integers 100000 999999 ;;
  let source_ref := "TXN-" ++ str_of_Z ref in
  (* debit entry *)
  append {|
    GLEntry.journal_id := journal_id;
    GLEntry.batch_id := batch_id;
    GLEntry.entry_date := date_str;
    GLEntry.posting_date := date_str;
    GLEntry.account_code := debit_code;
    GLEntry.cost_centre_code := cc;
    GLEntry.debit_amount := amount;
    GLEntry.credit_amount := 0;
    GLEntry.currency := "GBP";
    GLEntry.description := title (replace_char "_" " " txn_type) ++ " posting";
    GLEntry.source_system := "core_banking";
    GLEntry.source_reference := source_ref;
    GLEntry.is_manual := false;
    GLEntry.posted_by := "SYSTEM";
  |} ;;
  (* credit entry *)
  append {|
    GLEntry.journal_id := journal_id;
    GLEntry.batch_id := batch_id;
    GLEntry.entry_date := date_str;
    GLEntry.posting_date := date_str;
    GLEntry.account_code := credit_code;
    GLEntry.cost_centre_code := cc;
    GLEntry.debit_amount := 0;
    GLEntry.credit_amount := amount;
    GLEntry.currency := "GBP";
    GLEntry.description := title (replace_char "_" " " txn_type) ++ " posting";
    GLEntry.source_system := "core_banking";
    GLEntry.source_reference := source_ref;
    GLEntry.is_manual := false;
    GLEntry.posted_by := "SYSTEM";
  |}.

(** Body of the loop over [range(n_days)]. *)
Definition day (cc_codes : list string) (day_offset : Z) : stage unit :=
  let current_date := start_date + day_offset in
  let date_str := Date.isoformat current_date in
  (* ~150-250 journals per day *)
  n_journals <- rng_integers 150 250 ;;
  let batch_id := batch_of_day day_offset in
  for_each (range n_journals) (journal cc_codes date_str batch_id) ;;
  (* insert in chunks *)
  l <- get_local ;;
  when (10000 <=? Z.of_nat (List.length (records l))) flush.

(** The first leg of the intentional imbalance. *)
Definition imbalance_debit (journal_counter : Z) : GLEntry.t := {|
  GLEntry.journal_id := journal_id_of journal_counter;
  GLEntry.batch_id := GL_IMBALANCE_BATCH cfg;
  GLEntry.entry_date := "2024-11-15";
  GLEntry.posting_date := "2024-11-15";
  GLEntry.account_code := "4210";
  GLEntry.cost_centre_code := "CC-FIN";
  GLEntry.debit_amount := 15000;
  GLEntry.credit_amount := 0;
  GLEntry.currency := "GBP";
  GLEntry.description := "IMBALANCED ENTRY — Fee adjustment (DQ test)";
  GLEntry.source_system := "manual";
  GLEntry.source_reference := "MANUAL-ERR-001";
  GLEntry.is_manual := true;
  GLEntry.posted_by := "FIN-003";
|}.

(** The second leg: 500 short. *)
Definition imbalance_credit (journal_counter : Z) : GLEntry.t := {|
  GLEntry.journal_id := journal_id_of journal_counter;
  GLEntry.batch_id := GL_IMBALANCE_BATCH cfg;
  GLEntry.entry_date := "2024-11-15";
  GLEntry.posting_date := "2024-11-15";
  GLEntry.account_code := "2110";
  GLEntry.cost_centre_code := "CC-FIN";
  GLEntry.debit_amount := 0;
  GLEntry.credit_amount := 14500;
  GLEntry.currency := "GBP";
  GLEntry.description := "IMBALANCED ENTRY — Fee adjustment (DQ test)";
  GLEntry.source_system := "manual";
  GLEntry.source_reference := "MANUAL-ERR-001";
  GLEntry.is_manual := true;
  GLEntry.posted_by := "FIN-003";
|}.

(** The daily loop, the imbalance, and the insertion of what remains. *)
Definition build_records (cc_codes : list string) : stage unit :=
  for_each (range n_days) (day cc_codes) ;;
  (* intentional GL imbalance *)
  c1 <- next_journal ;;
  append (imbalance_debit c1) ;;
  c2 <- next_journal ;;
  append (imbalance_credit c2) ;;
  l <- get_local ;;
  match records l with
  | [] => ret tt
  | _ => flush
  end.

Definition with_gl_entries (d : Store.database) (t : Store.table GLEntry.t)
  : Store.database :=
  {| Store.products := Store.products d;
     Store.customers := Store.customers d;
     Store.accounts := Store.accounts d;
     Store.accounts_customer_id_fkey := Store.accounts_customer_id_fkey d;
     Store.transactions := Store.transactions d;
     Store.cost_centres := Store.cost_centres d;
     Store.gl_entries := t |}.

Definition initial (d : Store.database) : G * local :=
  (default_rng (SEED cfg + 40),
   {| records := []; table := Store.gl_entries d; journal_counter := 0 |}).

(** What a state has produced so far: the rows of the table, then
    the records not yet written. *)
Definition emitted (s : G * local) : list GLEntry.t :=
  (map snd (Store.rows (table (snd s))) ++ records (snd s))%list.

Definition view (s : G * local) : list GLEntry.t * Z :=
  (emitted s, journal_counter (snd s)).

(** [generate_gl_entries]: returns what it prints. *)
Definition generate_gl_entries {F : Type} (w : World.t F) : outcome (report * World.t F) :=
  let cc_codes := Store.cost_centres (World.db w) in
  match build_records cc_codes (initial (World.db w)) with
  | Ok (_, (_, l)) =>
      let d := with_gl_entries (World.db w) (table l) in
      let n := Z.of_nat (List.length (Store.rows (Store.gl_entries d))) in
      Ok ({| count := n; imbalanced_batch := GL_IMBALANCE_BATCH cfg |},
          World.set_db d w)
  | Raise e => Raise e
  | OutOfFuel => OutOfFuel
  end.

End Stage.

(** The rows a run added to [gl.gl_entries]. *)
Definition added_rows {F : Type} (w w' : World.t F) : list GLEntry.t :=
  skipn (List.length (Store.rows (Store.gl_entries (World.db w))))
        (map snd (Store.rows (Store.gl_entries (World.db w')))).

(** The two legs of a journal, in the order they are written. *)
Definition legs (j : GLEntry.t * GLEntry.t) : list GLEntry.t := [fst j; snd j].

(** A journal of the daily loop: a debit leg and a credit leg under
    one journal id and one per-day batch id, with the same amount. *)
Definition balanced_journal (j : GLEntry.t * GLEntry.t) : Prop :=
  GLEntry.journal_id (fst j) = GLEntry.journal_id (snd j)
  /\ GLEntry.batch_id (fst j) = GLEntry.batch_id (snd j)
  /\ (exists day_offset, In day_offset (range n_days)
                         /\ GLEntry.batch_id (fst j) = batch_of_day day_offset)
  /\ GLEntry.debit_amount (fst j) = GLEntry.credit_amount (snd j)
  /\ GLEntry.credit_amount (fst j) = 0%Q
  /\ GLEntry.debit_amount (snd j) = 0%Q.

(** [SUM(debit_amount) - SUM(credit_amount)] over the entries of one
    batch, as the balance check of the tests groups them. *)
Fixpoint net_of_batch (b : string) (entries : list GLEntry.t) : Q :=
  match entries with
  | [] => 0
  | e :: rest =>
      if String.eqb (GLEntry.batch_id e) b
      then (GLEntry.debit_amount e - GLEntry.credit_amount e + net_of_batch b rest)%Q
      else net_of_batch b rest
  end.

(** The journal numbers 1, ..., n. *)
Definition counters (n : Z) : list Z := map Z.of_nat (seq 1 (Z.to_nat n)).

(** What the daily loop has achieved in a state, [old] being the rows
    the table held before: the entries emitted since are the legs of
    balanced journals, numbered from 1 to the journal counter. *)
Definition ledger {G : Type} (old : list GLEntry.t) (s : G * local) : Prop :=
  exists journals,
    emitted s = (old ++ flat_map legs journals)%list
    /\ Forall balanced_journal journals
    /\ map (fun j => GLEntry.journal_id (fst j)) journals
       = map journal_id_of (counters (journal_counter (snd s)))
    /\ 0 <= journal_counter (snd s).

(** What the stage has written when it is done: the legs of balanced
    journals numbered from 1, then the two entries of the imbalance
    under the next two numbers; nothing is left unwritten. *)
Definition written {G : Type} (cfg : Config.t) (old : list GLEntry.t) (s : G * local)
  : Prop :=
  exists journals c,
    0 <= c
    /\ emitted s = (old ++ flat_map legs journals
                        ++ [imbalance_debit cfg (c + 1); imbalance_credit cfg (c + 2)])%list
    /\ Forall balanced_journal journals
    /\ map (fun j => GLEntry.journal_id (fst j)) journals = map journal_id_of (counters c)
    /\ records (snd s) = [].

(** [ABS(net) > 0.01] *)
Definition unbalanced (b : string) (entries : list GLEntry.t) : Prop :=
  (1 # 100 < net_of_batch b entries \/ net_of_batch b entries < - (1 # 100))%Q.

End GenerateGLEntries.

(* ------------------------------------------------------------------ *)
(** ** Stage: general ledger balances ([generate_gl_balances])         *)
(* ------------------------------------------------------------------ *)

Module GLBalance.
Record t : Type := {
  period_end_date : string;
  account_code : string;
  cost_centre_code : string;
  opening_balance : Q;
  period_debits : Q;
  period_credits : Q;
  closing_balance : Q;
  currency : string;
}.
End GLBalance.

Module GenerateGLBalances.

(** [period_end] as the driver hands it over: a datetime, or a value
    without a [date] method whose text starts with the date. *)
Inductive period_end : Type :=
| Timestamp (d : Date.t)
| Other (text : string).

(** A row of the monthly summary query:
    [(account_code, cost_centre_code, period_end, total_debits,
      total_credits)], the two sums being [Decimal]s. *)
Definition summary_row : Type := (string * string * period_end * Q * Q)%type.

(** [(acct, cc)] *)
Definition key : Type := (string * string)%type.

Definition key_of (row : summary_row) : key :=
  let '(acct, cc, _, _, _) := row in (acct, cc).

Definition key_eqb (a b : key) : bool :=
  (String.eqb (fst a) (fst b) && String.eqb (snd a) (snd b))%bool.

(** [running_balances.get(key, 0)] *)
Fixpoint get (running : list (key * Q)) (k : key) : Q :=
  match running with
  | [] => 0
  | (k', v) :: rest => if key_eqb k k' then v else get rest k
  end.

(** [running_balances[key] = v] *)
Fixpoint set (running : list (key * Q)) (k : key) (v : Q) : list (key * Q) :=
  match running with
  | [] => [(k, v)]
  | (k', w) :: rest =>
      if key_eqb k k' then (k', v) :: rest else (k', w) :: set rest k v
  end.

(** [period_end.date().isoformat() if hasattr(period_end, 'date')
     else str(period_end)[:10]] *)
Definition period_end_text (p : period_end) : string :=
  match p with
  | Timestamp d => Date.isoformat d
  | Other text => take 10 text
  end.

(** Body of the loop over the rows: the records so far and
    [running_balances]. *)
Definition snapshot (st : list GLBalance.t * list (key * Q)) (row : summary_row)
  : list GLBalance.t * list (key * Q) :=
  let '(records, running_balances) := st in
  let '(acct, cc, p_end, debits, credits) := row in
  let k := (acct, cc) in
  let opening := get running_balances k in
  let closing :=
    Float.sub (Float.add opening (Float.of_decimal debits)) (Float.of_decimal credits) in
  let running_balances := set running_balances k closing in
  ((records ++ [{|
      GLBalance.period_end_date := period_end_text p_end;
      GLBalance.account_code := acct;
      GLBalance.cost_centre_code := cc;
      GLBalance.opening_balance := Float.round2 opening;
      GLBalance.period_debits := Float.round2 (Float.of_decimal debits);
      GLBalance.period_credits := Float.round2 (Float.of_decimal credits);
      GLBalance.closing_balance := Float.round2 closing;
      GLBalance.currency := "GBP";
    |}])%list,
   running_balances).

(** The records built from the rows of the query. *)
Definition balance_records (rows : list summary_row) : list GLBalance.t :=
  fst (fold_left snapshot rows ([], [])).

(** [generate_gl_balances], from the rows of its query on: the table
    [gl.gl_balances] after the run and the number of snapshots it
    prints. *)
Definition generate_gl_balances (rows : list summary_row) (t : Store.table GLBalance.t)
  : Store.table GLBalance.t * nat :=
  let records := balance_records rows in
  (match records with
   | [] => t
   | _ => Store.bulk_insert t records
   end,
   List.length records).

(** The movements of one account and cost centre over some rows:
    debits less credits, row after row, each as a float and added as
    floats are. *)
Definition balance_of (k : key) (rows : list summary_row) : Q :=
  fold_left
    (fun bal row =>
       let '(_, _, _, debits, credits) := row in
       if key_eqb (key_of row) k
       then Float.sub (Float.add bal (Float.of_decimal debits)) (Float.of_decimal credits)
       else bal)
    rows 0%Q.

(** The snapshot the specification of the loop gives a row that
    comes after the rows [before]. *)
Definition snapshot_of (before : list summary_row) (row : summary_row) : GLBalance.t :=
  let '(acct, cc, p_end, debits, credits) := row in
  {| GLBalance.period_end_date := period_end_text p_end;
     GLBalance.account_code := acct;
     GLBalance.cost_centre_code := cc;
     GLBalance.opening_balance := Float.round2 (balance_of (acct, cc) before);
     GLBalance.period_debits := Float.round2 (Float.of_decimal debits);
     GLBalance.period_credits := Float.round2 (Float.of_decimal credits);
     GLBalance.closing_balance :=
       Float.round2 (balance_of (acct, cc) (before ++ [row])%list);
     GLBalance.currency := "GBP" |}.

End GenerateGLBalances.

(* ------------------------------------------------------------------ *)
(** ** Two runs of a stage                                             *)
(* ------------------------------------------------------------------ *)

Module Reproducible.


End Reproducible.

(* ================================================================== *)
(** * Properties                                                       *)
(* ================================================================== *)

(* ------------------------------------------------------------------ *)
(** ** Strings                                                         *)
(* ------------------------------------------------------------------ *)

Section StringFacts.

Lemma append_nil_r (s : string) : s ++ "" = s.
Proof. induction s as [|c s IH]; simpl; [reflexivity | now rewrite IH]. Qed.

Lemma append_assoc (a b c : string) : (a ++ b) ++ c = a ++ (b ++ c).
Proof. induction a as [|x a IH]; simpl; [reflexivity | now rewrite IH]. Qed.

Lemma occurs_refl (s : string) : occurs s s.
Proof. exists "", "". simpl. now rewrite append_nil_r. Qed.

Lemma occurs_app_l (n a b : string) : occurs n a -> occurs n (a ++ b).
Proof.
  intros (pre & post & ->). exists pre, (post ++ b).
  now rewrite !append_assoc.
Qed.

Lemma occurs_app_r (n a b : string) : occurs n b -> occurs n (a ++ b).
Proof.
  intros (pre & post & ->). exists (a ++ pre), post.
  now rewrite !append_assoc.
Qed.

Lemma occurs_join (sep x : string) (xs : list string) :
  In x xs -> occurs x (join sep xs).
Proof.
  induction xs as [|y ys IH]; intros Hin; [destruct Hin|].
  destruct Hin as [->|Hin].
  - destruct ys as [|z zs]; [apply occurs_refl|].
    change (occurs x (x ++ sep ++ join sep (z :: zs))).
    apply occurs_app_l, occurs_refl.
  - destruct ys as [|z zs]; [destruct Hin|].
    change (occurs x (y ++ sep ++ join sep (z :: zs))).
    now apply occurs_app_r, occurs_app_r, IH.
Qed.

Lemma occurs_repr_list (k : string) (ks : list string) :
  In k ks -> occurs (repr_str k) (repr_list ks).
Proof.
  intros Hin. unfold repr_list.
  apply occurs_app_r, occurs_app_l, occurs_join.
  now apply in_map.
Qed.

Lemma parse_zeros (k : nat) (s : string) : parse_N (zeros k ++ s) = parse_N s.
Proof.
  induction k as [|k IH]; [reflexivity|].
  unfold parse_N in *. cbn [zeros append NilEmpty.uint_of_string].
  destruct (NilEmpty.uint_of_string (zeros k ++ s)) as [d|],
           (NilEmpty.uint_of_string s) as [d'|]; try discriminate IH.
  - cbn in *. exact IH.
  - reflexivity.
Qed.

Lemma parse_str_of_N (n : N) : parse_N (str_of_N n) = Some n.
Proof.
  unfold parse_N, str_of_N, NilZero.string_of_uint.
  destruct (N.to_uint n) eqn:E;
    try (rewrite NilEmpty.usu; cbn [option_map]; rewrite <- E;
         now rewrite DecimalN.Unsigned.of_to).
  destruct n as [|p]; [discriminate E|].
  cbn in E. pose proof (DecimalPos.Unsigned.to_uint_nonnil p). congruence.
Qed.

(** Zero-padded decimal rendering loses nothing. *)
Lemma format_0d_inj (w : nat) (a b : N) : format_0d w a = format_0d w b -> a = b.
Proof.
  unfold format_0d, zfill. intros E.
  apply (f_equal parse_N) in E. rewrite !parse_zeros, !parse_str_of_N in E.
  now injection E.
Qed.

Lemma format_0d_Z_inj (w : nat) (a b : Z) :
  0 <= a -> 0 <= b -> format_0d_Z w a = format_0d_Z w b -> a = b.
Proof.
  intros Ha Hb E. destruct a as [|pa|pa], b as [|pb|pb]; try lia;
    apply format_0d_inj in E; lia.
Qed.

Lemma append_inj_l (p a b : string) : p ++ a = p ++ b -> a = b.
Proof. induction p as [|c p IH]; cbn [append]; [auto | intros [= E]; auto]. Qed.

End StringFacts.

(* ------------------------------------------------------------------ *)
(** ** The id registry                                                 *)
(* ------------------------------------------------------------------ *)

Module IDRegistryFacts.
Import IDRegistry.

Lemma lookup_register_same (r : t) k v : lookup (register r k v) k = Some v.
Proof.
  induction r as [|[k' w] r IH]; simpl.
  - now rewrite String.eqb_refl.
  - destruct (String.eqb k k') eqn:E; simpl; rewrite E; [reflexivity | exact IH].
Qed.

Lemma lookup_register_other (r : t) k k' v :
  k <> k' -> lookup (register r k' v) k = lookup r k.
Proof.
  intros Hne. induction r as [|[k0 w] r IH]; simpl.
  - apply String.eqb_neq in Hne. now rewrite Hne.
  - destruct (String.eqb k' k0) eqn:E; simpl.
    + apply String.eqb_eq in E. subst k0.
      apply String.eqb_neq in Hne. now rewrite Hne.
    + now rewrite IH.
Qed.

Lemma keys_register_incl (r : t) k v x :
  In x (keys r) \/ x = k -> In x (keys (register r k v)).
Proof.
  unfold keys. induction r as [|[k0 w] r IH]; simpl.
  - intros [[]| ->]. now left.
  - destruct (String.eqb k k0) eqn:E; simpl.
    + apply String.eqb_eq in E. subst k0. intros [[H|H]|H]; auto.
    + intros [[H|H]|H]; auto.
Qed.

Lemma lookup_fold (calls : list (string * payload)) (r0 : t) k :
  lookup (fold_left (fun r c => register r (fst c) (snd c)) calls r0) k =
  match last_registered calls k with
  | Some w => Some w
  | None => lookup r0 k
  end.
Proof.
  revert r0. induction calls as [|[k' v] calls IH]; intros r0; simpl.
  - reflexivity.
  - rewrite IH. destruct (last_registered calls k); [reflexivity|].
    destruct (String.eqb k k') eqn:E.
    + apply String.eqb_eq in E. subst k'. apply lookup_register_same.
    + apply String.eqb_neq in E. now apply lookup_register_other.
Qed.

Lemma keys_fold (calls : list (string * payload)) (r0 : t) x :
  In x (keys r0) \/ In x (map fst calls) ->
  In x (keys (fold_left (fun r c => register r (fst c) (snd c)) calls r0)).
Proof.
  revert r0. induction calls as [|[k' v] calls IH]; intros r0; simpl.
  - intros [H|[]]. exact H.
  - intros H. apply IH.
    destruct H as [H|[H|H]]; auto.
    + left. apply keys_register_incl. now left.
    + left. apply keys_register_incl. now right.
Qed.

(** C9. After any sequence of [register] calls on a fresh registry,
    [get_ids] returns, for a type that was registered, the id set of
    its last registration; for a type that was not, it raises a
    [KeyError] whose message names the requested type and lists the
    registered types, and so never answers with a (possibly empty) id
    set. *)
Theorem get_ids_contract (calls : list (string * payload)) (entity_type : string) :
  match last_registered calls entity_type with
  | Some ids => get_ids (replay calls) entity_type = Ok ids
  | None =>
      let msg := not_registered_message entity_type (replay calls) in
      get_ids (replay calls) entity_type = Raise (KeyError msg)
      /\ occurs (repr_str entity_type) msg
      /\ (forall k, In k (map fst calls) -> occurs (repr_str k) msg)
      /\ (forall v, get_ids (replay calls) entity_type <> Ok v)
  end.
Proof.
  pose proof (lookup_fold calls init entity_type) as Hl.
  fold (replay calls) in Hl.
  destruct (last_registered calls entity_type) as [ids|] eqn:E.
  - unfold get_ids. now rewrite Hl.
  - simpl in Hl. cbv zeta. unfold get_ids. rewrite Hl.
    repeat split.
    + unfold not_registered_message.
      exists "No IDs registered for ", (". " ++ "Available: " ++ repr_list (keys (replay calls))).
      unfold repr_str. simpl. now rewrite !append_assoc.
    + intros k Hk. unfold not_registered_message.
      do 4 apply occurs_app_r. apply occurs_repr_list.
      apply keys_fold. now right.
    + intros v Hv. discriminate Hv.
Qed.

Example get_ids_before_register :
  get_ids (replay [("customer_ids", Ids [1; 2; 3])]) "account_ids"
  = Raise (KeyError "No IDs registered for 'account_ids'. Available: ['customer_ids']").
Proof. reflexivity. Qed.

Example get_ids_after_register :
  get_ids (replay [("customer_ids", Ids [1; 2]); ("customer_ids", Ids [7])]) "customer_ids"
  = Ok (Ids [7]).
Proof. reflexivity. Qed.

End IDRegistryFacts.

(* ------------------------------------------------------------------ *)
(** ** The SQL query tool                                              *)
(* ------------------------------------------------------------------ *)

Module ToolsFacts.
Import Unicode Tools.
Local Open Scope list_scope.

Section Guard.
Context {U : Tables}.

Lemma strip_prefix_spec (p s rest : str) :
  strip_prefix p s = Some rest <-> s = p ++ rest.
Proof.
  revert s. induction p as [|a p IH]; intros s; cbn [strip_prefix app].
  - split; [now intros [= ->] | now intros ->].
  - destruct s as [|b s].
    + split; discriminate.
    + destruct (N.eqb_spec a b) as [<- | Hne].
      * rewrite IH. split; [now intros -> | now intros [= ->]].
      * split; [discriminate | intros [= H _]; congruence].
Qed.

Lemma match_word_here_spec (prev : option char) (kw text : str) :
  match_word_here prev kw text = true <->
  exists post,
    text = kw ++ post
    /\ boundary prev (first_char text) = true
    /\ boundary (last_char prev kw) (first_char post) = true.
Proof.
  unfold match_word_here. rewrite andb_true_iff. split.
  - intros [Hb Hm].
    destruct (strip_prefix kw text) as [rest|] eqn:E; [|discriminate].
    apply strip_prefix_spec in E. now exists rest.
  - intros (post & Ht & Hb & Ha). split; [exact Hb|].
    apply strip_prefix_spec in Ht. now rewrite Ht.
Qed.

Lemma search_word_from_spec (kw text : str) (prev : option char) :
  search_word_from prev kw text = true <->
  exists pre post,
    text = pre ++ kw ++ post
    /\ boundary (last_char prev pre) (first_char (kw ++ post)) = true
    /\ boundary (last_char (last_char prev pre) kw) (first_char post) = true.
Proof.
  revert prev. induction text as [|c text IH]; intros prev.
  - cbn [search_word_from]. rewrite orb_false_r, match_word_here_spec. split.
    + intros (post & Ht & Hb & Ha). exists [], post. cbn [app last_char].
      rewrite <- Ht. auto.
    + intros (pre & post & Ht & Hb & Ha).
      destruct pre as [|x pre]; [|discriminate Ht].
      cbn [app last_char] in *. exists post. rewrite <- Ht in Hb. auto.
  - cbn [search_word_from]. rewrite orb_true_iff, match_word_here_spec, IH. split.
    + intros [(post & Ht & Hb & Ha) | (pre & post & Ht & Hb & Ha)].
      * exists [], post. cbn [app last_char]. rewrite <- Ht. auto.
      * exists (c :: pre), post. cbn [app last_char]. rewrite Ht. auto.
    + intros (pre & post & Ht & Hb & Ha).
      destruct pre as [|x pre].
      * left. cbn [app last_char] in *. exists post. rewrite <- Ht in Hb. auto.
      * right. cbn [app] in Ht. injection Ht as -> Ht.
        exists pre, post. cbn [last_char] in Hb, Ha. auto.
Qed.

(** The scan of the guard finds exactly the whole-word occurrences. *)
Lemma search_word_spec (kw text : str) :
  search_word kw text = true <-> whole_word kw text.
Proof. apply search_word_from_spec. Qed.

End Guard.

Section WithStore.
Context {U : Tables}.
Variable database : Type.
Variable run_statement : database -> str -> (exn + result_set) * database.

Let execute_sql_query := Tools.execute_sql_query run_statement.

(** C7. Whatever the text of the query and whatever the character
    tables of the runtime: a query that, once stripped and upper-cased
    ([query.strip().upper()]), starts with neither SELECT nor WITH, or
    in which, stripped and upper-cased, one of the forbidden keywords
    stands as a whole word ([\b] on each side), gets an
    [{"error": ...}] answer: the call returns (it does not raise), and
    the store is left as it was, with no statement sent to it. *)
Theorem forbidden_query_rejected (query : str) (s : store database) :
  (startswith (upper (strip query)) (lit "SELECT") = false
   /\ startswith (upper (strip query)) (lit "WITH") = false)
  \/ (exists kw, In kw dangerous /\ whole_word (lit kw) (upper (strip query))) ->
  exists msg, execute_sql_query query s = (Ok (Error msg), s).
Proof.
  intros H. unfold execute_sql_query, Tools.execute_sql_query.
  destruct (negb (startswith (upper (strip query)) (lit "SELECT"))
            && negb (startswith (upper (strip query)) (lit "WITH")))%bool eqn:Eg.
  - eexists. reflexivity.
  - destruct H as [[H1 H2] | (kw & Hin & Hw)].
    + rewrite H1, H2 in Eg. discriminate Eg.
    + destruct (find (fun keyword => search_word (lit keyword) (upper (strip query))) dangerous)
        as [k|] eqn:Ef.
      * eexists. reflexivity.
      * apply search_word_spec in Hw.
        pose proof (find_none _ _ Ef kw Hin) as Hn. cbv beta in Hn.
        congruence.
Qed.

(** What the tool answers when the statement was let through and
    the store executed it. *)
Lemma execute_sql_query_success (query : str) (s : store database)
      (columns : list string) (all_rows : list (list value)) (d : database) :
  startswith (upper (strip query)) (lit "SELECT") = true
  \/ startswith (upper (strip query)) (lit "WITH") = true ->
  (forall kw, In kw dangerous -> search_word (lit kw) (upper (strip query)) = false) ->
  run_statement (db s) query = (inr (columns, all_rows), d) ->
  execute_sql_query query s =
  (Ok (Result columns
         (map (@serialise_row) (map (dict_zip columns) (firstn ROW_CAP all_rows)))
         (List.length (firstn ROW_CAP all_rows))
         (Nat.leb ROW_CAP (List.length (firstn ROW_CAP all_rows)))),
   {| db := d; executed := executed s ++ [query] |}).
Proof.
  intros Hs Hk Hr. unfold execute_sql_query, Tools.execute_sql_query.
  destruct (negb (startswith (upper (strip query)) (lit "SELECT"))
            && negb (startswith (upper (strip query)) (lit "WITH")))%bool eqn:Eg.
  - apply andb_true_iff in Eg. destruct Eg as [E1 E2].
    apply negb_true_iff in E1, E2. destruct Hs; congruence.
  - destruct (find (fun keyword => search_word (lit keyword) (upper (strip query))) dangerous)
      as [k|] eqn:Ef.
    + apply find_some in Ef. destruct Ef as [Hin Hf].
      rewrite (Hk k Hin) in Hf. discriminate Hf.
    + unfold execute. rewrite Hr. now rewrite length_map.
Qed.

(** C8, as the code has it. For a query that was executed
    successfully, the answer holds at most 500 rows, [row_count] is
    the number of rows returned, and [truncated] is set exactly
    when the result set has at least 500 rows, that is when the cap
    was reached; in particular it is set whenever rows were left
    out. *)
Theorem truncated_flag_at_cap (query : str) (s s' : store database)
        (columns cols : list string) (all_rows : list (list value))
        (rows : list (list (string * value))) (n : nat) (tr : bool) (d : database) :
  run_statement (db s) query = (inr (cols, all_rows), d) ->
  execute_sql_query query s = (Ok (Result columns rows n tr), s') ->
  (List.length rows <= ROW_CAP)%nat
  /\ n = List.length rows
  /\ (tr = true <-> (ROW_CAP <= List.length all_rows)%nat)
  /\ ((List.length rows < List.length all_rows)%nat -> tr = true).
Proof.
  intros Hr He. unfold execute_sql_query, Tools.execute_sql_query in He.
  destruct (negb (startswith (upper (strip query)) (lit "SELECT"))
            && negb (startswith (upper (strip query)) (lit "WITH")))%bool; [discriminate He|].
  destruct (find (fun keyword => search_word (lit keyword) (upper (strip query))) dangerous);
    [discriminate He|].
  unfold execute in He. rewrite Hr in He.
  remember (firstn ROW_CAP all_rows) as kept eqn:Hkept.
  remember ROW_CAP as cap eqn:Hcap.
  injection He as <- <- <- <- <-.
  assert (Hlen : List.length kept = Nat.min cap (List.length all_rows))
    by (subst kept; apply length_firstn).
  rewrite !length_map, Hlen.
  assert (Hleb : Nat.leb cap (Nat.min cap (List.length all_rows)) = true
                 <-> (cap <= List.length all_rows)%nat).
  { rewrite Nat.leb_le. lia. }
  repeat split.
  - lia.
  - apply Hleb.
  - apply Hleb.
  - intros Hlt. apply Hleb. lia.
Qed.

End WithStore.

(** *** ASCII queries

    Whatever its version, the Unicode database has the same entries
    for ASCII; on a query made of ASCII characters the guard therefore
    does the same with every table. *)

Section Ascii.
Context {U : Tables}.
Hypothesis as_latin : ascii_as_latin U.

Lemma lstrip_keeps (V : Tables) (P : char -> Prop) (s : str) :
  Forall P s -> Forall P (lstrip (U := V) s).
Proof.
  induction 1 as [|c s Hc Hs IH]; cbn [lstrip]; [constructor|].
  destruct (isspace c); [exact IH | now constructor].
Qed.

Lemma lstrip_ascii (s : str) :
  is_ascii s -> lstrip (U := U) s = lstrip (U := latin) s.
Proof.
  induction 1 as [|c s Hc Hs IH]; cbn [lstrip]; [reflexivity|].
  rewrite (proj1 (as_latin Hc)). cbn [isspace latin]. now rewrite IH.
Qed.

Lemma strip_ascii (s : str) :
  is_ascii s ->
  strip (U := U) s = strip (U := latin) s /\ is_ascii (strip (U := latin) s).
Proof.
  intros Hs. unfold strip, rstrip.
  assert (Hrev : is_ascii (rev s)) by (now apply Forall_rev).
  rewrite (lstrip_ascii Hrev).
  assert (Hr : is_ascii (rev (lstrip (U := latin) (rev s)))).
  { apply Forall_rev. now apply lstrip_keeps. }
  split; [now apply lstrip_ascii | now apply lstrip_keeps].
Qed.

Lemma latin_toupper_ascii (c : char) : (c < 128)%N -> is_ascii (latin_toupper c).
Proof.
  intros Hc. unfold latin_toupper, between.
  destruct (N.leb_spec 97 c), (N.leb_spec c 122); cbn [andb].
  1: { constructor; [lia | constructor]. }
  all: repeat match goal with
              | |- context [N.eqb ?x ?k] =>
                  destruct (N.eqb_spec x k); [lia|]
              end;
       destruct (N.leb_spec 224 c); [lia|]; cbn [andb];
       constructor; [exact Hc | constructor].
Qed.

Lemma upper_ascii (s : str) :
  is_ascii s ->
  upper (U := U) s = upper (U := latin) s /\ is_ascii (upper (U := latin) s).
Proof.
  unfold upper. induction 1 as [|c s Hc Hs [IH1 IH2]]; cbn [flat_map].
  - split; [reflexivity | constructor].
  - rewrite (proj1 (proj2 (as_latin Hc))), IH1. cbn [toupper latin]. split; [reflexivity|].
    apply Forall_app. split; [now apply latin_toupper_ascii | exact IH2].
Qed.

Lemma is_word_ascii (c : option char) :
  ascii_or_none c -> is_word (U := U) c = is_word (U := latin) c.
Proof.
  destruct c as [x|]; [|reflexivity]. intros Hx. cbn [is_word].
  exact (proj2 (proj2 (as_latin Hx))).
Qed.

Lemma first_char_ascii (s : str) : is_ascii s -> ascii_or_none (first_char s).
Proof. destruct 1; cbn; auto. Qed.

Lemma last_char_ascii (s : str) (prev : option char) :
  ascii_or_none prev -> is_ascii s -> ascii_or_none (last_char prev s).
Proof.
  intros Hp Hs. revert prev Hp. induction Hs as [|c s Hc Hs IH]; intros prev Hp;
    cbn [last_char]; [exact Hp|]. apply IH. exact Hc.
Qed.

Lemma strip_prefix_ascii (kw text rest : str) :
  is_ascii text -> strip_prefix kw text = Some rest -> is_ascii kw /\ is_ascii rest.
Proof.
  intros Ht E. apply strip_prefix_spec in E. subst text.
  apply Forall_app in Ht. exact Ht.
Qed.

Lemma match_word_here_ascii (prev : option char) (kw text : str) :
  ascii_or_none prev -> is_ascii text ->
  match_word_here (U := U) prev kw text = match_word_here (U := latin) prev kw text.
Proof.
  intros Hp Ht. unfold match_word_here, boundary.
  rewrite (is_word_ascii _ Hp), (is_word_ascii _ (first_char_ascii Ht)).
  f_equal. destruct (strip_prefix kw text) as [rest|] eqn:E; [|reflexivity].
  destruct (strip_prefix_ascii _ Ht E) as [Hkw Hrest].
  rewrite (is_word_ascii _ (last_char_ascii _ Hp Hkw)),
          (is_word_ascii _ (first_char_ascii Hrest)).
  reflexivity.
Qed.

Lemma search_word_ascii (kw text : str) :
  is_ascii text -> search_word (U := U) kw text = search_word (U := latin) kw text.
Proof.
  unfold search_word. intros Ht.
  assert (Hp : ascii_or_none None) by exact I.
  revert Hp. generalize (@None char) as prev.
  induction Ht as [|c text Hc Ht IH]; intros prev Hp; cbn [search_word_from].
  - now rewrite match_word_here_ascii by (auto; constructor).
  - rewrite match_word_here_ascii by (auto; now constructor).
    f_equal. apply IH. exact Hc.
Qed.

Variable database : Type.
Variable run_statement : database -> str -> (exn + result_set) * database.

(** On an ASCII query the tool does with any table what it does
    with the tables of the examples. *)
Lemma ascii_query_as_latin (query : str) (s : store database) :
  is_ascii query ->
  execute_sql_query (U := U) run_statement query s
  = execute_sql_query (U := latin) run_statement query s.
Proof.
  intros Hq. unfold execute_sql_query.
  destruct (strip_ascii Hq) as [Es Hs]. destruct (upper_ascii Hs) as [Eu Hu].
  rewrite Es, Eu.
  replace (find (fun keyword => search_word (U := U) (lit keyword)
                                  (upper (U := latin) (strip (U := latin) query))) dangerous)
    with (find (fun keyword => search_word (U := latin) (lit keyword)
                                 (upper (U := latin) (strip (U := latin) query))) dangerous).
  - reflexivity.
  - induction dangerous as [|kw kws IH]; cbn [find]; [reflexivity|].
    rewrite (search_word_ascii (lit kw) Hu), IH. reflexivity.
Qed.

(** The scenario of the specification, with any table: the query
    [DELETE FROM core_banking.customers] gets an [{"error": ...}]
    answer and nothing is sent to the store. *)
Lemma delete_is_rejected_with_any_table (s : store database) :
  execute_sql_query (U := U) run_statement (lit "DELETE FROM core_banking.customers") s
  = (Ok (Error "Only SELECT queries are permitted."), s).
Proof.
  rewrite ascii_query_as_latin; [reflexivity|].
  unfold is_ascii. apply Forall_forall. intros c Hc. vm_compute in Hc.
  repeat (destruct Hc as [<- | Hc]; [reflexivity|]). contradiction.
Qed.

End Ascii.

(** A result set of exactly 500 rows is returned whole and still
    flagged as truncated. *)
Lemma truncated_without_omission :
  ~ truncated_iff_rows_omitted (U := latin) run_on_table (lit "SELECT n FROM t")
      {| db := repeat [VInt 1] 500; executed := [] |}.
Proof.
  intros H.
  destruct (H ["n"] ["n"] (repeat [VInt 1] 500)
              (repeat [("n", VInt 1)] 500) 500%nat true
              (repeat [VInt 1] 500)
              {| db := repeat [VInt 1] 500; executed := [lit "SELECT n FROM t"] |})
    as (_ & _ & Hiff).
  - reflexivity.
  - vm_compute. reflexivity.
  - rewrite !repeat_length in Hiff.
    destruct Hiff as [Hlt _]. specialize (Hlt eq_refl). lia.
Qed.

Lemma truncated_flag_at_cap_witness :
  let s := {| db := repeat [VInt 1] 500; executed := [] |} in
  (List.length (repeat [("n", VInt 1)] 500) <= ROW_CAP)%nat
  /\ 500%nat = List.length (repeat [("n", VInt 1)] 500)
  /\ (true = true <-> (ROW_CAP <= List.length (repeat [VInt 1] 500))%nat)
  /\ ((List.length (repeat [("n", VInt 1)] 500) < List.length (repeat [VInt 1] 500))%nat
      -> true = true).
Proof.
  apply (@truncated_flag_at_cap latin table_store run_on_table (lit "SELECT n FROM t")
           {| db := repeat [VInt 1] 500; executed := [] |}
           {| db := repeat [VInt 1] 500; executed := [lit "SELECT n FROM t"] |}
           ["n"] ["n"] (repeat [VInt 1] 500) (repeat [("n", VInt 1)] 500)
           500%nat true (repeat [VInt 1] 500)).
  - reflexivity.
  - vm_compute. reflexivity.
Defined.

Example delete_is_rejected (t : table_store) (log : list str) :
  execute_sql_query (U := latin) run_on_table (lit "DELETE FROM core_banking.customers")
    {| db := t; executed := log |}
  = (Ok (Error "Only SELECT queries are permitted."), {| db := t; executed := log |}).
Proof. reflexivity. Qed.

Example select_with_keyword_is_rejected (t : table_store) :
  execute_sql_query (U := latin) run_on_table
    (lit "select 1; drop table core_banking.customers")
    {| db := t; executed := [] |}
  = (Ok (Error "Query contains forbidden keyword: DROP"), {| db := t; executed := [] |}).
Proof. reflexivity. Qed.

Example keyword_inside_identifier_passes :
  search_word (U := latin) (lit "UPDATE") (lit "SELECT LAST_UPDATED FROM T") = false.
Proof. reflexivity. Qed.

(** A no-break space (U+00A0) before SELECT is white space to
    [strip]: the query passes the guard and is sent as it was given. *)
Example no_break_space_is_stripped (t : table_store) :
  snd (execute_sql_query (U := latin) run_on_table (160%N :: lit "SELECT 1")
         {| db := t; executed := [] |})
  = {| db := t; executed := [160%N :: lit "SELECT 1"] |}.
Proof. reflexivity. Qed.

(** The capital of the dotless i (U+0131) is I: upper-cased, the
    text holds INSERT, and the query is rejected. *)
Example dotless_i_spells_insert (t : table_store) :
  execute_sql_query (U := latin) run_on_table
    (lit "select 1; " ++ 305%N :: lit "nsert into t values (1)")
    {| db := t; executed := [] |}
  = (Ok (Error "Query contains forbidden keyword: INSERT"), {| db := t; executed := [] |}).
Proof. reflexivity. Qed.

(** An accented letter is a word character: next to one, a keyword
    is not a whole word. *)
Example keyword_next_to_accented_letter :
  search_word (U := latin) (lit "DROP") (lit "SELECT " ++ 201%N :: lit "DROP FROM T") = false.
Proof. reflexivity. Qed.

Lemma forbidden_query_rejected_witness :
  let s := {| db := [[VInt 1]]; executed := [] |} in
  (startswith (upper (U := latin) (strip (U := latin) (lit "DELETE FROM core_banking.customers")))
              (lit "SELECT") = false
   /\ startswith (upper (U := latin) (strip (U := latin) (lit "DELETE FROM core_banking.customers")))
                 (lit "WITH") = false)
  /\ exists msg,
      execute_sql_query (U := latin) run_on_table (lit "DELETE FROM core_banking.customers") s
      = (Ok (Error msg), s).
Proof.
  split.
  - split; reflexivity.
  - apply (@forbidden_query_rejected latin table_store run_on_table). left. split; reflexivity.
Defined.

End ToolsFacts.

(* ------------------------------------------------------------------ *)
(** ** Rules for postconditions                                        *)
(* ------------------------------------------------------------------ *)

Module LogicFacts.
Import Monad Logic.
Local Open Scope list_scope.

Section Rules.
Context {S : Type}.

Lemma Ok_pair_inj {A B} (a a' : A) (b b' : B) :
  Ok (a, b) = Ok (a', b') -> a = a' /\ b = b'.
Proof. intros E. inversion E. split; reflexivity. Qed.

Lemma wp_ret {A} (a : A) (Q : A -> S -> Prop) s : Q a s -> wp (ret a) Q s.
Proof. intros H a' s' [= <- <-]. exact H. Qed.

Lemma wp_raise {A} e (Q : A -> S -> Prop) s : wp (raise e) Q s.
Proof. intros a s' [=]. Qed.

Lemma wp_bind {A B} (m : M S A) (k : A -> M S B) (Q : B -> S -> Prop) s :
  wp m (fun a s1 => wp (k a) Q s1) s -> wp (bind m k) Q s.
Proof.
  intros H b s' E. unfold bind in E.
  destruct (m s) as [[a s1]| |] eqn:Em; try discriminate E.
  exact (H a s1 Em b s' E).
Qed.

Lemma wp_mono {A} (m : M S A) (Q Q' : A -> S -> Prop) s :
  wp m Q s -> (forall a s', Q a s' -> Q' a s') -> wp m Q' s.
Proof. intros H HQ a s' E. apply HQ, H, E. Qed.

Lemma wp_preserves {A X} (proj : S -> X) (m : M S A) (Q : A -> S -> Prop) s :
  preserves proj m ->
  (forall a s', proj s' = proj s -> Q a s') ->
  wp m Q s.
Proof. intros Hp HQ a s' E. apply HQ. exact (Hp s a s' E). Qed.

Lemma wp_modify (f : S -> S) (Q : unit -> S -> Prop) s :
  Q tt (f s) -> wp (modify f) Q s.
Proof. intros H a s' [= <- <-]. exact H. Qed.

(** A loop keeps what each of its iterations keeps. *)
Lemma wp_for_each {A} (xs : list A) (body : A -> M S unit) (I : S -> Prop) s :
  I s ->
  (forall x s0, In x xs -> I s0 -> wp (body x) (fun _ s1 => I s1) s0) ->
  wp (for_each xs body) (fun _ s1 => I s1) s.
Proof.
  revert s. induction xs as [|x xs IH]; intros s Hs Hbody; simpl.
  - now apply wp_ret.
  - apply wp_bind. eapply wp_mono; [apply Hbody; [now left | exact Hs]|].
    intros u s1 H1. apply IH; [exact H1|].
    intros y s0 Hy. apply Hbody. now right.
Qed.

(** The same with an invariant that knows which items are done. *)
Lemma wp_for_each_indexed {A} (xs : list A) (body : A -> M S unit)
      (I : list A -> S -> Prop) (done : list A) s :
  I done s ->
  (forall pre x s0, I (done ++ pre) s0 ->
                    wp (body x) (fun _ s1 => I ((done ++ pre) ++ [x]) s1) s0) ->
  wp (for_each xs body) (fun _ s1 => I (done ++ xs) s1) s.
Proof.
  revert done s. induction xs as [|x xs IH]; intros done s Hs Hbody; simpl.
  - apply wp_ret. now rewrite app_nil_r.
  - apply wp_bind.
    eapply wp_mono.
    { apply (Hbody [] x s). now rewrite app_nil_r. }
    intros u s1 H1. rewrite app_nil_r in H1.
    replace (done ++ x :: xs)%list with ((done ++ [x]) ++ xs)%list
      by (now rewrite <- app_assoc).
    apply IH; [exact H1|].
    intros pre y s0 H0. rewrite <- !app_assoc in *. simpl in *.
    specialize (Hbody (x :: pre) y s0 H0).
    now rewrite <- !app_assoc in Hbody.
Qed.

Lemma preserves_ret {A X} (proj : S -> X) (a : A) : preserves proj (ret a).
Proof. intros s a' s' [= _ <-]. reflexivity. Qed.

Lemma preserves_raise {A X} (proj : S -> X) e : preserves proj (@raise S A e).
Proof. intros s a s' [=]. Qed.

Lemma preserves_bind {A B X} (proj : S -> X) (m : M S A) (k : A -> M S B) :
  preserves proj m -> (forall a, preserves proj (k a)) -> preserves proj (bind m k).
Proof.
  intros Hm Hk s b s' E. unfold bind in E.
  destruct (m s) as [[a s1]| |] eqn:Em; try discriminate E.
  rewrite (Hk a s1 b s' E). exact (Hm s a s1 Em).
Qed.

Lemma preserves_if {A X} (proj : S -> X) (c : bool) (m1 m2 : M S A) :
  preserves proj m1 -> preserves proj m2 -> preserves proj (if c then m1 else m2).
Proof. now destruct c. Qed.

Lemma preserves_for_each {A X} (proj : S -> X) (xs : list A) (body : A -> M S unit) :
  (forall x, preserves proj (body x)) -> preserves proj (for_each xs body).
Proof.
  intros Hb. induction xs as [|x xs IH]; simpl.
  - apply preserves_ret.
  - apply preserves_bind; [apply Hb | intros _; exact IH].
Qed.

Lemma preserves_compose {A X Y} (proj : S -> X) (f : X -> Y) (m : M S A) :
  preserves proj m -> preserves (fun s => f (proj s)) m.
Proof. intros H s a s' E. now rewrite (H s a s' E). Qed.

Lemma post_ret {A} (I : S -> Prop) (R : A -> Prop) (a : A) :
  R a -> post I R (ret a).
Proof. intros HR s a' s' HI [= <- <-]. now split. Qed.

Lemma post_raise {A} (I : S -> Prop) (R : A -> Prop) e : post I R (raise e).
Proof. intros s a s' _ [=]. Qed.

Lemma post_bind {A B} (I : S -> Prop) (R1 : A -> Prop) (R2 : B -> Prop)
      (m : M S A) (k : A -> M S B) :
  post I R1 m -> (forall a, R1 a -> post I R2 (k a)) -> post I R2 (bind m k).
Proof.
  intros Hm Hk s b s' HI E. unfold bind in E.
  destruct (m s) as [[a s1]| |] eqn:Em; try discriminate E.
  destruct (Hm s a s1 HI Em) as [H1 Ha].
  exact (Hk a Ha s1 b s' H1 E).
Qed.

Lemma post_weaken {A} (I : S -> Prop) (R R' : A -> Prop) (m : M S A) :
  post I R m -> (forall a, R a -> R' a) -> post I R' m.
Proof. intros Hm HR s a s' HI E. destruct (Hm s a s' HI E). auto. Qed.

Lemma post_if {A} (I : S -> Prop) (R : A -> Prop) (c : bool) (m1 m2 : M S A) :
  post I R m1 -> post I R m2 -> post I R (if c then m1 else m2).
Proof. now destruct c. Qed.

Lemma post_when (I : S -> Prop) (c : bool) (m : M S unit) :
  post I any m -> post I any (when c m).
Proof. intros Hm. destruct c; [exact Hm | now apply post_ret]. Qed.

Lemma post_for_each {A} (I : S -> Prop) (xs : list A) (body : A -> M S unit) :
  (forall x, In x xs -> post I any (body x)) -> post I any (for_each xs body).
Proof.
  induction xs as [|x xs IH]; intros Hb; simpl.
  - now apply post_ret.
  - eapply post_bind; [apply Hb; now left|].
    intros _ _. apply IH. intros y Hy. apply Hb. now right.
Qed.

Lemma post_preserves {A X} (proj : S -> X) (I : S -> Prop) (m : M S A) :
  preserves proj m ->
  (forall s s', proj s' = proj s -> I s -> I s') ->
  post I any m.
Proof.
  intros Hp HI s a s' Hs E. split; [|exact Logic.I].
  exact (HI s s' (Hp s a s' E) Hs).
Qed.

Lemma post_wp {A} (I : S -> Prop) (R : A -> Prop) (m : M S A) s :
  post I R m -> I s -> wp m (fun a s' => I s' /\ R a) s.
Proof. intros Hm Hs a s' E. exact (Hm s a s' Hs E). Qed.

End Rules.

Create HintDb frame.
#[export] Hint Resolve preserves_ret preserves_raise preserves_bind preserves_if
  preserves_for_each : frame.

(** The sampling methods leave the local variables alone. *)
Section SamplingFrame.
Import Numpy Sampling.
Context {G : Type} {gen : Generator G} {L : Type}.

Lemma preserves_draw {A} (f : G -> A * G) : preserves (@snd G L) (draw f).
Proof.
  intros s a s' E. unfold draw in E.
  destruct (f (fst s)) as [x g']. now injection E as _ <-.
Qed.

Lemma preserves_rng_random : preserves (@snd G L) rng_random.
Proof. apply preserves_draw. Qed.

Lemma preserves_rng_integers lo hi : preserves (@snd G L) (rng_integers lo hi).
Proof.
  unfold rng_integers. destruct (lo <? hi);
    [apply preserves_draw | apply preserves_raise].
Qed.

Lemma preserves_check_population n p : preserves (@snd G L) (check_population n p).
Proof.
  unfold check_population. destruct n; [apply preserves_raise|].
  destruct p as [w|]; [|apply preserves_ret].
  repeat apply preserves_if;
    first [apply preserves_raise | apply preserves_ret].
Qed.

Lemma preserves_rng_choice_int n p : preserves (@snd G L) (rng_choice_int n p).
Proof.
  unfold rng_choice_int. apply preserves_bind;
    [apply preserves_check_population | intros _; apply preserves_draw].
Qed.

Lemma preserves_rng_choice {A} (xs : list A) p : preserves (@snd G L) (rng_choice xs p).
Proof.
  unfold rng_choice. destruct xs; [apply preserves_raise|].
  apply preserves_bind; [apply preserves_rng_choice_int | intros i; apply preserves_ret].
Qed.

Lemma preserves_rng_choice_sized {A} (xs : list A) size p :
  preserves (@snd G L) (rng_choice_sized xs size p).
Proof.
  unfold rng_choice_sized. destruct xs.
  - destruct size; [apply preserves_ret | apply preserves_raise].
  - apply preserves_bind; [apply preserves_check_population|]. intros _.
    apply preserves_bind; [apply preserves_draw | intros i; apply preserves_ret].
Qed.

Lemma preserves_rng_poisson lam : preserves (@snd G L) (rng_poisson lam).
Proof. apply preserves_draw. Qed.

Lemma preserves_rng_lognormal m sg : preserves (@snd G L) (rng_lognormal m sg).
Proof. apply preserves_draw. Qed.

Lemma preserves_rng_normal m sg : preserves (@snd G L) (rng_normal m sg).
Proof. apply preserves_draw. Qed.

Lemma preserves_generate_sort_code : preserves (@snd G L) generate_sort_code.
Proof. apply preserves_rng_choice. Qed.

Lemma preserves_generate_account_number : preserves (@snd G L) generate_account_number.
Proof.
  unfold generate_account_number.
  apply preserves_bind; [apply preserves_rng_integers | intros n; apply preserves_ret].
Qed.

Lemma preserves_generate_ni_number : preserves (@snd G L) generate_ni_number.
Proof.
  unfold generate_ni_number.
  repeat (apply preserves_bind;
          [first [apply preserves_rng_choice | apply preserves_rng_integers] | intros ?]).
  apply preserves_ret.
Qed.

Lemma preserves_get_counterparty t b : preserves (@snd G L) (get_counterparty t b).
Proof.
  unfold get_counterparty. destruct (String.eqb t "salary"); apply preserves_rng_choice.
Qed.

End SamplingFrame.

#[export] Hint Resolve preserves_draw preserves_rng_random preserves_rng_integers
  preserves_check_population preserves_rng_choice_int preserves_rng_choice
  preserves_rng_choice_sized preserves_rng_poisson preserves_rng_lognormal
  preserves_rng_normal preserves_generate_sort_code preserves_generate_account_number
  preserves_generate_ni_number preserves_get_counterparty : frame.

End LogicFacts.

(* ------------------------------------------------------------------ *)
(** ** The store                                                       *)
(* ------------------------------------------------------------------ *)

Module StoreFacts.
Import Store.
Local Open Scope list_scope.

Lemma combine_app_same {A B} (l1 l2 : list A) (r1 r2 : list B) :
  List.length l1 = List.length r1 ->
  combine (l1 ++ l2) (r1 ++ r2) = combine l1 r1 ++ combine l2 r2.
Proof.
  revert r1. induction l1 as [|x l1 IH]; intros [|y r1] Hlen; simpl in *;
    try discriminate; [reflexivity|].
  f_equal. apply IH. now injection Hlen.
Qed.

Lemma new_keys_length first n : List.length (new_keys first n) = n.
Proof. unfold new_keys. now rewrite length_map, length_seq. Qed.

Lemma map_seq_shift {A} (f : nat -> A) (n a m : nat) :
  map f (seq (a + n) m) = map (fun k => f (k + n)%nat) (seq a m).
Proof.
  revert a. induction m as [|m IH]; intros a; simpl; [reflexivity|].
  f_equal. apply (IH (Datatypes.S a)).
Qed.

Lemma new_keys_app first n m :
  new_keys first (n + m) = new_keys first n ++ new_keys (first + Z.of_nat n) m.
Proof.
  unfold new_keys. rewrite seq_app, map_app. f_equal.
  rewrite (map_seq_shift _ n 0 m). apply map_ext.
  intros k. lia.
Qed.

Lemma insert_batch_nil {R} (t : table R) : insert_batch t [] = t.
Proof.
  destruct t as [n r]. unfold insert_batch. simpl.
  rewrite Z.add_0_r, app_nil_r. reflexivity.
Qed.

Lemma insert_batch_app {R} (t : table R) (a b : list R) :
  insert_batch (insert_batch t a) b = insert_batch t (a ++ b).
Proof.
  unfold insert_batch. simpl. f_equal.
  - rewrite length_app, Nat2Z.inj_add. lia.
  - rewrite <- app_assoc. f_equal.
    rewrite length_app, new_keys_app.
    symmetry. apply combine_app_same. apply new_keys_length.
Qed.

Lemma fold_insert_batch {R} (cs : list (list R)) (t : table R) :
  fold_left insert_batch cs t = insert_batch t (List.concat cs).
Proof.
  revert t. induction cs as [|c cs IH]; intros t; simpl.
  - now rewrite insert_batch_nil.
  - now rewrite IH, insert_batch_app.
Qed.

Lemma concat_chunks_upto {R} (size : nat) (fuel : nat) (l : list R) :
  (0 < size)%nat -> (List.length l <= fuel)%nat ->
  List.concat (chunks_upto fuel size l) = l.
Proof.
  intros Hsize. revert l. induction fuel as [|fuel IH]; intros l Hlen.
  - destruct l; [reflexivity | simpl in Hlen; lia].
  - destruct l as [|x l]; [reflexivity|].
    cbn [chunks_upto List.concat].
    rewrite IH; [apply firstn_skipn|].
    rewrite length_skipn. lia.
Qed.

(** Splitting into batches loses nothing: [bulk_insert] appends the
    records, in order, under consecutive new keys. *)
Lemma bulk_insert_spec {R} (t : table R) (records : list R) :
  bulk_insert t records = insert_batch t records.
Proof.
  unfold bulk_insert. destruct records as [|r records].
  - now rewrite insert_batch_nil.
  - rewrite fold_insert_batch. unfold chunks.
    rewrite concat_chunks_upto; [reflexivity | | lia].
    unfold Config.BATCH_SIZE. lia.
Qed.

Lemma bulk_insert_rows {R} (t : table R) (records : list R) :
  rows (bulk_insert t records) =
  rows t ++ combine (new_keys (next_id t) (List.length records)) records.
Proof. now rewrite bulk_insert_spec. Qed.

End StoreFacts.

(* ------------------------------------------------------------------ *)
(** ** Stage: customers                                                *)
(* ------------------------------------------------------------------ *)

Module CustomersFacts.
Import Monad Logic LogicFacts Numpy Faker Sampling GenerateCustomers.
Local Open Scope list_scope.

Section Stage.
Context {G : Type} {gen : Generator G} {F : Type} {prov : Provider F}.
Variable cfg : Config.t.

(** The [records] list in the state of the stage. *)
Definition records_of (s : G * local (F:=F)) : list Customer.t := snd (snd s).

Lemma preserves_fake (f : F -> string * F) : preserves records_of (fake f).
Proof.
  intros s a s' E. unfold fake in E.
  destruct (f (fst (snd s))) as [x fk']. now injection E as _ <-.
Qed.

Lemma preserves_sampling {A} (m : stage (G:=G) (F:=F) A) :
  preserves snd m -> preserves records_of m.
Proof. intros Hm s a s' E. unfold records_of. now rewrite (Hm s a s' E). Qed.

Ltac frame :=
  repeat first
    [ apply preserves_fake
    | apply preserves_ret
    | apply preserves_raise
    | apply preserves_sampling; solve [auto with frame]
    | apply preserves_if
    | apply preserves_bind; [|intros ?] ].

Ltac keep HI :=
  apply wp_bind; eapply wp_preserves with (proj := records_of); [solve [frame]|];
  let a := fresh "v" in
  let s1 := fresh "s" in
  let Heq := fresh "Heq" in
  intros a s1 Heq; rewrite <- Heq in HI; clear Heq;
  try match goal with
      | |- context [match ?x with pair _ _ => _ end] => is_var x; destruct x
      end.

Lemma wp_append (r : Customer.t) (Q : unit -> G * local (F:=F) -> Prop) s :
  Q tt (fst s, (fst (snd s), records_of s ++ [r])) -> wp (append r) Q s.
Proof. intros HQ a s' [= <- <-]. exact HQ. Qed.

Lemma personal_customer_ok (i : Z) s :
  Forall variant_exclusive (records_of s) ->
  wp (personal_customer i) (fun _ s' => Forall variant_exclusive (records_of s')) s.
Proof.
  intros HI. unfold personal_customer.
  repeat keep HI.
  apply wp_append. unfold records_of; cbn [fst snd].
  apply Forall_app. split; [exact HI|].
  constructor; [|constructor].
  left. repeat split.
Qed.

Lemma business_customer_ok (n i : Z) s :
  Forall variant_exclusive (records_of s) ->
  wp (business_customer n i) (fun _ s' => Forall variant_exclusive (records_of s')) s.
Proof.
  intros HI. unfold business_customer.
  repeat keep HI.
  apply wp_append. unfold records_of; cbn [fst snd].
  apply Forall_app. split; [exact HI|].
  constructor; [|constructor].
  right. repeat split.
Qed.

Lemma build_records_ok s :
  Forall variant_exclusive (records_of s) ->
  wp (build_records cfg) (fun _ s' => Forall variant_exclusive (records_of s')) s.
Proof.
  intros HI. unfold build_records.
  apply wp_bind.
  eapply wp_mono.
  { apply (wp_for_each _ _ (fun s0 => Forall variant_exclusive (records_of s0))); [exact HI|].
    intros x s0 _ Hs0. now apply personal_customer_ok. }
  intros u s1 H1.
  apply (wp_for_each _ _ (fun s0 => Forall variant_exclusive (records_of s0))); [exact H1|].
  intros x s0 _ Hs0. now apply business_customer_ok.
Qed.

(** C5. Every row the customers stage adds to the customers table
    has [type] personal or business; a personal one has the company
    name, registration number and SIC code null, a business one has
    title, first and last name, date of birth, gender, nationality
    and NI number null. *)
Theorem customers_variant_exclusive (w w' : World.t F) (all_ids : list Z) :
  generate_customers cfg w = Ok (all_ids, w') ->
  exists records : list Customer.t,
    Store.rows (Store.customers (World.db w')) =
    Store.rows (Store.customers (World.db w))
    ++ combine (Store.new_keys (Store.next_id (Store.customers (World.db w)))
                               (List.length records)) records
    /\ records <> []
    /\ Forall variant_exclusive records.
Proof.
  unfold generate_customers. intros E.
  destruct (build_records cfg (default_rng (Config.SEED cfg), (World.faker w, [])))
    as [[u [g [fk records]]]| |] eqn:Eb; try discriminate E.
  assert (Hall : Forall variant_exclusive (records_of (g, (fk, records)))).
  { exact (@build_records_ok (default_rng (Config.SEED cfg), (World.faker w, []))
                             (Forall_nil _) u (g, (fk, records)) Eb). }
  unfold records_of in Hall. cbn [fst snd] in Hall.
  destruct records as [|r records]; [discriminate E|].
  apply Ok_pair_inj in E. destruct E as [_ <-].
  exists (r :: records). split; [|split; [discriminate | exact Hall]].
  cbn [World.db World.register World.set_registry World.set_faker World.set_db
       with_customers Store.customers].
  rewrite StoreFacts.bulk_insert_rows. reflexivity.
Qed.

End Stage.

Unset Implicit Arguments.

Lemma demo_customers_run :
  is_ok (generate_customers (gen := Demo.lcg) (prov := Demo.counter_faker)
           Demo.config Demo.fresh_world) = true.
Proof. vm_compute. reflexivity. Qed.

Lemma customers_variant_exclusive_witness :
  match generate_customers (gen := Demo.lcg) (prov := Demo.counter_faker)
          Demo.config Demo.fresh_world with
  | Ok (_, w') =>
      exists records : list Customer.t,
        Store.rows (Store.customers (World.db w')) =
        Store.rows (Store.customers (World.db Demo.fresh_world))
        ++ combine (Store.new_keys 1 (List.length records)) records
        /\ records <> []
        /\ Forall variant_exclusive records
  | _ => False
  end.
Proof.
  destruct (generate_customers (gen := Demo.lcg) (prov := Demo.counter_faker)
              Demo.config Demo.fresh_world) as [[ids w']| |] eqn:E.
  - exact (customers_variant_exclusive Demo.config Demo.fresh_world E).
  - pose proof demo_customers_run as Hrun. rewrite E in Hrun. discriminate Hrun.
  - pose proof demo_customers_run as Hrun. rewrite E in Hrun. discriminate Hrun.
Defined.

Set Implicit Arguments.

End CustomersFacts.

(* ------------------------------------------------------------------ *)
(** ** Stage: accounts                                                 *)
(* ------------------------------------------------------------------ *)

Module AccountsFacts.
Import Monad Logic LogicFacts Numpy Sampling GenerateAccounts.
Local Open Scope list_scope.

Lemma fold_max_ge (l : list Z) (x : Z) : x <= fold_left Z.max l x.
Proof.
  revert x. induction l as [|y l IH]; intros x; simpl; [lia|].
  specialize (IH (Z.max x y)). lia.
Qed.

Lemma fold_max_upper (l : list Z) (x y : Z) : In y l -> y <= fold_left Z.max l x.
Proof.
  revert x. induction l as [|z l IH]; intros x Hin; simpl; [destruct Hin|].
  destruct Hin as [->|Hin]; [|now apply IH].
  pose proof (fold_max_ge l (Z.max x y)). lia.
Qed.

Lemma fold_max_in (l : list Z) (x : Z) : In (fold_left Z.max l x) (x :: l).
Proof.
  revert x. induction l as [|y l IH]; intros x; simpl; [now left|].
  destruct (IH (Z.max x y)) as [E|Hin]; [|now right; right].
  destruct (Z.max_spec x y) as [[_ Hm]|[_ Hm]].
  - right. left. rewrite <- E. now symmetry.
  - left. rewrite <- E. now symmetry.
Qed.

(** [a.max()] is an element of the array and bounds the others. *)
Lemma array_max_spec (a : list Z) (m : Z) :
  array_max a = Some m -> In m a /\ forall x, In x a -> x <= m.
Proof.
  destruct a as [|x a]; [discriminate|]. intros [= <-]. split.
  - apply fold_max_in.
  - intros y [->|Hy]; [apply fold_max_ge | now apply fold_max_upper].
Qed.

Section Stage.
Context {G : Type} {gen : Generator G}.
Variable cfg : Config.t.
Variable fuel : nat.

(** The [records] list in the state of the stage. *)
Definition records_of (s : G * local) : list Account.t := fst (snd s).

Lemma preserves_sampling_acc {A} (m : stage (G:=G) A) :
  preserves snd m -> preserves records_of m.
Proof. intros Hm s a s' E. unfold records_of. now rewrite (Hm s a s' E). Qed.

Lemma preserves_get_local : preserves records_of (get_local (G:=G)).
Proof. intros s a s' [= _ <-]. reflexivity. Qed.

Lemma preserves_mark (key : string) :
  preserves records_of (modify_local (G:=G) (fun l => (fst l, key :: snd l))).
Proof. intros s a s' [= _ <-]. reflexivity. Qed.

Lemma preserves_products_of pbc cat : preserves records_of (products_of (G:=G) pbc cat).
Proof.
  unfold products_of. destruct (dict_get pbc cat);
    [apply preserves_ret | apply preserves_raise].
Qed.

Lemma preserves_make_unique_account (n : nat) :
  preserves records_of (make_unique_account n).
Proof.
  induction n as [|n IH]; [intros s a s' [=]|].
  cbn [make_unique_account].
  apply preserves_bind; [apply preserves_sampling_acc; auto with frame | intros sc].
  apply preserves_bind; [apply preserves_sampling_acc; auto with frame | intros an].
  apply preserves_bind; [apply preserves_get_local | intros l].
  apply preserves_if; [exact IH|].
  apply preserves_bind; [apply preserves_mark | intros _; apply preserves_ret].
Qed.

Ltac frame :=
  repeat first
    [ apply preserves_make_unique_account
    | apply preserves_products_of
    | apply preserves_ret
    | apply preserves_raise
    | apply preserves_sampling_acc; solve [auto with frame]
    | apply preserves_if
    | apply preserves_bind; [|intros ?] ].

Section Referenced.
(** The ids an account of a real customer may carry. *)
Variable ids : list Z.

Definition referenced (s : G * local) : Prop :=
  Forall (fun r => In (Account.customer_id r) ids) (records_of s).

Lemma post_frame {A} (m : stage (G:=G) A) :
  preserves records_of m -> post referenced any m.
Proof.
  intros Hm. apply post_preserves with (proj := records_of); [exact Hm|].
  intros s s' E. unfold referenced. now rewrite E.
Qed.

Lemma post_make_account cid pid an sc st od :
  post referenced (fun r => Account.customer_id r = cid)
       (_make_account (G:=G) cid pid an sc st od).
Proof.
  unfold _make_account.
  do 4 (eapply post_bind; [apply post_frame; solve [frame] | intros ? _]).
  now apply post_ret.
Qed.

Lemma post_append r :
  In (Account.customer_id r) ids -> post referenced any (append (G:=G) r).
Proof.
  intros Hin s a s' Hs [= _ <-]. split; [|exact I].
  unfold referenced, records_of in *. cbn [fst snd].
  apply Forall_app. split; [exact Hs | now constructor].
Qed.

Ltac walk Hcid :=
  repeat first
    [ apply post_append; congruence
    | apply post_when
    | eapply post_bind;
      [apply post_make_account
      | let r := fresh "r" in let Hr := fresh "Hr" in intros r Hr; cbv beta in Hr]
    | eapply post_bind; [apply post_append; congruence | intros ? _]
    | eapply post_bind; [apply post_when | intros ? _]
    | eapply post_bind;
      [apply post_frame; solve [frame]
      | let x := fresh "x" in intros x _;
        try match goal with
            | |- context [match x with pair _ _ => _ end] => destruct x
            end ] ].

Lemma personal_accounts_ok pbc cid :
  In cid ids -> post referenced any (personal_accounts cfg fuel pbc cid).
Proof. intros Hcid. unfold personal_accounts. walk Hcid. Qed.

Lemma business_accounts_ok pbc cid :
  In cid ids -> post referenced any (business_accounts cfg fuel pbc cid).
Proof. intros Hcid. unfold business_accounts. walk Hcid. Qed.

End Referenced.

(** What the orphan loop has appended after the indices [done]. *)
Definition orphans_after (regular : list Account.t) (mx : Z) (done : list Z)
           (s : G * local) : Prop :=
  exists orphans,
    records_of s = regular ++ orphans
    /\ map Account.customer_id orphans = map (fun i => mx + 1000 + i) done.

Ltac keep HI :=
  apply wp_bind; eapply wp_preserves with (proj := records_of); [solve [frame]|];
  let a := fresh "v" in
  let s1 := fresh "s" in
  let Heq := fresh "Heq" in
  intros a s1 Heq; rewrite <- Heq in HI; clear Heq;
  try match goal with
      | |- context [match ?x with pair _ _ => _ end] => is_var x; destruct x
      end.

Lemma orphaned_account_ok pbc regular mx done i s :
  orphans_after regular mx done s ->
  wp (orphaned_account fuel pbc mx i)
     (fun _ s' => orphans_after regular mx (done ++ [i]) s') s.
Proof.
  intros (orphans & HI & Hmap). unfold orphaned_account.
  repeat keep HI.
  intros a s' [= _ <-].
  eexists (orphans ++ [_]). unfold records_of in *. cbn [fst snd].
  split.
  - rewrite app_assoc. f_equal. exact HI.
  - rewrite !map_app, Hmap. reflexivity.
Qed.

(** The records of a run: first those of the customers registered,
    then one orphan per index, numbered from the largest customer id. *)
Lemma build_records_spec pbc personal_ids business_ids g u s' :
  build_records cfg fuel pbc personal_ids business_ids (g, ([], [])) = Ok (u, s') ->
  exists regular orphans p b,
    records_of s' = regular ++ orphans
    /\ Forall (fun r => In (Account.customer_id r) (personal_ids ++ business_ids)) regular
    /\ array_max personal_ids = Some p
    /\ array_max business_ids = Some b
    /\ map Account.customer_id orphans =
       map (fun i => Z.max p b + 1000 + i) (range (Config.ORPHANED_ACCOUNTS cfg)).
Proof.
  set (ids := personal_ids ++ business_ids).
  revert u s'. change (wp (build_records cfg fuel pbc personal_ids business_ids)
    (fun _ s' => exists regular orphans p b,
       records_of s' = regular ++ orphans
       /\ Forall (fun r => In (Account.customer_id r) ids) regular
       /\ array_max personal_ids = Some p
       /\ array_max business_ids = Some b
       /\ map Account.customer_id orphans =
          map (fun i => Z.max p b + 1000 + i) (range (Config.ORPHANED_ACCOUNTS cfg)))
    (g, ([], []))).
  unfold build_records.
  apply wp_bind. eapply wp_mono.
  { apply post_wp with (I := referenced ids) (R := any).
    - apply post_for_each. intros cid Hcid. apply personal_accounts_ok.
      apply in_or_app. now left.
    - constructor. }
  intros u1 s1 [H1 _].
  apply wp_bind. eapply wp_mono.
  { apply post_wp with (I := referenced ids) (R := any).
    - apply post_for_each. intros cid Hcid. apply business_accounts_ok.
      apply in_or_app. now right.
    - exact H1. }
  intros u2 s2 [H2 _].
  apply wp_bind. unfold max_customer_id_of.
  destruct (array_max personal_ids) as [p|]; [|apply wp_raise].
  destruct (array_max business_ids) as [b|]; [|apply wp_raise].
  apply wp_ret.
  eapply wp_mono.
  { apply (wp_for_each_indexed (range (Config.ORPHANED_ACCOUNTS cfg))
             (orphaned_account fuel pbc (Z.max p b))
             (orphans_after (records_of s2) (Z.max p b)) []).
    - exists []. now rewrite app_nil_r.
    - intros pre i s0 H0. apply orphaned_account_ok. exact H0. }
  intros u3 s3 (orphans & Hrec & Hmap).
  exists (records_of s2), orphans, p, b. repeat split; auto.
Qed.

End Stage.

Section Run.
Context {G : Type} {gen : Generator G} {F : Type}.
Variable cfg : Config.t.
Variable fuel : nat.

Lemma resolves_true (d : Store.database) (r : Account.t) :
  resolves d r = true <-> In (Account.customer_id r) (customer_ids d).
Proof.
  unfold resolves. rewrite existsb_exists. split.
  - intros (c & Hin & E). apply Z.eqb_eq in E. now subst c.
  - intros Hin. exists (Account.customer_id r). split; [exact Hin | apply Z.eqb_refl].
Qed.

Lemma resolves_false (d : Store.database) (r : Account.t) :
  resolves d r = false <-> ~ In (Account.customer_id r) (customer_ids d).
Proof.
  rewrite <- resolves_true. destruct (resolves d r); split; congruence.
Qed.

Lemma filter_none {A} (f : A -> bool) (l : list A) :
  (forall x, In x l -> f x = false) -> filter f l = [].
Proof.
  induction l as [|x l IH]; intros Hf; simpl; [reflexivity|].
  rewrite (Hf x (or_introl eq_refl)). apply IH. intros y Hy. apply Hf. now right.
Qed.

Lemma filter_all {A} (f : A -> bool) (l : list A) :
  (forall x, In x l -> f x = true) -> filter f l = l.
Proof.
  induction l as [|x l IH]; intros Hf; simpl; [reflexivity|].
  rewrite (Hf x (or_introl eq_refl)). f_equal. apply IH. intros y Hy. apply Hf. now right.
Qed.

(** A run that returns has read both id sets, built its records, and
    left the database and the registry as follows. *)
Lemma generate_accounts_inv (w w' : World.t F) (all_ids : list Z) :
  generate_accounts cfg fuel w = Ok (all_ids, w') ->
  exists personal_ids business_ids records,
    get_id_list (World.registry w) "personal_customer_ids" = Ok personal_ids
    /\ get_id_list (World.registry w) "business_customer_ids" = Ok business_ids
    /\ generated_records cfg fuel (World.db w) personal_ids business_ids = Ok records
    /\ w' = register_accounts (select_accounts (database_after (World.db w) records))
                              (World.set_db (database_after (World.db w) records) w).
Proof.
  unfold generate_accounts. intros E.
  destruct (get_id_list (World.registry w) "personal_customer_ids")
    as [personal_ids| |]; try discriminate E.
  destruct (get_id_list (World.registry w) "business_customer_ids")
    as [business_ids| |]; try discriminate E.
  destruct (generated_records cfg fuel (World.db w) personal_ids business_ids)
    as [records| |] eqn:Eg; try discriminate E.
  unfold insert_accounts in E.
  cbn [drop_fkey with_accounts Store.accounts_customer_id_fkey Store.accounts andb] in E.
  apply Ok_pair_inj in E. destruct E as [_ <-].
  exists personal_ids, business_ids, records. repeat split. exact Eg.
Qed.

Lemma db_register_accounts rows (w : World.t F) :
  World.db (register_accounts rows w) = World.db w.
Proof. reflexivity. Qed.

(** Whatever the rows, the filter on the second column keeps none. *)
Lemma registered_active_ids rows (w : World.t F) :
  IDRegistry.lookup (World.registry (register_accounts rows w)) "active_account_ids"
  = Some (IDRegistry.Ids []).
Proof.
  unfold register_accounts.
  cbn [World.registry World.register World.set_registry].
  rewrite IDRegistryFacts.lookup_register_other by discriminate.
  rewrite IDRegistryFacts.lookup_register_same.
  rewrite filter_none; [reflexivity|].
  intros [[[c0 c1] c2] c3] _. reflexivity.
Qed.

(** C1. When the registry holds the ids of the persisted customers,
    the rows the accounts stage adds are, in order, the accounts of
    registered customers, each resolving to a customer row, followed
    by the orphans, one per index [i] below [ORPHANED_ACCOUNTS], whose
    customer id is [max_customer_id + 1000 + i] for the largest
    customer id; the added rows without a customer are exactly the
    orphans. *)
Theorem accounts_reference_customers (w w' : World.t F) (all_ids : list Z) :
  registry_consistent w ->
  generate_accounts cfg fuel w = Ok (all_ids, w') ->
  exists (regular orphans : list Account.t) (max_customer_id : Z),
    Store.rows (Store.accounts (World.db w')) =
      Store.rows (Store.accounts (World.db w))
      ++ combine (Store.new_keys (Store.next_id (Store.accounts (World.db w)))
                                 (List.length (regular ++ orphans)))
                 (regular ++ orphans)
    /\ customer_ids (World.db w') = customer_ids (World.db w)
    /\ In max_customer_id (customer_ids (World.db w))
    /\ (forall c, In c (customer_ids (World.db w)) -> c <= max_customer_id)
    /\ forallb (resolves (World.db w')) regular = true
    /\ map Account.customer_id orphans =
       map (fun i => max_customer_id + 1000 + i) (range (Config.ORPHANED_ACCOUNTS cfg))
    /\ dangling (World.db w') (regular ++ orphans) = orphans
    /\ List.length (dangling (World.db w') (regular ++ orphans))
       = Z.to_nat (Config.ORPHANED_ACCOUNTS cfg).
Proof.
  intros Hreg E.
  destruct (generate_accounts_inv _ E)
    as (personal_ids & business_ids & records & Ep & Eb & Eg & ->).
  specialize (Hreg personal_ids business_ids Ep Eb).
  unfold generated_records in Eg.
  destruct (build_records cfg fuel (group_products (Store.products (World.db w)))
              personal_ids business_ids (default_rng (Config.SEED cfg + 10), ([], [])))
    as [[u [g [recs used]]]| |] eqn:Ebuild; try discriminate Eg.
  injection Eg as <-.
  destruct (build_records_spec _ _ _ _ _ _ Ebuild)
    as (regular & orphans & p & b & Hrec & Hregular & Hp & Hb & Horph).
  unfold records_of in Hrec. cbn [fst snd] in Hrec. subst recs.
  apply array_max_spec in Hp, Hb. destruct Hp as [Hpin Hpmax], Hb as [Hbin Hbmax].
  assert (Hmax_in : In (Z.max p b) (customer_ids (World.db w))).
  { apply Hreg. destruct (Z.max_spec p b) as [[_ ->]|[_ ->]]; auto. }
  assert (Hmax_ub : forall c, In c (customer_ids (World.db w)) -> c <= Z.max p b).
  { intros c Hc. apply Hreg in Hc. destruct Hc as [Hc|Hc].
    - specialize (Hpmax c Hc). lia.
    - specialize (Hbmax c Hc). lia. }
  set (d' := database_after (World.db w) (regular ++ orphans)) in *.
  assert (Hcust : customer_ids d' = customer_ids (World.db w)) by reflexivity.
  assert (Hres : forall r, In r regular -> resolves d' r = true).
  { intros r Hr. apply resolves_true. rewrite Hcust. apply Hreg.
    rewrite Forall_forall in Hregular. apply in_app_or. now apply Hregular. }
  assert (Hdang : forall r, In r orphans -> resolves d' r = false).
  { intros r Hr. apply resolves_false. rewrite Hcust. intros Hin.
    apply Hmax_ub in Hin.
    assert (Hc : In (Account.customer_id r) (map Account.customer_id orphans))
      by now apply in_map.
    rewrite Horph in Hc. apply in_map_iff in Hc. destruct Hc as (i & Hi & Hrange).
    unfold range in Hrange. apply in_map_iff in Hrange.
    destruct Hrange as (k & <- & _). lia. }
  assert (Hfilter : dangling d' (regular ++ orphans) = orphans).
  { unfold dangling. rewrite filter_app.
    rewrite filter_none, filter_all; [reflexivity| |].
    - intros r Hr. now rewrite (Hdang r Hr).
    - intros r Hr. now rewrite (Hres r Hr). }
  exists regular, orphans, (Z.max p b).
  rewrite db_register_accounts. cbn [World.db World.set_db]. fold d'.
  split; [|split; [|split; [|split; [|split; [|split; [|split]]]]]].
  - unfold d', database_after, add_fkey_not_valid.
    cbn [with_accounts Store.accounts].
    now rewrite StoreFacts.bulk_insert_rows.
  - exact Hcust.
  - exact Hmax_in.
  - exact Hmax_ub.
  - apply forallb_forall. exact Hres.
  - exact Horph.
  - exact Hfilter.
  - rewrite Hfilter. rewrite <- (length_map Account.customer_id), Horph.
    unfold range. now rewrite !length_map, length_seq.
Qed.

(** Every run that returns registers the empty list under
    ['active_account_ids']: the comprehension tests the customer id, an
    int, against two status strings. *)
Lemma active_account_ids_always_empty (w w' : World.t F) (all_ids : list Z) :
  generate_accounts cfg fuel w = Ok (all_ids, w') ->
  IDRegistry.get_ids (World.registry w') "active_account_ids" = Ok (IDRegistry.Ids []).
Proof.
  intros E.
  destruct (generate_accounts_inv _ E) as (pids & bids & records & _ & _ & _ & ->).
  unfold IDRegistry.get_ids. now rewrite registered_active_ids.
Qed.

End Run.

Lemma existsb_eqb_in (c : Z) (l : list Z) : existsb (Z.eqb c) l = true <-> In c l.
Proof.
  rewrite existsb_exists. split.
  - intros (x & Hin & E). apply Z.eqb_eq in E. now subst x.
  - intros Hin. exists c. split; [exact Hin | apply Z.eqb_refl].
Qed.

Lemma registry_consistentb_sound {F : Type} (w : World.t F) :
  registry_consistentb w = true -> registry_consistent w.
Proof.
  unfold registry_consistentb, registry_consistent.
  intros Hb pids bids Ep Eb c. rewrite Ep, Eb in Hb.
  apply andb_true_iff in Hb. destruct Hb as [H1 H2].
  rewrite forallb_forall in H1, H2. split.
  - intros Hc. specialize (H1 c Hc). apply orb_true_iff in H1.
    now rewrite !existsb_eqb_in in H1.
  - intros Hc. apply existsb_eqb_in, H2, in_or_app. exact Hc.
Qed.

Unset Implicit Arguments.

Lemma demo_registry_check : registry_consistentb DemoRun.after_customers = true.
Proof. vm_compute. reflexivity. Qed.

Lemma demo_registry_consistent : registry_consistent DemoRun.after_customers.
Proof. apply registry_consistentb_sound. exact demo_registry_check. Qed.

Lemma demo_accounts_run :
  is_ok (generate_accounts (gen := Demo.lcg) Demo.config 10 DemoRun.after_customers) = true.
Proof. vm_compute. reflexivity. Qed.

Lemma accounts_reference_customers_witness :
  registry_consistent DemoRun.after_customers
  /\ match generate_accounts (gen := Demo.lcg) Demo.config 10 DemoRun.after_customers with
     | Ok (_, w') =>
         exists (regular orphans : list Account.t) (max_customer_id : Z),
           Store.rows (Store.accounts (World.db w')) =
             Store.rows (Store.accounts (World.db DemoRun.after_customers))
             ++ combine (Store.new_keys
                           (Store.next_id (Store.accounts (World.db DemoRun.after_customers)))
                           (List.length (regular ++ orphans)))
                        (regular ++ orphans)
           /\ customer_ids (World.db w') = customer_ids (World.db DemoRun.after_customers)
           /\ In max_customer_id (customer_ids (World.db DemoRun.after_customers))
           /\ (forall c, In c (customer_ids (World.db DemoRun.after_customers))
                         -> c <= max_customer_id)
           /\ forallb (resolves (World.db w')) regular = true
           /\ map Account.customer_id orphans =
              map (fun i => max_customer_id + 1000 + i)
                  (range (Config.ORPHANED_ACCOUNTS Demo.config))
           /\ dangling (World.db w') (regular ++ orphans) = orphans
           /\ List.length (dangling (World.db w') (regular ++ orphans))
              = Z.to_nat (Config.ORPHANED_ACCOUNTS Demo.config)
     | _ => False
     end.
Proof.
  split; [exact demo_registry_consistent|].
  destruct (generate_accounts (gen := Demo.lcg) Demo.config 10 DemoRun.after_customers)
    as [[ids w']| |] eqn:E.
  - exact (accounts_reference_customers Demo.config 10 demo_registry_consistent E).
  - pose proof demo_accounts_run as Hrun. rewrite E in Hrun. discriminate Hrun.
  - pose proof demo_accounts_run as Hrun. rewrite E in Hrun. discriminate Hrun.
Defined.

(** C10, at a run of the stage. The demo run persists nine accounts,
    all of status active, and registers no id at all under
    ['active_account_ids']. *)
Theorem active_account_ids_registered_empty :
  match generate_accounts (gen := Demo.lcg) Demo.config 10 DemoRun.after_customers with
  | Ok (_, w') =>
      IDRegistry.get_ids (World.registry w') "active_account_ids" = Ok (IDRegistry.Ids [])
      /\ active_or_in_arrears (World.db w') = [1; 2; 3; 4; 5; 6; 7; 8; 9]
  | _ => False
  end.
Proof. vm_compute. split; reflexivity. Qed.

Set Implicit Arguments.

End AccountsFacts.

(* ------------------------------------------------------------------ *)
(** ** Stage: transactions                                             *)
(* ------------------------------------------------------------------ *)

Module TransactionsFacts.
Import Monad Logic LogicFacts Numpy Sampling GenerateTransactions.
Local Open Scope list_scope.

(** *** The arithmetic of an amount *)

Lemma round_nonneg (q : Q) : (0 <= q)%Q -> 0 <= round q.
Proof.
  intros Hq. unfold round.
  assert (Hf : 0 <= Qfloor q).
  { change 0 with (Qfloor 0). now apply Qfloor_resp_le. }
  destruct (Qcompare (q - inject_Z (Qfloor q)) (1 # 2)); [destruct (Z.even _)| |]; lia.
Qed.

Lemma round2_nonneg (q : Q) : (0 <= q)%Q -> (0 <= round2 q)%Q.
Proof.
  intros Hq. unfold round2.
  assert (H : 0 <= round (q * 100)).
  { apply round_nonneg. apply Qmult_le_0_compat; [exact Hq | discriminate]. }
  unfold Qle. simpl. lia.
Qed.

Lemma Qmin_spec (a b : Q) : (Qmin a b <= a /\ Qmin a b <= b /\ (Qmin a b == a \/ Qmin a b == b))%Q.
Proof.
  unfold Qmin. destruct (Qle_bool a b) eqn:E.
  - apply Qle_bool_iff in E. repeat split; [apply Qle_refl | exact E | left; reflexivity].
  - assert (Hba : (b <= a)%Q).
    { destruct (Qlt_le_dec b a) as [H|H]; [now apply Qlt_le_weak|].
      apply Qle_bool_iff in H. congruence. }
    repeat split; [exact Hba | apply Qle_refl | right; reflexivity].
Qed.

(** After rounding and capping, an amount is within [0, 500000]. *)
Lemma capped_amount_range (x : Q) :
  (0 <= x)%Q -> (0 <= Qmin (round2 x) 500000 /\ Qmin (round2 x) 500000 <= 500000)%Q.
Proof.
  intros Hx. pose proof (round2_nonneg Hx) as Hr.
  destruct (Qmin_spec (round2 x) 500000) as (H1 & H2 & [E|E]); split; try exact H2.
  - now rewrite E.
  - rewrite E. discriminate.
Qed.

(** The clamp of the ATM branch yields a multiple of 10 in [10, 500]. *)
Lemma atm_clamp (k : Z) :
  exists m : Z, Z.max 10 (Z.min (k * 10) 500) = 10 * m /\ 1 <= m <= 50.
Proof.
  exists (Z.max 1 (Z.min k 50)). lia.
Qed.

Lemma inject_Z_range (z lo hi : Z) :
  lo <= z <= hi -> (inject_Z lo <= inject_Z z /\ inject_Z z <= inject_Z hi)%Q.
Proof. intros [H1 H2]. split; rewrite <- Zle_Qle; assumption. Qed.

(** What lines 139 to 145 make of a draw that is not negative: an
    amount within [0, 500000], and for an ATM withdrawal a multiple of
    10 from 10 to 500. *)
Lemma drawn_amount_range txn_type (x : Q) :
  (0 <= x)%Q ->
  (0 <= drawn_amount txn_type x /\ drawn_amount txn_type x <= 500000)%Q
  /\ (txn_type = "atm_withdrawal" ->
      exists m : Z, drawn_amount txn_type x = inject_Z (10 * m) /\ 1 <= m <= 50).
Proof.
  intros Hx. unfold drawn_amount. destruct (String.eqb txn_type "atm_withdrawal") eqn:E.
  - destruct (atm_clamp (round (Qmin (round2 x) 500000 / 10))) as (m & -> & Hm).
    split.
    + assert (H : 0 <= 10 * m <= 500000) by lia.
      apply inject_Z_range in H. exact H.
    + intros _. exists m. split; [reflexivity | exact Hm].
  - split; [now apply capped_amount_range|].
    intros ->. discriminate E.
Qed.

Lemma signed_zero txn_type : (signed txn_type 0 == 0)%Q.
Proof. unfold signed. destruct (negb _); reflexivity. Qed.

Lemma signed_range txn_type (a : Q) :
  (0 <= a /\ a <= 500000)%Q -> Qabs_le (signed txn_type a) 500000.
Proof.
  intros [H0 H1]. unfold Qabs_le, signed. destruct (negb _).
  - split; [now apply Qopp_le_compat|].
    apply Qle_trans with 0%Q; [|discriminate].
    change 0%Q with (- 0)%Q. now apply Qopp_le_compat.
  - split; [|exact H1]. apply Qle_trans with 0%Q; [discriminate | exact H0].
Qed.

Lemma signed_atm txn_type (m : Z) :
  1 <= m <= 50 -> atm_amount_ok (signed txn_type (inject_Z (10 * m))).
Proof.
  intros Hm. unfold signed. destruct (negb _).
  - exists (- m). split; [|lia].
    replace (10 * - m) with (- (10 * m)) by lia. now rewrite inject_Z_opp.
  - exists m. split; [reflexivity | lia].
Qed.

Section Amounts.
Context {G : Type} {gen : Generator G}.

(** A transaction picked for the defect has amount zero. *)
Lemma injection_zero (t : Transaction.t) :
  injection G t true -> is_zero_amount t = true.
Proof.
  unfold injection, is_zero_amount. intros ->. apply Qeq_bool_iff, signed_zero.
Qed.

(** With draws that are not negative, the amount of a transaction
    obeys the rules of its type. *)
Lemma injection_amount (t : Transaction.t) (picked : bool) :
  lognormal_nonneg G -> injection G t picked -> amount_as_generated t picked.
Proof.
  intros Hlaw. unfold injection, amount_as_generated. destruct picked.
  - intros ->. pose proof (signed_zero (Transaction.txn_type t)) as Hz. split.
    + unfold Qabs_le. rewrite Hz. split; discriminate.
    + intros _. exact Hz.
  - intros (g & ->).
    match goal with
    | |- context [drawn_amount ?ty ?x] =>
        destruct (@drawn_amount_range ty x) as [Hrange Hatm]; [apply Hlaw|]
    end.
    split; [now apply signed_range|].
    intros Ht. destruct (Hatm Ht) as (m & -> & Hm). now apply signed_atm.
Qed.

Lemma picks_snoc (picked : list bool) (p : bool) :
  picks (picked ++ [p]) = picks picked + (if p then 1 else 0).
Proof.
  unfold picks. rewrite filter_app, length_app. destruct p; cbn [filter List.length]; lia.
Qed.

(** The transactions picked are among those of amount zero. *)
Lemma picks_le_zero_amounts (new : list Transaction.t) (picked : list bool) :
  Forall2 (injection G) new picked ->
  picks picked <= Z.of_nat (List.length (filter is_zero_amount new)).
Proof.
  unfold picks. induction 1 as [|t p new picked Ht _ IH]; [cbn; lia|].
  cbn [filter]. destruct p.
  - rewrite (injection_zero Ht). cbn [List.length]. lia.
  - destruct (is_zero_amount t); cbn [List.length]; lia.
Qed.

End Amounts.

Lemma map_snd_combine {A B} (ks : list A) (rs : list B) :
  List.length ks = List.length rs -> map snd (combine ks rs) = rs.
Proof.
  revert rs. induction ks as [|k ks IH]; intros [|r rs] Hlen; simpl in *;
    try discriminate; [reflexivity|].
  f_equal. apply IH. now injection Hlen.
Qed.

Section Stage.
Context {G : Type} {gen : Generator G}.
Variable cfg : Config.t.

Lemma preserves_view_sampling {A} (m : stage (G:=G) A) :
  preserves snd m -> preserves view m.
Proof. intros Hm s a s' E. unfold view, emitted, zero_count. now rewrite (Hm s a s' E). Qed.

Lemma preserves_view_get_local : preserves view (get_local (G:=G) (L:=local)).
Proof. intros s a s' [= _ <-]. reflexivity. Qed.

Lemma preserves_view_item {A} (xs : list A) i : preserves view (item (G:=G) xs i).
Proof.
  unfold item. destruct (nth_error xs (Z.to_nat i));
    [apply preserves_ret | apply preserves_raise].
Qed.

Lemma preserves_view_count_txn : preserves view (count_txn (G:=G)).
Proof. intros s a s' [= _ <-]. reflexivity. Qed.

Lemma preserves_view_flush : preserves view (flush (G:=G)).
Proof.
  intros s a s' [= _ <-]. unfold view, emitted, zero_count. cbn [fst snd all_records table
    zero_amount_inserted].
  rewrite StoreFacts.bulk_insert_rows, map_app, app_nil_r.
  rewrite map_snd_combine; [reflexivity | apply StoreFacts.new_keys_length].
Qed.

Lemma preserves_draw_channel txn_type : preserves snd (draw_channel (G:=G) txn_type).
Proof.
  unfold draw_channel.
  repeat first [ apply preserves_ret | apply preserves_if
               | apply preserves_bind; [|intros ?] | solve [auto with frame] ].
Qed.

Lemma wp_draw {A L} (f : G -> A * G) (Q : A -> G * L -> Prop) (s : G * L) :
  Q (fst (f (fst s))) (snd (f (fst s)), snd s) -> wp (draw f) Q s.
Proof.
  intros HQ a s' E. unfold draw in E. destruct (f (fst s)) as [x g'].
  injection E as <- <-. exact HQ.
Qed.

Lemma wp_get_local {L} (Q : L -> G * L -> Prop) (s : G * L) :
  Q (snd s) s -> wp get_local Q s.
Proof. intros HQ a s' [= <- <-]. exact HQ. Qed.

Lemma wp_modify_local {L} (f : L -> L) (Q : unit -> G * L -> Prop) (s : G * L) :
  Q tt (fst s, f (snd s)) -> wp (modify_local f) Q s.
Proof. intros HQ a s' [= <- <-]. exact HQ. Qed.

(** The amount of a transaction: what was emitted is untouched, and
    either the transaction was picked for the defect, below the target,
    its amount is 0 and the counter went up by one, or it was not, its
    amount is made of its lognormal draw and the counter stayed. *)
Lemma wp_draw_amount txn_type (Q : Q -> G * local -> Prop) (s : G * local) :
  (forall a s1 (picked : bool),
      view s1 = (emitted s, zero_count s1) ->
      (if picked
       then a = signed txn_type 0
            /\ zero_count s1 = zero_count s + 1
            /\ zero_count s < Config.ZERO_AMOUNT_TXNS cfg
       else (exists g : G,
                a = signed txn_type
                      (drawn_amount txn_type
                         (fst (lognormal
                                 (fst (dict_get_default AMOUNT_PARAMS txn_type (4, 8 # 10)%Q))
                                 (snd (dict_get_default AMOUNT_PARAMS txn_type (4, 8 # 10)%Q))
                                 g))))
            /\ zero_count s1 = zero_count s) ->
      Q a s1) ->
  wp (draw_amount cfg txn_type) Q s.
Proof.
  intros HQ. unfold draw_amount.
  destruct (dict_get_default AMOUNT_PARAMS txn_type (4, 8 # 10)%Q) as [mean std].
  cbn [fst snd] in HQ.
  apply wp_bind. unfold rng_lognormal. apply wp_draw.
  assert (Hdrawn : exists g : G,
            signed txn_type
              (if String.eqb txn_type "atm_withdrawal"
               then inject_Z (Z.max 10 (Z.min (round (Qmin (round2
                      (fst (lognormal mean std (fst s)))) 500000 / 10) * 10) 500))
               else Qmin (round2 (fst (lognormal mean std (fst s)))) 500000)
            = signed txn_type (drawn_amount txn_type (fst (lognormal mean std g)))).
  { exists (fst s). reflexivity. }
  set (x := fst (lognormal mean std (fst s))) in *.
  set (s1 := (snd (lognormal mean std (fst s)), snd s)).
  set (drawn := if String.eqb txn_type "atm_withdrawal"
                then inject_Z (Z.max 10 (Z.min (round (Qmin (round2 x) 500000 / 10) * 10) 500))
                else Qmin (round2 x) 500000) in *.
  apply wp_bind. apply wp_get_local.
  apply wp_bind.
  destruct (zero_amount_inserted (snd s1) <? Config.ZERO_AMOUNT_TXNS cfg) eqn:Elt.
  - apply Z.ltb_lt in Elt.
    apply wp_bind. unfold rng_random. apply wp_draw.
    destruct (Qltb (fst (random (fst s1))) (1 # 10000)).
    + apply wp_bind. unfold count_zero. apply wp_modify_local.
      apply wp_ret. apply wp_ret. apply (HQ _ _ true).
      * reflexivity.
      * repeat split. exact Elt.
    + apply wp_ret. apply wp_ret. apply (HQ _ _ false).
      * reflexivity.
      * split; [exact Hdrawn | reflexivity].
  - apply wp_ret. apply wp_ret. apply (HQ _ _ false).
    + reflexivity.
    + split; [exact Hdrawn | reflexivity].
Qed.

Ltac frame_txn :=
  repeat first
    [ apply preserves_view_item
    | apply preserves_view_get_local
    | apply preserves_view_count_txn
    | apply preserves_view_flush
    | apply preserves_ret
    | apply preserves_raise
    | apply preserves_view_sampling;
      solve [auto with frame | apply preserves_draw_channel]
    | apply preserves_if
    | apply preserves_bind; [|intros ?] ].

Ltac keep_txn HI :=
  apply wp_bind; eapply wp_preserves with (proj := view); [solve [frame_txn]|];
  let a := fresh "v" in
  let s1 := fresh "s" in
  let Heq := fresh "Heq" in
  intros a s1 Heq; rewrite <- Heq in HI; clear Heq.

Lemma injecting_view old (s s' : G * local) :
  view s' = view s -> injecting cfg old s -> injecting cfg old s'.
Proof.
  unfold view. intros [= He Hz] (new & picked & H1 & H2 & H3 & H4).
  exists new, picked. rewrite He, Hz. auto.
Qed.

(** One transaction: one more record, picked or not, and the
    invariant holds again. *)
Lemma transaction_ok old account_id is_business txn_types txn_dates i s :
  injecting cfg old s ->
  wp (transaction cfg account_id is_business txn_types txn_dates i)
     (fun _ s' => injecting cfg old s') s.
Proof.
  intros (new & picked & He & Hall & Hcount & Hmax). unfold transaction.
  assert (HV : view s = (old ++ new, zero_count s)) by (unfold view; now rewrite He).
  do 2 keep_txn HV.
  apply wp_bind. apply wp_draw_amount. intros a s2 p Hview Hpick.
  unfold view in HV. injection HV as He2 Hz2.
  rewrite He2 in Hview. rewrite Hz2 in Hpick. clear He2 Hz2.
  repeat keep_txn Hview.
  apply wp_bind. unfold append. apply wp_modify_local.
  unfold count_txn. apply wp_modify_local.
  unfold view in Hview. injection Hview as Hem Hzc.
  unfold emitted in Hem.
  cbn [fst snd all_records table total_txns zero_amount_inserted].
  match goal with
  | |- injecting _ _ (_, mkLocal (_ ++ [?r]) _ _ _) =>
      exists (new ++ [r]), (picked ++ [p]); set (t := r)
  end.
  unfold emitted, zero_count in *. cbn [fst snd all_records table zero_amount_inserted].
  rewrite app_assoc, Hem, <- !app_assoc.
  split; [reflexivity|].
  assert (Hinj : injection G t p).
  { unfold injection, t. cbn [Transaction.amount Transaction.txn_type].
    destruct p; [exact (proj1 Hpick) | exact (proj1 Hpick)]. }
  split; [apply Forall2_app; [exact Hall | constructor; [exact Hinj | constructor]]|].
  rewrite picks_snoc, Hzc.
  destruct p.
  - destruct Hpick as (_ & -> & Hlt). split; lia.
  - destruct Hpick as (_ & ->). split; lia.
Qed.

Lemma account_transactions_ok old dates a s :
  injecting cfg old s ->
  wp (account_transactions cfg dates a) (fun _ s' => injecting cfg old s') s.
Proof.
  intros HI. destruct a as [[[[account_id customer_id] status] product_cat] c4].
  unfold account_transactions.
  apply wp_bind. eapply wp_preserves with (proj := view); [solve [frame_txn]|].
  intros k s1 Heq. apply (injecting_view Heq) in HI.
  destruct (Z.max 1 k =? 0); [now apply wp_ret|].
  apply wp_bind. eapply wp_preserves with (proj := view); [solve [frame_txn]|].
  intros txn_types s2 Heq2. apply (injecting_view Heq2) in HI.
  apply wp_bind. eapply wp_preserves with (proj := view); [solve [frame_txn]|].
  intros chosen s3 Heq3. apply (injecting_view Heq3) in HI.
  apply wp_bind. eapply wp_mono.
  { apply (wp_for_each _ _ (injecting cfg old)); [exact HI|].
    intros i s0 _ H0. now apply transaction_ok. }
  intros u s4 H4.
  apply wp_bind. apply wp_get_local.
  destruct (50000 <=? Z.of_nat (List.length (all_records (snd s4)))).
  - eapply wp_preserves with (proj := view); [apply preserves_view_flush|].
    intros u' s5 Heq5. exact (injecting_view Heq5 H4).
  - now apply wp_ret.
Qed.

(** The whole loop, and nothing left unwritten at the end. *)
Lemma build_records_ok_txn old accounts s :
  injecting cfg old s ->
  wp (build_records cfg accounts)
     (fun _ s' => injecting cfg old s' /\ all_records (snd s') = []) s.
Proof.
  intros HI. unfold build_records.
  apply wp_bind. eapply wp_mono.
  { apply (wp_for_each _ _ (injecting cfg old)); [exact HI|].
    intros a s0 _ H0. now apply account_transactions_ok. }
  intros u s1 H1.
  apply wp_bind. apply wp_get_local.
  destruct (all_records (snd s1)) eqn:Erec.
  - apply wp_ret. split; assumption.
  - intros u' s2 E. split.
    + exact (injecting_view (preserves_view_flush E) H1).
    + unfold flush, modify_local in E. now injection E as _ <-.
Qed.

End Stage.

Section Run.
Context {G : Type} {gen : Generator G} {F : Type}.
Variable cfg : Config.t.

(** What a run that returns has added and counted: each added
    transaction was or was not picked for the zero-amount defect, and
    the count the run reports is the number of those picked. *)
Lemma generate_transactions_spec (w w' : World.t F) (rep : report) :
  generate_transactions cfg w = Ok (rep, w') ->
  exists picked : list bool,
    Forall2 (injection G) (added_rows w w') picked
    /\ zero_amount_issues rep = picks picked
    /\ zero_amount_issues rep <= Z.max 0 (Config.ZERO_AMOUNT_TXNS cfg).
Proof.
  unfold generate_transactions. intros E.
  destruct (build_records cfg (select_active_accounts (World.db w)) (initial cfg (World.db w)))
    as [[u [g l]]| |] eqn:Eb; try discriminate E.
  apply Ok_pair_inj in E. destruct E as [<- <-].
  set (old := map snd (Store.rows (Store.transactions (World.db w)))).
  assert (Hinit : injecting cfg old (initial cfg (World.db w))).
  { exists [], []. unfold emitted, zero_count, initial.
    cbn [fst snd all_records table zero_amount_inserted].
    rewrite !app_nil_r. repeat split; [constructor | lia]. }
  destruct (build_records_ok_txn (select_active_accounts (World.db w)) Hinit Eb)
    as [(new & picked & He & Hall & Hcount & Hmax) Hrec].
  unfold emitted, zero_count in *. cbn [fst snd] in *.
  rewrite Hrec, app_nil_r in He.
  assert (Hadded : added_rows w (World.set_db (with_transactions (World.db w) (table l)) w)
                   = new).
  { unfold added_rows. cbn [World.db World.set_db with_transactions Store.transactions].
    rewrite He. rewrite <- (length_map snd). fold old.
    rewrite skipn_app, skipn_all, Nat.sub_diag. reflexivity. }
  rewrite Hadded. cbn [zero_amount_issues]. exists picked. auto.
Qed.

(** C3, as the code has it. With lognormal draws that are not
    negative, every transaction a run adds has an amount of absolute
    value at most 500000, and an ATM withdrawal is recorded as 0 when it
    was picked for the zero-amount defect and otherwise as a multiple of
    10 whose absolute value is within [10, 500]. Picked means that the
    lines of the defect ran for the transaction: there is one flag per
    added transaction, in order, such that a flagged transaction has the
    amount 0, a transaction that is not flagged has the amount made of
    its lognormal draw, and the flagged ones are as many as the defects
    the run reports. *)
Theorem amounts_as_generated (w w' : World.t F) (rep : report) :
  lognormal_nonneg G ->
  generate_transactions cfg w = Ok (rep, w') ->
  exists picked : list bool,
    Forall2 (injection G) (added_rows w w') picked
    /\ zero_amount_issues rep = picks picked
    /\ Forall2 amount_as_generated (added_rows w w') picked.
Proof.
  intros Hlaw E. destruct (generate_transactions_spec w E) as (picked & Hall & Hcount & _).
  exists picked. split; [exact Hall|]. split; [exact Hcount|].
  clear Hcount. induction Hall as [|t p new picked' Ht _ IH]; constructor.
  - now apply injection_amount.
  - exact IH.
Qed.

(** C4. For a target that is not negative, whatever the draws: the
    count of zero-amount defects a run reports is the number of
    transactions it picked for the defect, and it is between 0 and the
    target. A transaction is picked while its record is built, in the
    loop: lines 149 and 150 give it the amount 0 and add one to the
    count; a transaction that is not picked has the amount made of its
    lognormal draw and leaves the count alone. So each unit of the count
    is a transaction of amount zero among those the run wrote. *)
Theorem zero_amount_count_bounded (w w' : World.t F) (rep : report) :
  0 <= Config.ZERO_AMOUNT_TXNS cfg ->
  generate_transactions cfg w = Ok (rep, w') ->
  exists picked : list bool,
    Forall2 (injection G) (added_rows w w') picked
    /\ zero_amount_issues rep = picks picked
    /\ 0 <= zero_amount_issues rep <= Config.ZERO_AMOUNT_TXNS cfg
    /\ zero_amount_issues rep
       <= Z.of_nat (List.length (filter is_zero_amount (added_rows w w'))).
Proof.
  intros Htarget E.
  destruct (generate_transactions_spec w E) as (picked & Hall & Hcount & Hmax).
  exists picked. split; [exact Hall|]. split; [exact Hcount|]. split.
  - split; [|lia]. rewrite Hcount. unfold picks. lia.
  - rewrite Hcount. now apply picks_le_zero_amounts.
Qed.

End Run.

Lemma zero_atm_withdrawal_not_as_specified (t : Transaction.t) :
  zero_atm_withdrawal t = true -> ~ amount_as_specified t.
Proof.
  unfold zero_atm_withdrawal. intros H [_ Hatm].
  apply andb_true_iff in H. destruct H as [Ht Hz].
  apply String.eqb_eq in Ht. apply Qeq_bool_iff in Hz.
  destruct (Hatm Ht) as (k & Hk & Hrange).
  rewrite Hz in Hk. change 0%Q with (inject_Z 0) in Hk.
  apply (proj1 (inject_Z_injective 0 (10 * k))) in Hk. lia.
Qed.

Lemma lcg_lognormal_nonneg : @lognormal_nonneg Z Demo.lcg.
Proof.
  intros mean sigma g. cbn [lognormal Demo.lcg fst].
  unfold Qle. cbn [Qnum Qden].
  pose proof (Z.mod_pos_bound (Demo.bits (Demo.next g)) 100000). lia.
Qed.

Lemma low_draws_lognormal_nonneg : @lognormal_nonneg unit low_draws.
Proof. intros mean sigma g. discriminate. Qed.

Unset Implicit Arguments.

Lemma demo_transactions_run :
  is_ok (generate_transactions (gen := Demo.lcg) Demo.config DemoRun.after_accounts) = true.
Proof. vm_compute. reflexivity. Qed.

(** With draws at the low end, the first account gets one ATM
    withdrawal, and the zero-amount defect turns its amount into 0. *)
Lemma demo_low_draws_run :
  match generate_transactions (gen := low_draws) Demo.config DemoRun.after_accounts with
  | Ok (rep, w') =>
      existsb zero_atm_withdrawal (added_rows DemoRun.after_accounts w') = true
  | _ => False
  end.
Proof. vm_compute. reflexivity. Qed.

(** C3 as worded fails: a run records an ATM withdrawal of amount 0,
    which is not within [10, 500]. *)
Lemma atm_withdrawal_recorded_as_zero :
  @lognormal_nonneg unit low_draws
  /\ match generate_transactions (gen := low_draws) Demo.config DemoRun.after_accounts with
     | Ok (rep, w') =>
         ~ Forall amount_as_specified (added_rows DemoRun.after_accounts w')
     | _ => False
     end.
Proof.
  split; [exact low_draws_lognormal_nonneg|].
  generalize demo_low_draws_run.
  destruct (generate_transactions (gen := low_draws) Demo.config DemoRun.after_accounts)
    as [[rep w']| |]; auto.
  intros Hex Hall. apply existsb_exists in Hex. destruct Hex as (t & Hin & Hzero).
  rewrite Forall_forall in Hall.
  exact (zero_atm_withdrawal_not_as_specified Hzero (Hall t Hin)).
Qed.

Lemma amounts_as_generated_witness :
  @lognormal_nonneg Z Demo.lcg
  /\ match generate_transactions (gen := Demo.lcg) Demo.config DemoRun.after_accounts with
     | Ok (rep, w') =>
         exists picked : list bool,
           Forall2 (@injection Z Demo.lcg) (added_rows DemoRun.after_accounts w') picked
           /\ zero_amount_issues rep = picks picked
           /\ Forall2 amount_as_generated (added_rows DemoRun.after_accounts w') picked
     | _ => False
     end.
Proof.
  split; [exact lcg_lognormal_nonneg|].
  destruct (generate_transactions (gen := Demo.lcg) Demo.config DemoRun.after_accounts)
    as [[rep w']| |] eqn:E.
  - exact (amounts_as_generated Demo.config DemoRun.after_accounts
             lcg_lognormal_nonneg E).
  - pose proof demo_transactions_run as Hrun. rewrite E in Hrun. discriminate Hrun.
  - pose proof demo_transactions_run as Hrun. rewrite E in Hrun. discriminate Hrun.
Defined.

Lemma zero_amount_count_bounded_witness :
  0 <= Config.ZERO_AMOUNT_TXNS Demo.config
  /\ match generate_transactions (gen := low_draws) Demo.config DemoRun.after_accounts with
     | Ok (rep, w') =>
         exists picked : list bool,
           Forall2 (@injection unit low_draws) (added_rows DemoRun.after_accounts w') picked
           /\ zero_amount_issues rep = picks picked
           /\ 0 <= zero_amount_issues rep <= Config.ZERO_AMOUNT_TXNS Demo.config
           /\ zero_amount_issues rep
              <= Z.of_nat (List.length (filter is_zero_amount
                                               (added_rows DemoRun.after_accounts w')))
     | _ => False
     end.
Proof.
  assert (Htarget : 0 <= Config.ZERO_AMOUNT_TXNS Demo.config) by (vm_compute; discriminate).
  split; [exact Htarget|].
  generalize demo_low_draws_run.
  destruct (generate_transactions (gen := low_draws) Demo.config DemoRun.after_accounts)
    as [[rep w']| |] eqn:E; auto.
  intros _.
  exact (zero_amount_count_bounded Demo.config DemoRun.after_accounts Htarget E).
Defined.

(** With draws at the low end every transaction is picked until the
    target is reached: the run reports 2 defects, the target, and wrote
    2 transactions of amount zero. *)
Example demo_low_draws_count :
  match generate_transactions (gen := low_draws) Demo.config DemoRun.after_accounts with
  | Ok (rep, w') =>
      zero_amount_issues rep = 2
      /\ List.length (filter is_zero_amount (added_rows DemoRun.after_accounts w')) = 2%nat
  | _ => False
  end.
Proof. vm_compute. split; reflexivity. Qed.

Set Implicit Arguments.

End TransactionsFacts.

(* ------------------------------------------------------------------ *)
(** ** Computations that always return                                 *)
(* ------------------------------------------------------------------ *)

Module TotalFacts.
Import Monad Logic Numpy Sampling.
Local Open Scope list_scope.

Section Rules.
Context {S : Type}.

Lemma total_ret {A} (R : A -> Prop) (a : A) : R a -> total (S:=S) R (ret a).
Proof. intros H s. exists a, s. split; [reflexivity | exact H]. Qed.

Lemma total_bind {A B} (R1 : A -> Prop) (R2 : B -> Prop) (m : M S A) (k : A -> M S B) :
  total R1 m -> (forall a, R1 a -> total R2 (k a)) -> total R2 (bind m k).
Proof.
  intros Hm Hk s. destruct (Hm s) as (a & s1 & E1 & Ha).
  destruct (Hk a Ha s1) as (b & s2 & E2 & Hb).
  exists b, s2. unfold bind. rewrite E1. split; assumption.
Qed.

Lemma total_weaken {A} (R R' : A -> Prop) (m : M S A) :
  total R m -> (forall a, R a -> R' a) -> total R' m.
Proof.
  intros Hm HR s. destruct (Hm s) as (a & s1 & E1 & Ha).
  exists a, s1. split; [exact E1 | apply HR, Ha].
Qed.

Lemma total_for_each {A} (xs : list A) (body : A -> M S unit) :
  (forall x, In x xs -> total any (body x)) -> total any (for_each xs body).
Proof.
  induction xs as [|x xs IH]; intros Hbody; cbn [for_each].
  - now apply total_ret.
  - apply total_bind with (R1 := any); [apply Hbody; now left|].
    intros _ _. apply IH. intros y Hy. apply Hbody. now right.
Qed.

Lemma total_when (c : bool) (m : M S unit) : total any m -> total any (when c m).
Proof. intros Hm. destruct c; [exact Hm | now apply total_ret]. Qed.

End Rules.

Section WithGenerator.
Context {G : Type} {gen : Generator G} {L : Type}.

Lemma total_draw {A} (f : G -> A * G) : total any (draw (L:=L) f).
Proof.
  intros s. unfold draw. destruct (f (fst s)) as [a g'].
  exists a, (g', snd s). split; [reflexivity | exact I].
Qed.

Lemma total_get_local : total any (get_local (G:=G) (L:=L)).
Proof. intros s. exists (snd s), s. split; [reflexivity | exact I]. Qed.

Lemma total_modify_local (f : L -> L) : total any (modify_local (G:=G) f).
Proof. intros s. exists tt, (fst s, f (snd s)). split; [reflexivity | exact I]. Qed.

Lemma total_rng_integers (low high : Z) :
  low < high -> total any (rng_integers (G:=G) (L:=L) low high).
Proof.
  intros Hlt. unfold rng_integers.
  destruct (Z.ltb_spec low high); [apply total_draw | lia].
Qed.

(** A choice among the items of a list that is not empty returns one
    of them. *)
Lemma total_rng_choice {A} (xs : list A) :
  xs <> [] -> total (fun a => In a xs) (rng_choice (G:=G) (L:=L) xs None).
Proof.
  intros Hne s. destruct xs as [|x xs]; [contradiction|].
  unfold rng_choice, rng_choice_int, check_population, bind, ret, draw.
  cbn [List.length].
  destruct (choice_index (Datatypes.S (List.length xs)) None (fst s)) as [i g'].
  eexists _, _. split; [reflexivity|].
  destruct (nth_in_or_default i (x :: xs) x) as [Hin | ->]; [exact Hin | now left].
Qed.

End WithGenerator.

End TotalFacts.

(* ------------------------------------------------------------------ *)
(** ** Stage: general ledger                                           *)
(* ------------------------------------------------------------------ *)

Module GLFacts.
Import Monad Logic LogicFacts TotalFacts Numpy Sampling Config GenerateGLEntries.
Local Open Scope list_scope.

(** *** Journal numbers and ids *)

Lemma counters_succ (n : Z) : 0 <= n -> counters (n + 1) = counters n ++ [n + 1].
Proof.
  intros Hn. unfold counters.
  replace (Z.to_nat (n + 1)) with (Datatypes.S (Z.to_nat n)) by lia.
  rewrite seq_S, map_app. cbn [map]. do 2 f_equal. lia.
Qed.

Lemma counters_range (n k : Z) : In k (counters n) -> 1 <= k <= n.
Proof.
  unfold counters. rewrite in_map_iff. intros (i & <- & Hi).
  apply in_seq in Hi. lia.
Qed.

Lemma counters_NoDup (n : Z) : NoDup (counters n).
Proof.
  unfold counters. apply Finite.Injective_map_NoDup.
  - intros a b. apply Nat2Z.inj.
  - apply seq_NoDup.
Qed.

Lemma journal_id_of_inj (a b : Z) :
  0 <= a -> 0 <= b -> journal_id_of a = journal_id_of b -> a = b.
Proof.
  unfold journal_id_of. intros Ha Hb E.
  apply append_inj_l in E. now apply format_0d_Z_inj in E.
Qed.

(** The ids of the journals numbered 1 to [n] are pairwise distinct. *)
Lemma journal_ids_NoDup (n : Z) : NoDup (map journal_id_of (counters n)).
Proof.
  pose proof (counters_NoDup n) as Hnd.
  pose proof (counters_range n) as Hr.
  induction (counters n) as [|k l IH]; [constructor|].
  cbn [map]. inversion Hnd as [|? ? Hnotin Hnd']; subst. constructor.
  - rewrite in_map_iff. intros (k' & E & Hin).
    apply journal_id_of_inj in E.
    + subst k'. contradiction.
    + specialize (Hr k' (or_intror Hin)). lia.
    + specialize (Hr k (or_introl eq_refl)). lia.
  - apply IH; [exact Hnd'|]. intros k' Hk'. apply Hr. now right.
Qed.

(** *** Sums over a batch *)

Lemma net_of_batch_app (b : string) (l1 l2 : list GLEntry.t) :
  (net_of_batch b (l1 ++ l2) == net_of_batch b l1 + net_of_batch b l2)%Q.
Proof.
  induction l1 as [|e l1 IH]; cbn [app net_of_batch].
  - now rewrite Qplus_0_l.
  - destruct (String.eqb (GLEntry.batch_id e) b); [|exact IH].
    rewrite IH. ring.
Qed.

(** The legs of balanced journals cancel within every batch. *)
Lemma net_of_balanced (b : string) (journals : list (GLEntry.t * GLEntry.t)) :
  Forall balanced_journal journals ->
  (net_of_batch b (flat_map legs journals) == 0)%Q.
Proof.
  induction 1 as [|[d c] journals Hj _ IH]; [reflexivity|].
  cbn [flat_map]. rewrite net_of_batch_app, IH, Qplus_0_r.
  destruct Hj as (_ & Hb & _ & Hamount & Hd0 & Hc0).
  cbn [fst snd] in *. unfold legs. cbn [fst snd net_of_batch].
  rewrite <- Hb. destruct (String.eqb (GLEntry.batch_id d) b); [|reflexivity].
  rewrite Hamount, Hd0, Hc0. ring.
Qed.

(** *** The stage *)

Section Stage.
Context {G : Type} {gen : Generator G}.
Variable cfg : Config.t.

Lemma preserves_view_sampling_gl {A} (m : stage (G:=G) A) :
  preserves snd m -> preserves view m.
Proof. intros Hm s a s' E. unfold view, emitted. now rewrite (Hm s a s' E). Qed.

Lemma preserves_view_get_local_gl : preserves view (get_local (G:=G) (L:=local)).
Proof. intros s a s' [= _ <-]. reflexivity. Qed.

Lemma preserves_view_flush_gl : preserves view (flush (G:=G)).
Proof.
  intros s a s' [= _ <-]. unfold view, emitted. cbn [fst snd records table journal_counter].
  rewrite StoreFacts.bulk_insert_rows, map_app, app_nil_r.
  rewrite TransactionsFacts.map_snd_combine; [reflexivity | apply StoreFacts.new_keys_length].
Qed.

Lemma preserves_lookup_codes (txn_type : string) :
  preserves (S:=G * local) view
    match dict_lookup txn_gl_map txn_type with
    | Some codes => ret codes
    | None => raise (KeyError (repr_str txn_type))
    end.
Proof.
  destruct (dict_lookup txn_gl_map txn_type); [apply preserves_ret | apply preserves_raise].
Qed.

Ltac frame_gl :=
  repeat first
    [ apply preserves_view_get_local_gl
    | apply preserves_view_flush_gl
    | apply preserves_lookup_codes
    | apply preserves_ret
    | apply preserves_raise
    | apply preserves_view_sampling_gl; solve [auto with frame]
    | apply preserves_if
    | apply preserves_bind; [|intros ?] ].

Ltac keep_gl HI :=
  apply wp_bind; eapply wp_preserves with (proj := view); [solve [frame_gl]|];
  let a := fresh "v" in
  let s1 := fresh "s" in
  let Heq := fresh "Heq" in
  intros a s1 Heq; rewrite <- Heq in HI; clear Heq.

Lemma ledger_view old (s s' : G * local) :
  view s' = view s -> ledger old s -> ledger old s'.
Proof.
  unfold view. intros [= He Hc] (journals & H1 & H2 & H3 & H4).
  exists journals. rewrite He, Hc. auto.
Qed.

(** [journal_counter += 1] *)
Lemma wp_next_journal (Q : Z -> G * local -> Prop) (s : G * local) :
  Q (journal_counter (snd s) + 1)
    (fst s, mkLocal (records (snd s)) (table (snd s)) (journal_counter (snd s) + 1)) ->
  wp next_journal Q s.
Proof.
  intros HQ. unfold next_journal.
  apply wp_bind, TransactionsFacts.wp_modify_local.
  apply wp_bind, TransactionsFacts.wp_get_local.
  apply wp_ret. exact HQ.
Qed.

(** One journal of the daily loop: two more entries, the legs of a
    balanced journal under the next journal number. *)
Lemma journal_ok old cc_codes date_str batch_id j s :
  (exists day_offset, In day_offset (range n_days) /\ batch_id = batch_of_day day_offset) ->
  ledger old s ->
  wp (journal cc_codes date_str batch_id j) (fun _ s' => ledger old s') s.
Proof.
  intros Hday (journals & He & Hall & Hids & Hc). unfold journal.
  apply wp_bind, wp_next_journal.
  set (c := journal_counter (snd s)) in *.
  assert (HV : view (fst s, mkLocal (records (snd s)) (table (snd s)) (c + 1))
               = (old ++ flat_map legs journals, c + 1)).
  { unfold view, emitted in *. cbn [fst snd records table journal_counter] in *.
    now rewrite He. }
  do 2 keep_gl HV.
  keep_gl HV. destruct v1 as [debit_code credit_code].
  do 2 keep_gl HV.
  apply wp_bind. unfold append. apply TransactionsFacts.wp_modify_local.
  apply TransactionsFacts.wp_modify_local.
  unfold view, emitted in HV. injection HV as Hem Hcnt.
  cbn [fst snd records table journal_counter].
  match goal with
  | |- ledger _ (_, mkLocal ((_ ++ [?d]) ++ [?e]) _ _) =>
      exists (journals ++ [(d, e)]); set (dl := d); set (cl := e)
  end.
  unfold emitted. cbn [fst snd records table journal_counter].
  rewrite Hcnt. repeat split.
  - rewrite flat_map_app. cbn [flat_map]. unfold legs at 2. cbn [fst snd].
    rewrite app_nil_r, (app_assoc old), <- Hem, <- !app_assoc. reflexivity.
  - apply Forall_app. split; [exact Hall|]. constructor; [|constructor].
    unfold balanced_journal, dl, cl. cbn [fst snd GLEntry.journal_id GLEntry.batch_id
      GLEntry.debit_amount GLEntry.credit_amount].
    repeat split; try reflexivity. exact Hday.
  - rewrite map_app, Hids, counters_succ, map_app by exact Hc. reflexivity.
  - lia.
Qed.

(** One day of the loop. *)
Lemma day_ok old cc_codes day_offset s :
  In day_offset (range n_days) ->
  ledger old s ->
  wp (day cc_codes day_offset) (fun _ s' => ledger old s') s.
Proof.
  intros Hin HI. unfold day.
  apply wp_bind. eapply wp_preserves with (proj := view); [solve [frame_gl]|].
  intros n s1 Heq. apply (ledger_view Heq) in HI.
  apply wp_bind. eapply wp_mono.
  { apply (wp_for_each _ _ (ledger old)); [exact HI|].
    intros j s0 _ H0. apply journal_ok; [|exact H0].
    exists day_offset. split; [exact Hin | reflexivity]. }
  intros u s2 H2.
  apply wp_bind, TransactionsFacts.wp_get_local.
  destruct (10000 <=? Z.of_nat (List.length (records (snd s2)))); cbn [when].
  - eapply wp_preserves with (proj := view); [apply preserves_view_flush_gl|].
    intros u' s3 Heq3. exact (ledger_view Heq3 H2).
  - now apply wp_ret.
Qed.

(** [if records: _insert_gl_batch(records)]: nothing is left unwritten. *)
Lemma wp_final_flush (s : G * local) :
  wp match records (snd s) with
     | [] => ret tt
     | _ :: _ => flush
     end
     (fun _ s' => view s' = view s /\ records (snd s') = []) s.
Proof.
  destruct (records (snd s)) eqn:E.
  - apply wp_ret. split; [reflexivity | exact E].
  - intros u s' Ef. split; [exact (preserves_view_flush_gl Ef)|].
    unfold flush, modify_local in Ef. apply Ok_pair_inj in Ef.
    destruct Ef as [_ <-]. reflexivity.
Qed.

Lemma build_records_ok_gl old cc_codes s :
  ledger old s ->
  wp (build_records cfg cc_codes) (fun _ s' => written cfg old s') s.
Proof.
  intros HI. unfold build_records.
  apply wp_bind. eapply wp_mono.
  { apply (wp_for_each _ _ (ledger old)); [exact HI|].
    intros d s0 Hd H0. now apply day_ok. }
  intros u s1 (journals & He & Hall & Hids & Hc).
  apply wp_bind, wp_next_journal.
  apply wp_bind. unfold append at 1. apply TransactionsFacts.wp_modify_local.
  cbn [fst snd records table journal_counter].
  apply wp_bind, wp_next_journal.
  cbn [fst snd records table journal_counter].
  apply wp_bind. unfold append at 1. apply TransactionsFacts.wp_modify_local.
  cbn [fst snd records table journal_counter].
  apply wp_bind, TransactionsFacts.wp_get_local.
  cbn [fst snd records table journal_counter].
  set (c := journal_counter (snd s1)) in *.
  replace (c + 1 + 1) with (c + 2) by lia.
  assert (Hem : map snd (Store.rows (table (snd s1)))
                ++ (records (snd s1) ++ [imbalance_debit cfg (c + 1)])
                ++ [imbalance_credit cfg (c + 2)]
                = old ++ flat_map legs journals
                      ++ [imbalance_debit cfg (c + 1); imbalance_credit cfg (c + 2)]).
  { unfold emitted in He. rewrite <- (app_assoc (records (snd s1))), app_assoc, He,
      <- app_assoc. reflexivity. }
  match goal with
  | |- wp _ _ ?st => eapply wp_mono; [exact (wp_final_flush st)|]
  end.
  intros u' s2 [Hv Hrec]. exists journals, c.
  unfold view in Hv. injection Hv as Hv _. rewrite Hv. unfold emitted.
  cbn [fst snd records table journal_counter]. auto.
Qed.

End Stage.

(** *** The stage returns *)

Section StageReturns.
Context {G : Type} {gen : Generator G}.
Variable cfg : Config.t.

Lemma dict_lookup_in {V} (d : list (string * V)) (k : string) :
  In k (map fst d) -> exists v, dict_lookup d k = Some v.
Proof.
  induction d as [|[k' v] d IH]; cbn [map In dict_lookup fst]; [contradiction|].
  intros [-> | Hin].
  - rewrite String.eqb_refl. now exists v.
  - destruct (String.eqb k k'); [now exists v | now apply IH].
Qed.

Lemma total_next_journal : total any (next_journal (G:=G)).
Proof.
  unfold next_journal.
  apply total_bind with (R1 := any); [apply total_modify_local|]. intros _ _.
  apply total_bind with (R1 := any); [apply total_get_local|]. intros l _.
  now apply total_ret.
Qed.

Lemma total_append (r : GLEntry.t) : total any (append (G:=G) r).
Proof. apply total_modify_local. Qed.

(** With a cost centre to choose from, a journal is always written:
    the type chosen is a key of the account mapping. *)
Lemma total_journal cc_codes date_str batch_id j :
  cc_codes <> [] -> total any (journal (G:=G) cc_codes date_str batch_id j).
Proof.
  intros Hne. unfold journal.
  apply total_bind with (R1 := any); [apply total_next_journal|]. intros c _.
  apply total_bind with (R1 := fun a => In a cc_codes); [now apply total_rng_choice|].
  intros cc _.
  apply total_bind with (R1 := fun a => In a (map fst txn_gl_map));
    [apply total_rng_choice; discriminate|].
  intros txn_type Hin.
  destruct (dict_lookup_in txn_gl_map txn_type Hin) as ([debit credit] & Elook).
  rewrite Elook.
  apply total_bind with (R1 := any); [now apply total_ret|]. intros [debit_code credit_code] _.
  apply total_bind with (R1 := any); [apply total_draw|]. intros x _.
  apply total_bind with (R1 := any); [apply total_rng_integers; lia|]. intros ref _.
  apply total_bind with (R1 := any); apply total_append || (intros _ _; apply total_append).
Qed.

Lemma total_flush : total any (flush (G:=G)).
Proof. apply total_modify_local. Qed.

Lemma total_day cc_codes day_offset :
  cc_codes <> [] -> total any (day (G:=G) cc_codes day_offset).
Proof.
  intros Hne. unfold day.
  apply total_bind with (R1 := any); [apply total_rng_integers; lia|]. intros n _.
  apply total_bind with (R1 := any).
  { apply total_for_each. intros j _. now apply total_journal. }
  intros _ _.
  apply total_bind with (R1 := any); [apply total_get_local|]. intros l _.
  apply total_when, total_flush.
Qed.

Lemma total_build_records cc_codes :
  cc_codes <> [] -> total any (build_records (G:=G) cfg cc_codes).
Proof.
  intros Hne. unfold build_records.
  apply total_bind with (R1 := any).
  { apply total_for_each. intros d _. now apply total_day. }
  intros _ _.
  apply total_bind with (R1 := any); [apply total_next_journal|]. intros c1 _.
  apply total_bind with (R1 := any); [apply total_append|]. intros _ _.
  apply total_bind with (R1 := any); [apply total_next_journal|]. intros c2 _.
  apply total_bind with (R1 := any); [apply total_append|]. intros _ _.
  apply total_bind with (R1 := any); [apply total_get_local|]. intros l _.
  destruct (records l); [now apply total_ret | apply total_flush].
Qed.

End StageReturns.

(** *** A run *)

Section Run.
Context {G : Type} {gen : Generator G} {F : Type}.
Variable cfg : Config.t.

(** What a run that returns has added to the table. *)
Lemma generate_gl_entries_spec (w w' : World.t F) (rep : report) :
  generate_gl_entries cfg w = Ok (rep, w') ->
  exists journals c,
    0 <= c
    /\ added_rows w w'
       = flat_map legs journals
         ++ [imbalance_debit cfg (c + 1); imbalance_credit cfg (c + 2)]
    /\ Forall balanced_journal journals
    /\ map (fun j => GLEntry.journal_id (fst j)) journals = map journal_id_of (counters c).
Proof.
  unfold generate_gl_entries. intros E.
  destruct (build_records cfg (Store.cost_centres (World.db w)) (initial cfg (World.db w)))
    as [[u [g l]]| |] eqn:Eb; try discriminate E.
  apply Ok_pair_inj in E. destruct E as [<- <-].
  set (old := map snd (Store.rows (Store.gl_entries (World.db w)))).
  assert (Hinit : ledger old (initial (G:=G) cfg (World.db w))).
  { exists []. unfold emitted, initial. cbn [fst snd records table journal_counter
      flat_map map counters Z.to_nat seq].
    rewrite !app_nil_r. repeat split; try reflexivity; try lia. constructor. }
  destruct (build_records_ok_gl cfg (Store.cost_centres (World.db w)) Hinit Eb)
    as (journals & c & Hc & He & Hall & Hids & Hrec).
  exists journals, c. unfold emitted in He. cbn [fst snd] in He, Hrec.
  rewrite Hrec, app_nil_r in He.
  unfold added_rows. cbn [World.db World.set_db with_gl_entries Store.gl_entries].
  rewrite He, <- (length_map snd). fold old.
  rewrite skipn_app, skipn_all, Nat.sub_diag. cbn [skipn app]. auto.
Qed.

(** A run changes the table of GL entries and nothing else, and
    reports the number of rows the table then holds. *)
Lemma generate_gl_entries_frame (w w' : World.t F) (rep : report) :
  generate_gl_entries cfg w = Ok (rep, w') ->
  World.registry w' = World.registry w
  /\ World.faker w' = World.faker w
  /\ Store.customers (World.db w') = Store.customers (World.db w)
  /\ Store.accounts (World.db w') = Store.accounts (World.db w)
  /\ Store.transactions (World.db w') = Store.transactions (World.db w)
  /\ count rep = Z.of_nat (List.length (Store.rows (Store.gl_entries (World.db w'))))
  /\ imbalanced_batch rep = GL_IMBALANCE_BATCH cfg.
Proof.
  unfold generate_gl_entries. intros E.
  destruct (build_records cfg (Store.cost_centres (World.db w)) (initial cfg (World.db w)))
    as [[u [g l]]| |] eqn:Eb; try discriminate E.
  apply Ok_pair_inj in E. destruct E as [<- <-].
  cbn [World.db World.set_db World.registry World.faker with_gl_entries Store.gl_entries
       Store.customers Store.accounts Store.transactions count imbalanced_batch].
  repeat split; reflexivity.
Qed.

(** With at least one cost centre, the stage returns whatever the
    draws are. *)
Lemma generate_gl_entries_returns (w : World.t F) :
  Store.cost_centres (World.db w) <> [] ->
  exists rep w', generate_gl_entries cfg w = Ok (rep, w').
Proof.
  intros Hne. unfold generate_gl_entries.
  destruct (total_build_records cfg Hne (initial cfg (World.db w)))
    as (u & [g l] & -> & _).
  eexists _, _. reflexivity.
Qed.

Lemma net_of_imbalance (b : string) (c1 c2 : Z) :
  (net_of_batch b [imbalance_debit cfg c1; imbalance_credit cfg c2]
   == if String.eqb (GL_IMBALANCE_BATCH cfg) b then 500 else 0)%Q.
Proof.
  cbn [net_of_batch imbalance_debit imbalance_credit GLEntry.batch_id
       GLEntry.debit_amount GLEntry.credit_amount].
  destruct (String.eqb (GL_IMBALANCE_BATCH cfg) b); reflexivity.
Qed.

Lemma net_of_added (w w' : World.t F) (rep : report) (b : string) :
  generate_gl_entries cfg w = Ok (rep, w') ->
  (net_of_batch b (added_rows w w')
   == if String.eqb (GL_IMBALANCE_BATCH cfg) b then 500 else 0)%Q.
Proof.
  intros E. destruct (generate_gl_entries_spec w E) as (journals & c & _ & -> & Hall & _).
  rewrite net_of_batch_app, net_of_balanced, Qplus_0_l by exact Hall.
  apply net_of_imbalance.
Qed.

(** Every journal of the daily loop is balanced. The entries a run
    adds are the two legs of one journal after the other, a debit leg
    and a credit leg under one journal id and one per-day batch id with
    the same amount, followed by the two entries of the imbalance; the
    debits and credits of the daily journals cancel within every
    batch. *)
Theorem gl_daily_journals_balanced (w w' : World.t F) (rep : report) :
  generate_gl_entries cfg w = Ok (rep, w') ->
  exists journals last_two,
    added_rows w w' = flat_map legs journals ++ last_two
    /\ List.length last_two = 2%nat
    /\ Forall balanced_journal journals
    /\ forall b, (net_of_batch b (flat_map legs journals) == 0)%Q.
Proof.
  intros E. destruct (generate_gl_entries_spec w E) as (journals & c & _ & -> & Hall & _).
  eexists journals, _. split; [reflexivity|]. split; [reflexivity|].
  split; [exact Hall|]. intros b. now apply net_of_balanced.
Qed.

(** Journal ids count up from JNL-00000001 without a gap, in the
    order the entries are written: the two legs of the k-th daily
    journal carry the id of k, and the two entries of the imbalance
    carry the next two ids, one each. Different numbers give different
    ids, so the imbalance is written as two journals of one entry. *)
Theorem gl_journal_ids_sequential (w w' : World.t F) (rep : report) :
  generate_gl_entries cfg w = Ok (rep, w') ->
  exists c,
    0 <= c
    /\ map GLEntry.journal_id (added_rows w w')
       = flat_map (fun k => [journal_id_of k; journal_id_of k]) (counters c)
         ++ [journal_id_of (c + 1); journal_id_of (c + 2)]
    /\ NoDup (map journal_id_of (counters (c + 2))).
Proof.
  intros E. destruct (generate_gl_entries_spec w E) as (journals & c & Hc & -> & Hall & Hids).
  exists c. split; [exact Hc|]. split; [|apply journal_ids_NoDup].
  rewrite map_app. cbn [map imbalance_debit imbalance_credit GLEntry.journal_id].
  f_equal. clear E.
  revert Hids Hall. generalize (counters c) as ks.
  induction journals as [|[d e] journals IH]; intros ks Hids Hall.
  - destruct ks; [reflexivity | discriminate Hids].
  - destruct ks as [|k ks]; [discriminate Hids|].
    cbn [map fst] in Hids. injection Hids as Hk Hrest.
    inversion Hall as [|? ? Hj Hall']; subst.
    destruct Hj as (Hsame & _). cbn [fst snd] in Hsame.
    cbn [flat_map map legs fst snd app]. rewrite <- Hsame, Hk.
    f_equal. f_equal. now apply IH.
Qed.

(** The batch of the imbalance is the only one that does not
    balance. Over the entries a run adds, the debits less the credits
    of the batch named by [GL_IMBALANCE_BATCH] come to exactly 500, and
    those of every other batch to 0; a batch is off by more than 0.01
    if and only if it is that batch. *)
Theorem gl_only_imbalance_batch_unbalanced (w w' : World.t F) (rep : report) (b : string) :
  generate_gl_entries cfg w = Ok (rep, w') ->
  (net_of_batch b (added_rows w w')
   == if String.eqb (GL_IMBALANCE_BATCH cfg) b then 500 else 0)%Q
  /\ (unbalanced b (added_rows w w') <-> b = GL_IMBALANCE_BATCH cfg).
Proof.
  intros E. pose proof (@net_of_added w w' rep b E) as Hnet. split; [exact Hnet|].
  unfold unbalanced. rewrite Hnet.
  destruct (String.eqb_spec (GL_IMBALANCE_BATCH cfg) b) as [<- | Hneq].
  - split; [reflexivity|]. intros _. left. reflexivity.
  - split.
    + intros [H | H]; discriminate H.
    + intros ->. contradiction.
Qed.

(** C2. The entries a run adds are the journals of the daily loop,
    each one debit leg and one credit leg under the same journal id and
    the same per-day batch id with the debit amount of the one equal to
    the credit amount of the other, followed by the two entries of the
    imbalance, both in the batch named by [GL_IMBALANCE_BATCH]. The
    daily journals cancel within every batch (debits less credits come
    to 0). Over all entries added, exactly one batch is off by more than
    0.01, the batch of the imbalance, and it is off by 500, the
    difference of the 15000 and the 14500 the source writes; every other
    batch comes to 0. *)
Theorem gl_batches_balanced_but_one (w w' : World.t F) (rep : report) :
  generate_gl_entries cfg w = Ok (rep, w') ->
  exists journals imbalance,
    added_rows w w' = flat_map legs journals ++ imbalance
    /\ Forall balanced_journal journals
    /\ (forall b, (net_of_batch b (flat_map legs journals) == 0)%Q)
    /\ map GLEntry.batch_id imbalance = [GL_IMBALANCE_BATCH cfg; GL_IMBALANCE_BATCH cfg]
    /\ map (fun e => (GLEntry.debit_amount e, GLEntry.credit_amount e)) imbalance
       = [(15000, 0); (0, 14500)]%Q
    /\ (forall b, unbalanced b (added_rows w w') <-> b = GL_IMBALANCE_BATCH cfg)
    /\ (net_of_batch (GL_IMBALANCE_BATCH cfg) (added_rows w w') == 500)%Q
    /\ (forall b, b <> GL_IMBALANCE_BATCH cfg ->
                  (net_of_batch b (added_rows w w') == 0)%Q).
Proof.
  intros E.
  assert (Hnet : forall b, (net_of_batch b (added_rows w w')
                            == if String.eqb (GL_IMBALANCE_BATCH cfg) b then 500 else 0)%Q).
  { intros b. exact (@net_of_added w w' rep b E). }
  destruct (generate_gl_entries_spec w E) as (journals & c & _ & Hrows & Hall & _).
  exists journals, [imbalance_debit cfg (c + 1); imbalance_credit cfg (c + 2)].
  split; [exact Hrows|]. split; [exact Hall|].
  split; [intros b; now apply net_of_balanced|].
  split; [reflexivity|]. split; [reflexivity|].
  split; [|split].
  - intros b. unfold unbalanced. rewrite (Hnet b).
    destruct (String.eqb_spec (GL_IMBALANCE_BATCH cfg) b) as [<- | Hneq].
    + split; [reflexivity|]. intros _. left. reflexivity.
    + split.
      * intros [H | H]; discriminate H.
      * intros ->. contradiction.
  - rewrite (Hnet (GL_IMBALANCE_BATCH cfg)), String.eqb_refl. reflexivity.
  - intros b Hb. rewrite (Hnet b).
    destruct (String.eqb_spec (GL_IMBALANCE_BATCH cfg) b) as [<- | _];
      [contradiction | reflexivity].
Qed.

(** The stage needs nothing but a cost centre. If the table of cost
    centres is not empty the run returns, whatever the generator draws;
    it leaves the registry and the other tables as they were, and the
    count it reports is the number of rows then in the table: the rows
    that were there before, two for each daily journal, and two more. *)
Theorem gl_run_returns (w : World.t F) :
  Store.cost_centres (World.db w) <> [] ->
  exists rep w' n_journals,
    generate_gl_entries cfg w = Ok (rep, w')
    /\ World.registry w' = World.registry w
    /\ Store.customers (World.db w') = Store.customers (World.db w)
    /\ Store.accounts (World.db w') = Store.accounts (World.db w)
    /\ Store.transactions (World.db w') = Store.transactions (World.db w)
    /\ List.length (added_rows w w') = (2 * n_journals + 2)%nat
    /\ count rep = Z.of_nat (List.length (Store.rows (Store.gl_entries (World.db w)))
                             + 2 * n_journals + 2).
Proof.
  intros Hne. destruct (generate_gl_entries_returns w Hne) as (rep & w' & E).
  destruct (generate_gl_entries_frame w E) as (Hreg & _ & Hcu & Hac & Htx & Hcount & _).
  destruct (generate_gl_entries_spec w E) as (journals & c & _ & Hadd & _ & _).
  exists rep, w', (List.length journals).
  assert (Hlen : List.length (added_rows w w') = (2 * List.length journals + 2)%nat).
  { rewrite Hadd, length_app. cbn [List.length].
    assert (Hl : List.length (flat_map legs journals) = (2 * List.length journals)%nat).
    { clear. induction journals as [|j js IH]; [reflexivity|].
      cbn [flat_map legs app List.length]. rewrite IH. lia. }
    rewrite Hl. lia. }
  repeat split; try assumption.
  rewrite Hcount. f_equal.
  unfold added_rows in Hlen. rewrite length_skipn, length_map in Hlen.
  lia.
Qed.

End Run.

(** *** Without cost centres *)

Section NoCostCentres.
Context {G : Type} {gen : Generator G} {F : Type}.
Variable cfg : Config.t.

Lemma range_pos (n : Z) : 0 < n -> exists rest, range n = 0 :: rest.
Proof.
  intros Hn. unfold range. destruct (Z.to_nat n) as [|k] eqn:Ek; [lia|].
  cbn [seq map]. eexists. reflexivity.
Qed.

Lemma journal_without_cost_centre date_str batch_id j (s : G * local) :
  journal [] date_str batch_id j s
  = Raise (ValueError "a cannot be empty unless no samples are taken").
Proof. reflexivity. Qed.

Lemma day_without_cost_centre day_offset (s : G * local) :
  0 < fst (integers 150 250 (fst s)) ->
  day [] day_offset s = Raise (ValueError "a cannot be empty unless no samples are taken").
Proof.
  intros Hn. unfold day, bind at 1, rng_integers, draw. cbn [Z.ltb Z.compare Pos.compare
    Pos.compare_cont].
  destruct (integers 150 250 (fst s)) as [n g']. cbn [fst] in Hn.
  destruct (range_pos Hn) as (rest & ->).
  unfold bind at 1. cbn [for_each]. unfold bind at 1.
  now rewrite journal_without_cost_centre.
Qed.

(** Without a cost centre the stage fails at its first journal. If
    the table of cost centres is empty and the first day is given at
    least one journal, the run raises the [ValueError] of a choice from
    an empty list and writes nothing. *)
Theorem gl_no_cost_centres_raises (w : World.t F) :
  Store.cost_centres (World.db w) = [] ->
  0 < fst (integers 150 250 (default_rng (SEED cfg + 40))) ->
  generate_gl_entries cfg w
  = Raise (ValueError "a cannot be empty unless no samples are taken").
Proof.
  intros Hcc Hn. unfold generate_gl_entries. rewrite Hcc.
  assert (Eb : build_records cfg [] (initial cfg (World.db w))
               = Raise (ValueError "a cannot be empty unless no samples are taken")).
  { unfold build_records, bind at 1.
    assert (Hdays : 0 < n_days) by reflexivity.
    destruct (range_pos Hdays) as (rest & ->).
    cbn [for_each]. unfold bind at 1.
    now rewrite day_without_cost_centre. }
  now rewrite Eb.
Qed.

End NoCostCentres.

(** *** A run of the stage on the demonstration database *)

Unset Implicit Arguments.

Lemma gl_daily_journals_balanced_witness :
  exists rep w',
    generate_gl_entries (gen := Demo.lcg) Demo.config Demo.fresh_world = Ok (rep, w')
    /\ exists journals last_two,
         added_rows Demo.fresh_world w' = flat_map legs journals ++ last_two
         /\ List.length last_two = 2%nat
         /\ Forall balanced_journal journals
         /\ forall b, (net_of_batch b (flat_map legs journals) == 0)%Q.
Proof.
  destruct (@generate_gl_entries_returns Z Demo.lcg Z Demo.config Demo.fresh_world)
    as (rep & w' & E); [discriminate|].
  exists rep, w'. split; [exact E|].
  exact (@gl_daily_journals_balanced Z Demo.lcg Z Demo.config Demo.fresh_world w' rep E).
Defined.

Lemma gl_journal_ids_sequential_witness :
  exists rep w',
    generate_gl_entries (gen := Demo.lcg) Demo.config Demo.fresh_world = Ok (rep, w')
    /\ exists c,
         0 <= c
         /\ map GLEntry.journal_id (added_rows Demo.fresh_world w')
            = flat_map (fun k => [journal_id_of k; journal_id_of k]) (counters c)
              ++ [journal_id_of (c + 1); journal_id_of (c + 2)]
         /\ NoDup (map journal_id_of (counters (c + 2))).
Proof.
  destruct (@generate_gl_entries_returns Z Demo.lcg Z Demo.config Demo.fresh_world)
    as (rep & w' & E); [discriminate|].
  exists rep, w'. split; [exact E|].
  exact (@gl_journal_ids_sequential Z Demo.lcg Z Demo.config Demo.fresh_world w' rep E).
Defined.

Lemma gl_only_imbalance_batch_unbalanced_witness :
  exists rep w',
    generate_gl_entries (gen := Demo.lcg) Demo.config Demo.fresh_world = Ok (rep, w')
    /\ (net_of_batch "BATCH-IMBALANCE-001" (added_rows Demo.fresh_world w') == 500)%Q
    /\ (net_of_batch "BATCH-20240701" (added_rows Demo.fresh_world w') == 0)%Q.
Proof.
  destruct (@generate_gl_entries_returns Z Demo.lcg Z Demo.config Demo.fresh_world)
    as (rep & w' & E); [discriminate|].
  exists rep, w'. split; [exact E|]. split.
  - exact (proj1 (@gl_only_imbalance_batch_unbalanced Z Demo.lcg Z Demo.config
                    Demo.fresh_world w' rep "BATCH-IMBALANCE-001" E)).
  - exact (proj1 (@gl_only_imbalance_batch_unbalanced Z Demo.lcg Z Demo.config
                    Demo.fresh_world w' rep "BATCH-20240701" E)).
Defined.

Lemma gl_batches_balanced_but_one_witness :
  exists rep w',
    generate_gl_entries (gen := Demo.lcg) Demo.config Demo.fresh_world = Ok (rep, w')
    /\ exists journals imbalance,
         added_rows Demo.fresh_world w' = flat_map legs journals ++ imbalance
         /\ Forall balanced_journal journals
         /\ (unbalanced "BATCH-IMBALANCE-001" (added_rows Demo.fresh_world w')
             <-> "BATCH-IMBALANCE-001" = GL_IMBALANCE_BATCH Demo.config)
         /\ (unbalanced "BATCH-20240701" (added_rows Demo.fresh_world w')
             <-> "BATCH-20240701" = GL_IMBALANCE_BATCH Demo.config)
         /\ (net_of_batch (GL_IMBALANCE_BATCH Demo.config) (added_rows Demo.fresh_world w')
             == 500)%Q.
Proof.
  destruct (@generate_gl_entries_returns Z Demo.lcg Z Demo.config Demo.fresh_world)
    as (rep & w' & E); [discriminate|].
  exists rep, w'. split; [exact E|].
  destruct (@gl_batches_balanced_but_one Z Demo.lcg Z Demo.config Demo.fresh_world w' rep E)
    as (journals & imbalance & Hrows & Hall & _ & _ & _ & Hunb & Hnet & _).
  exists journals, imbalance.
  split; [exact Hrows|]. split; [exact Hall|].
  split; [apply Hunb|]. split; [apply Hunb | exact Hnet].
Defined.

Lemma gl_run_returns_witness :
  Store.cost_centres (World.db Demo.fresh_world) <> []
  /\ exists rep w' n_journals,
       generate_gl_entries (gen := Demo.lcg) Demo.config Demo.fresh_world = Ok (rep, w')
       /\ World.registry w' = World.registry Demo.fresh_world
       /\ Store.customers (World.db w') = Store.customers (World.db Demo.fresh_world)
       /\ Store.accounts (World.db w') = Store.accounts (World.db Demo.fresh_world)
       /\ Store.transactions (World.db w') = Store.transactions (World.db Demo.fresh_world)
       /\ List.length (added_rows Demo.fresh_world w') = (2 * n_journals + 2)%nat
       /\ count rep
          = Z.of_nat (List.length (Store.rows (Store.gl_entries (World.db Demo.fresh_world)))
                      + 2 * n_journals + 2).
Proof.
  assert (H : Store.cost_centres (World.db Demo.fresh_world) <> []) by discriminate.
  split; [exact H|].
  exact (@gl_run_returns Z Demo.lcg Z Demo.config Demo.fresh_world H).
Defined.

Lemma gl_no_cost_centres_raises_witness :
  Store.cost_centres (World.db Demo.no_cost_centres) = []
  /\ 0 < fst (@integers Z Demo.lcg 150 250
                (@default_rng Z Demo.lcg (SEED Demo.config + 40)))
  /\ generate_gl_entries (gen := Demo.lcg) Demo.config Demo.no_cost_centres
     = Raise (ValueError "a cannot be empty unless no samples are taken").
Proof.
  assert (H1 : Store.cost_centres (World.db Demo.no_cost_centres) = []) by reflexivity.
  assert (H2 : 0 < fst (@integers Z Demo.lcg 150 250
                          (@default_rng Z Demo.lcg (SEED Demo.config + 40))))
    by (vm_compute; reflexivity).
  split; [exact H1|]. split; [exact H2|].
  exact (@gl_no_cost_centres_raises Z Demo.lcg Z Demo.config Demo.no_cost_centres H1 H2).
Defined.

Set Implicit Arguments.

End GLFacts.

(* ------------------------------------------------------------------ *)
(** ** Bulk insertion in batches                                       *)
(* ------------------------------------------------------------------ *)

Module BulkInsertFacts.
Import Store.
Local Open Scope list_scope.
Local Open Scope nat_scope.

Lemma chunks_upto_bounds {R} (size fuel : nat) (l : list R) :
  0 < size ->
  Forall (fun c => 0 < List.length c <= size) (chunks_upto fuel size l).
Proof.
  intros Hsize. revert l. induction fuel as [|fuel IH]; intros l; cbn [chunks_upto].
  - constructor.
  - destruct l as [|x l]; [constructor|].
    constructor; [|apply IH].
    rewrite length_firstn. cbn [List.length]. lia.
Qed.

Lemma chunks_upto_count {R} (size fuel : nat) (l : list R) :
  0 < size -> List.length l <= fuel ->
  List.length (chunks_upto fuel size l) = (List.length l + size - 1) / size.
Proof.
  intros Hsize. revert l. induction fuel as [|fuel IH]; intros l Hlen.
  - destruct l; [|cbn [List.length] in Hlen; lia].
    cbn [chunks_upto List.length]. symmetry. apply Nat.div_small. lia.
  - destruct l as [|x l].
    + cbn [chunks_upto List.length]. symmetry. apply Nat.div_small. lia.
    + cbn [chunks_upto]. cbn [List.length] in *.
      rewrite IH by (rewrite length_skipn; cbn [List.length]; lia).
      rewrite length_skipn. cbn [List.length].
      destruct (Nat.le_gt_cases (Datatypes.S (List.length l)) size) as [Hle | Hgt].
      * replace (Datatypes.S (List.length l) - size) with 0 by lia.
        rewrite (Nat.div_small (0 + size - 1)) by lia.
        apply (Nat.div_unique _ _ _ (List.length l)); lia.
      * replace (Datatypes.S (List.length l) + size - 1)
          with ((Datatypes.S (List.length l) - size + size - 1) + 1 * size) by lia.
        rewrite Nat.div_add by lia. lia.
Qed.

(** The batches of a bulk insert. [bulk_insert] cuts the records into
    consecutive slices of [BATCH_SIZE]: put together again the slices
    are the records, none is empty, none holds more than [BATCH_SIZE]
    records, and there are as many as [len(records) / BATCH_SIZE]
    rounded up. *)
Theorem bulk_insert_batches {R} (records : list R) :
  List.concat (chunks Config.BATCH_SIZE records) = records
  /\ Forall (fun batch => 0 < List.length batch <= Config.BATCH_SIZE)
            (chunks Config.BATCH_SIZE records)
  /\ List.length (chunks Config.BATCH_SIZE records)
     = (List.length records + Config.BATCH_SIZE - 1) / Config.BATCH_SIZE.
Proof.
  assert (Hsize : 0 < Config.BATCH_SIZE) by (unfold Config.BATCH_SIZE; lia).
  unfold chunks. split; [|split].
  - now apply StoreFacts.concat_chunks_upto.
  - now apply chunks_upto_bounds.
  - now apply chunks_upto_count.
Qed.

(** Inserting and reading back. Whatever the number of batches,
    [bulk_insert] leaves the rows that were there, adds one row per
    record under the next keys in the order of the records, and moves
    the key counter past them; the rows after the old ones, read back,
    are the records. An empty list changes nothing. *)
Theorem bulk_insert_round_trip {R} (t : table R) (records : list R) :
  firstn (List.length (rows t)) (rows (bulk_insert t records)) = rows t
  /\ map snd (skipn (List.length (rows t)) (rows (bulk_insert t records))) = records
  /\ map fst (skipn (List.length (rows t)) (rows (bulk_insert t records)))
     = new_keys (next_id t) (List.length records)
  /\ next_id (bulk_insert t records) = (next_id t + Z.of_nat (List.length records))%Z
  /\ bulk_insert t [] = t.
Proof.
  rewrite StoreFacts.bulk_insert_spec. unfold insert_batch. cbn [rows next_id].
  rewrite firstn_app, Nat.sub_diag, firstn_all, firstn_O, app_nil_r.
  rewrite skipn_app, Nat.sub_diag, skipn_all. cbn [skipn app].
  assert (Hlen : List.length (new_keys (next_id t) (List.length records))
                 = List.length records) by apply StoreFacts.new_keys_length.
  repeat split.
  - apply TransactionsFacts.map_snd_combine. exact Hlen.
  - revert Hlen. generalize (new_keys (next_id t) (List.length records)) as ks.
    intros ks. revert records. induction ks as [|k ks IH]; intros [|r records] Hlen;
      cbn [combine map List.length] in *; try discriminate; [reflexivity|].
    f_equal. apply IH. lia.
Qed.

End BulkInsertFacts.

(* ------------------------------------------------------------------ *)
(** ** The registry: keys, counts and the summary                      *)
(* ------------------------------------------------------------------ *)

Module RegistrySummaryFacts.
Import IDRegistry IDRegistryFacts.
Local Open Scope list_scope.

Lemma keys_register_inv (r : t) k v x :
  In x (keys (register r k v)) -> In x (keys r) \/ x = k.
Proof.
  unfold keys. induction r as [|[k0 w] r IH]; cbn [register map fst In].
  - intros [<- | []]. now right.
  - destruct (String.eqb k k0) eqn:E; cbn [map fst In].
    + intros [H | H]; auto.
    + intros [H | H]; [auto|]. destruct (IH H); auto.
Qed.

Lemma keys_register_NoDup (r : t) k v : NoDup (keys r) -> NoDup (keys (register r k v)).
Proof.
  unfold keys. induction r as [|[k0 w] r IH]; cbn [register map fst]; intros Hnd.
  - constructor; [intros [] | constructor].
  - inversion Hnd as [|? ? Hnotin Hnd']; subst.
    destruct (String.eqb k k0) eqn:E; cbn [map fst].
    + now constructor.
    + constructor; [|now apply IH].
      intros Hin. apply keys_register_inv in Hin. destruct Hin as [Hin | ->].
      * contradiction.
      * now rewrite String.eqb_refl in E.
Qed.

Lemma keys_replay_NoDup (calls : list (string * payload)) (r0 : t) :
  NoDup (keys r0) ->
  NoDup (keys (fold_left (fun r c => register r (fst c) (snd c)) calls r0)).
Proof.
  revert r0. induction calls as [|[k v] calls IH]; intros r0 Hnd; cbn [fold_left fst snd].
  - exact Hnd.
  - apply IH. now apply keys_register_NoDup.
Qed.

Lemma keys_fold_inv (calls : list (string * payload)) (r0 : t) x :
  In x (keys (fold_left (fun r c => register r (fst c) (snd c)) calls r0)) ->
  In x (keys r0) \/ In x (map fst calls).
Proof.
  revert r0. induction calls as [|[k v] calls IH]; intros r0; cbn [fold_left fst snd map In].
  - intros H. now left.
  - intros H. apply IH in H. destruct H as [H | H]; [|auto].
    apply keys_register_inv in H. destruct H as [H | ->]; auto.
Qed.

Lemma lookup_in_summary (r : t) k v :
  lookup r k = Some v -> In (k, payload_len v) (summary r).
Proof.
  unfold summary. induction r as [|[k0 w] r IH]; cbn [lookup map fst snd In];
    [discriminate|].
  destruct (String.eqb_spec k k0) as [-> | Hne].
  - intros [= ->]. now left.
  - intros H. right. now apply IH.
Qed.

Lemma in_summary_lookup (r : t) k n :
  NoDup (keys r) -> In (k, n) (summary r) ->
  exists v, lookup r k = Some v /\ payload_len v = n.
Proof.
  unfold summary, keys. induction r as [|[k0 w] r IH]; cbn [lookup map fst snd In];
    intros Hnd Hin; [contradiction|].
  inversion Hnd as [|? ? Hnotin Hnd']; subst.
  destruct Hin as [[= <- <-] | Hin].
  - rewrite String.eqb_refl. now exists w.
  - destruct (String.eqb_spec k k0) as [-> | Hne].
    + exfalso. apply Hnotin. apply in_map_iff.
      apply in_map_iff in Hin. destruct Hin as ([k1 w1] & [= <- _] & Hin1).
      exists (k1, w1). split; [reflexivity | exact Hin1].
    + now apply IH.
Qed.

Lemma count_lookup (r : t) k n :
  count r k = Ok n <-> exists v, lookup r k = Some v /\ payload_len v = n.
Proof.
  unfold count, get_ids. destruct (lookup r k) as [[l | l]|]; cbn [payload_len]; split.
  - intros [= <-]. eexists. split; reflexivity.
  - intros (v & [= <-] & <-). reflexivity.
  - intros [= <-]. eexists. split; reflexivity.
  - intros (v & [= <-] & <-). reflexivity.
  - discriminate.
  - intros (v & [=] & _).
Qed.

(** The registry is a dict. After any sequence of [register] calls,
    each registered type appears once among the keys, however often it
    was registered; [summary] lists exactly the registered types, each
    with the number of ids of its last registration, and that number is
    what [count] returns; for a type that was never registered [count]
    raises the [KeyError] of [get_ids]. *)
Theorem summary_agrees_with_count (calls : list (string * payload)) :
  NoDup (map fst (summary (replay calls)))
  /\ (forall k, In k (map fst (summary (replay calls))) <-> In k (map fst calls))
  /\ (forall k n, In (k, n) (summary (replay calls)) <-> count (replay calls) k = Ok n)
  /\ (forall k n, count (replay calls) k = Ok n
                  <-> exists v, last_registered calls k = Some v /\ payload_len v = n)
  /\ (forall k, last_registered calls k = None ->
                count (replay calls) k
                = Raise (KeyError (not_registered_message k (replay calls)))).
Proof.
  assert (Hkeys : map fst (summary (replay calls)) = keys (replay calls)).
  { unfold summary, keys. rewrite map_map. reflexivity. }
  assert (Hnd : NoDup (keys (replay calls))).
  { apply keys_replay_NoDup. constructor. }
  assert (Hlook : forall k, lookup (replay calls) k = last_registered calls k).
  { intros k. unfold replay. rewrite lookup_fold.
    destruct (last_registered calls k); reflexivity. }
  rewrite Hkeys. split; [exact Hnd|]. split; [|split; [|split]].
  - intros k. split.
    + intros H. apply keys_fold_inv in H. destruct H as [[] | H]. exact H.
    + intros H. apply keys_fold. now right.
  - intros k n. rewrite count_lookup. split.
    + now apply in_summary_lookup.
    + intros (v & Hv & <-). now apply lookup_in_summary.
  - intros k n. rewrite count_lookup, Hlook. reflexivity.
  - intros k Hnone. unfold count, get_ids. now rewrite Hlook, Hnone.
Qed.

End RegistrySummaryFacts.

(* ------------------------------------------------------------------ *)
(** ** The SQL query tool: queries that are let through                *)
(* ------------------------------------------------------------------ *)

Module ToolsRowsFacts.
Import Py Unicode Tools ToolsFacts.
Local Open Scope list_scope.

(** *** Dicts built from pairs *)

Lemma dict_get_set_same (d : list (string * value)) k v :
  dict_get (dict_set d k v) k = Some v.
Proof.
  induction d as [|[k' w] d IH]; cbn [dict_set dict_get].
  - now rewrite String.eqb_refl.
  - destruct (String.eqb k k') eqn:E; cbn [dict_get]; rewrite E; [reflexivity | exact IH].
Qed.

Lemma dict_get_set_other (d : list (string * value)) k k' v :
  k <> k' -> dict_get (dict_set d k' v) k = dict_get d k.
Proof.
  intros Hne. induction d as [|[k0 w] d IH]; cbn [dict_set dict_get].
  - apply String.eqb_neq in Hne. now rewrite Hne.
  - destruct (String.eqb k' k0) eqn:E; cbn [dict_get].
    + apply String.eqb_eq in E. subst k0.
      apply String.eqb_neq in Hne. now rewrite Hne.
    + now rewrite IH.
Qed.

Lemma dict_get_fold (pairs : list (string * value)) (d0 : list (string * value)) k :
  dict_get (fold_left (fun d kv => dict_set d (fst kv) (snd kv)) pairs d0) k =
  match last_assigned pairs k with
  | Some w => Some w
  | None => dict_get d0 k
  end.
Proof.
  revert d0. induction pairs as [|[k' v] pairs IH]; intros d0;
    cbn [fold_left last_assigned fst snd]; [reflexivity|].
  rewrite IH. destruct (last_assigned pairs k); [reflexivity|].
  destruct (String.eqb_spec k k') as [-> | Hne].
  - apply dict_get_set_same.
  - now apply dict_get_set_other.
Qed.

Lemma dict_set_keys (d : list (string * value)) k v x :
  In x (map fst (dict_set d k v)) -> In x (map fst d) \/ x = k.
Proof.
  induction d as [|[k0 w] d IH]; cbn [dict_set map fst In].
  - intros [<- | []]. now right.
  - destruct (String.eqb k k0); cbn [map fst In].
    + intros [H | H]; auto.
    + intros [H | H]; [auto|]. destruct (IH H); auto.
Qed.

Lemma dict_set_NoDup (d : list (string * value)) k v :
  NoDup (map fst d) -> NoDup (map fst (dict_set d k v)).
Proof.
  induction d as [|[k0 w] d IH]; cbn [dict_set map fst]; intros Hnd.
  - constructor; [intros [] | constructor].
  - inversion Hnd as [|? ? Hnotin Hnd']; subst.
    destruct (String.eqb k k0) eqn:E; cbn [map fst].
    + now constructor.
    + constructor; [|now apply IH].
      intros Hin. apply dict_set_keys in Hin. destruct Hin as [Hin | ->].
      * contradiction.
      * now rewrite String.eqb_refl in E.
Qed.

Lemma dict_fold_NoDup (pairs : list (string * value)) (d0 : list (string * value)) :
  NoDup (map fst d0) ->
  NoDup (map fst (fold_left (fun d kv => dict_set d (fst kv) (snd kv)) pairs d0)).
Proof.
  revert d0. induction pairs as [|[k v] pairs IH]; intros d0 Hnd; cbn [fold_left fst snd].
  - exact Hnd.
  - apply IH. now apply dict_set_NoDup.
Qed.

Lemma dict_set_fresh (d : list (string * value)) k v :
  ~ In k (map fst d) -> dict_set d k v = d ++ [(k, v)].
Proof.
  induction d as [|[k0 w] d IH]; cbn [dict_set map fst In app]; intros Hnotin.
  - reflexivity.
  - destruct (String.eqb_spec k k0) as [-> | Hne].
    + exfalso. apply Hnotin. now left.
    + f_equal. apply IH. intros Hin. apply Hnotin. now right.
Qed.

Lemma dict_fold_distinct (columns : list string) (row : list value)
      (d0 : list (string * value)) :
  NoDup (map fst d0 ++ columns) ->
  fold_left (fun d kv => dict_set d (fst kv) (snd kv)) (combine columns row) d0
  = d0 ++ combine columns row.
Proof.
  revert row d0. induction columns as [|c columns IH]; intros row d0 Hnd.
  - cbn [combine fold_left]. now rewrite app_nil_r.
  - destruct row as [|v row]; cbn [combine fold_left fst snd].
    + now rewrite app_nil_r.
    + assert (Hfresh : ~ In c (map fst d0)).
      { apply NoDup_remove_2 in Hnd. intros Hin. apply Hnd. apply in_or_app. now left. }
      rewrite dict_set_fresh by exact Hfresh.
      rewrite IH.
      * rewrite <- app_assoc. reflexivity.
      * rewrite map_app, <- app_assoc. exact Hnd.
Qed.

Lemma serialise_row_combine (columns : list string) (row : list value) :
  serialise_row (combine columns row) = combine columns (map serialise row).
Proof.
  unfold serialise_row. revert row.
  induction columns as [|c columns IH]; intros [|v row]; cbn [combine map fst snd];
    try reflexivity.
  f_equal. apply IH.
Qed.

Lemma map_fst_combine {A B} (ks : list A) (vs : list B) :
  List.length vs = List.length ks -> map fst (combine ks vs) = ks.
Proof.
  revert vs. induction ks as [|k ks IH]; intros [|v vs] Hl; cbn [List.length] in Hl;
    try discriminate; cbn [map combine fst]; [reflexivity|].
  f_equal. apply IH. lia.
Qed.

(** A cell of an answer: a list is returned as the driver gave it,
    anything else as [None], a bool, a number or a string. *)
Lemma serialise_cell (v : value) :
  (is_list v = true -> serialise v = v)
  /\ (is_list v = false -> scalar (serialise v) = true).
Proof. destruct v; split; intros H; try reflexivity; discriminate H. Qed.

(** A duplicated column name costs a cell. [dict(zip(columns, row))]
    holds each column name once, however often the result set has it,
    and under a name the value of the last column of that name: when
    two columns of a result share a name, the value of the earlier one
    is not in the row the tool returns. *)
Theorem duplicate_columns_collapse (columns : list string) (row : list value) :
  NoDup (map fst (dict_zip columns row))
  /\ forall k, dict_get (dict_zip columns row) k = last_assigned (combine columns row) k.
Proof.
  unfold dict_zip. split.
  - apply dict_fold_NoDup. constructor.
  - intros k. rewrite dict_get_fold. destruct (last_assigned (combine columns row) k);
      reflexivity.
Qed.

Section WithStore.
Context {U : Tables}.
Variable database : Type.
Variable run_statement : database -> str -> (exn + result_set) * database.

Let execute_sql_query := Tools.execute_sql_query run_statement.

(** The guard lets through exactly what it does not reject. Whatever
    the character tables of the runtime: a query that, stripped and
    upper-cased, starts with SELECT or WITH and has none of the
    forbidden keywords as a whole word is sent to the store once, as it
    was given (not stripped, not upper-cased); the call returns, with
    the message of the exception as an [{"error": ...}] answer if the
    store raised, and with the columns of the result set and at most 500
    of its rows if it did not. *)
Theorem accepted_query_sent_verbatim (query : str) (s : store database) :
  startswith (upper (strip query)) (lit "SELECT") = true
  \/ startswith (upper (strip query)) (lit "WITH") = true ->
  (forall kw, In kw dangerous -> ~ whole_word (lit kw) (upper (strip query))) ->
  exists resp,
    execute_sql_query query s
    = (Ok resp, {| db := snd (run_statement (db s) query);
                   executed := executed s ++ [query] |})
    /\ match fst (run_statement (db s) query) with
       | inl e => resp = Error (exn_message e)
       | inr (columns, all_rows) =>
           exists rows,
             resp = Result columns rows (List.length rows)
                           (Nat.leb ROW_CAP (List.length rows))
             /\ List.length rows = Nat.min ROW_CAP (List.length all_rows)
       end.
Proof.
  intros Hs Hk. unfold execute_sql_query, Tools.execute_sql_query.
  destruct (negb (startswith (upper (strip query)) (lit "SELECT"))
            && negb (startswith (upper (strip query)) (lit "WITH")))%bool eqn:Eg.
  { apply andb_true_iff in Eg. destruct Eg as [E1 E2].
    apply negb_true_iff in E1, E2. destruct Hs; congruence. }
  destruct (find (fun keyword => search_word (lit keyword) (upper (strip query))) dangerous)
    as [k|] eqn:Ef.
  { apply find_some in Ef. destruct Ef as [Hin Hf].
    apply search_word_spec in Hf. now destruct (Hk k Hin). }
  unfold execute. destruct (run_statement (db s) query) as [[e | [columns all_rows]] d];
    cbn [fst snd].
  - eexists. split; reflexivity.
  - eexists. split; [reflexivity|].
    exists (map (@serialise_row) (map (dict_zip columns) (firstn ROW_CAP all_rows))).
    rewrite !length_map. split; [reflexivity|].
    apply length_firstn.
Qed.

(** The rows of an answer. When the columns of the result set have
    different names and every row has one cell per column, the tool
    returns the first 500 rows, each as the column names paired in order
    with its cells. A cell that is a list (an array column) is returned
    as the driver gave it, with whatever it holds, dates and decimals
    included; any other cell is returned as [None], a bool, a number
    or a string, a date, bytes or other object being replaced by its
    text. *)
Theorem result_rows_pair_columns_with_cells (query : str) (s s' : store database)
        (columns cols : list string) (all_rows : list (list value))
        (rows : list (list (string * value))) (n : nat) (tr : bool) (d : database) :
  run_statement (db s) query = (inr (cols, all_rows), d) ->
  execute_sql_query query s = (Ok (Result columns rows n tr), s') ->
  NoDup cols ->
  Forall (fun row => List.length row = List.length cols) all_rows ->
  columns = cols
  /\ rows = map (fun row => combine cols (map serialise row)) (firstn ROW_CAP all_rows)
  /\ Forall2 (fun given returned =>
                map fst returned = cols
                /\ Forall2 (fun v cell =>
                              (is_list v = true -> cell = v)
                              /\ (is_list v = false -> scalar cell = true))
                           given (map snd returned))
             (firstn ROW_CAP all_rows) rows.
Proof.
  intros Hr He Hnd Hlen. unfold execute_sql_query, Tools.execute_sql_query in He.
  destruct (negb (startswith (upper (strip query)) (lit "SELECT"))
            && negb (startswith (upper (strip query)) (lit "WITH")))%bool; [discriminate He|].
  destruct (find (fun keyword => search_word (lit keyword) (upper (strip query))) dangerous);
    [discriminate He|].
  unfold execute in He. rewrite Hr in He.
  remember (firstn ROW_CAP all_rows) as kept eqn:Hkept.
  injection He as <- <- _ _ _.
  assert (Hkept_len : Forall (fun row => List.length row = List.length cols) kept).
  { subst kept. rewrite Forall_forall in *. intros row Hin.
    apply Hlen. rewrite <- (firstn_skipn ROW_CAP all_rows). apply in_or_app. now left. }
  clear Hkept Hr.
  assert (Hrows : map (@serialise_row) (map (dict_zip cols) kept)
                  = map (fun row => combine cols (map serialise row)) kept).
  { rewrite map_map. apply map_ext. intros row. unfold dict_zip.
    rewrite dict_fold_distinct by exact Hnd. cbn [app].
    apply serialise_row_combine. }
  rewrite Hrows. split; [reflexivity|]. split; [reflexivity|].
  clear Hrows. induction kept as [|row kept IH]; cbn [map]; constructor.
  - inversion Hkept_len as [|? ? Hrow _]; subst. split.
    + apply map_fst_combine. now rewrite length_map.
    + rewrite TransactionsFacts.map_snd_combine by (now rewrite length_map).
      clear. induction row as [|v row IHrow]; cbn [map]; constructor;
        [apply serialise_cell | exact IHrow].
  - apply IH. now inversion Hkept_len.
Qed.

End WithStore.

Lemma accepted_query_sent_verbatim_witness :
  let s := {| db := [[VInt 1]; [VInt 2]]; executed := [] |} in
  exists resp,
    Tools.execute_sql_query (U := latin) run_on_table (lit "  select n from t") s
    = (Ok resp, {| db := snd (run_on_table (db s) (lit "  select n from t"));
                   executed := executed s ++ [lit "  select n from t"] |})
    /\ exists rows,
         resp = Result ["n"] rows (List.length rows) (Nat.leb ROW_CAP (List.length rows))
         /\ List.length rows = Nat.min ROW_CAP 2.
Proof.
  apply (@accepted_query_sent_verbatim latin table_store run_on_table (lit "  select n from t")
           {| db := [[VInt 1]; [VInt 2]]; executed := [] |}).
  - left. reflexivity.
  - intros kw Hin Hw. apply search_word_spec in Hw.
    cbn [dangerous In] in Hin.
    repeat (destruct Hin as [<- | Hin]; [vm_compute in Hw; discriminate Hw|]).
    contradiction.
Defined.

Lemma result_rows_pair_columns_with_cells_witness :
  let given := [[VTemporal "2024-07-01"; VList [VTemporal "2024-07-01"; VObject "12.50"]];
                [VInt 2; VNone]] in
  let returned := [[("d", VStr "2024-07-01");
                    ("a", VList [VTemporal "2024-07-01"; VObject "12.50"])];
                   [("d", VInt 2); ("a", VNone)]] in
  ["d"; "a"] = ["d"; "a"]
  /\ returned = map (fun row => combine ["d"; "a"] (map serialise row)) (firstn ROW_CAP given)
  /\ Forall2 (fun given returned =>
                map fst returned = ["d"; "a"]
                /\ Forall2 (fun v cell =>
                              (is_list v = true -> cell = v)
                              /\ (is_list v = false -> scalar cell = true))
                           given (map snd returned))
             (firstn ROW_CAP given) returned.
Proof.
  intros given returned.
  apply (@result_rows_pair_columns_with_cells latin (list (list value))
           (fun t _ => (inr (["d"; "a"], t), t)) (lit "SELECT d, a FROM t")
           {| db := given; executed := [] |}
           {| db := given; executed := [lit "SELECT d, a FROM t"] |}
           ["d"; "a"] ["d"; "a"] given returned 2%nat false given).
  - reflexivity.
  - vm_compute. reflexivity.
  - repeat constructor; cbn [In]; intuition discriminate.
  - repeat constructor.
Defined.

Example duplicate_column_keeps_last :
  dict_zip ["id"; "name"; "id"] [VInt 1; VStr "a"; VInt 7] = [("id", VInt 7); ("name", VStr "a")].
Proof. reflexivity. Qed.

(** An array of dates stays an array of dates. *)
Example list_cell_is_not_converted :
  serialise (VList [VTemporal "2024-07-01"]) = VList [VTemporal "2024-07-01"].
Proof. reflexivity. Qed.

End ToolsRowsFacts.

(* ------------------------------------------------------------------ *)
(** ** Stage: customers, record by record                              *)
(* ------------------------------------------------------------------ *)

Module CustomerRecordsFacts.
Import Monad Logic LogicFacts Numpy Faker Sampling GenerateCustomers CustomersFacts.
Local Open Scope list_scope.

(** *** Numbers as text *)

Lemma str_of_N_inj (a b : N) : str_of_N a = str_of_N b -> a = b.
Proof.
  intros E. pose proof (parse_str_of_N a) as Ha. rewrite E, parse_str_of_N in Ha.
  now injection Ha.
Qed.

Lemma parse_minus (s : string) : parse_N ("-" ++ s) = None.
Proof.
  unfold parse_N. cbn [String.append NilEmpty.uint_of_string].
  destruct (NilEmpty.uint_of_string s); reflexivity.
Qed.

Lemma str_of_Z_inj (a b : Z) : str_of_Z a = str_of_Z b -> a = b.
Proof.
  unfold str_of_Z. intros E.
  destruct a as [|p|p], b as [|q|q];
    try (apply str_of_N_inj in E; cbn [Z.to_N] in E; congruence);
    try (apply append_inj_l, str_of_N_inj in E; congruence);
    exfalso.
  - pose proof (parse_str_of_N (Z.to_N 0)) as H. rewrite E, parse_minus in H. discriminate H.
  - pose proof (parse_str_of_N (Z.to_N (Z.pos p))) as H. rewrite E, parse_minus in H.
    discriminate H.
  - pose proof (parse_str_of_N (Z.to_N 0)) as H. rewrite <- E, parse_minus in H.
    discriminate H.
  - pose proof (parse_str_of_N (Z.to_N (Z.pos q))) as H. rewrite <- E, parse_minus in H.
    discriminate H.
Qed.

Lemma in_range (n x : Z) : In x (range n) <-> 0 <= x < n.
Proof.
  unfold range. rewrite in_map_iff. split.
  - intros (k & <- & Hk). apply in_seq in Hk. lia.
  - intros Hx. exists (Z.to_nat x). split; [lia|]. apply in_seq. lia.
Qed.

Lemma range_NoDup (n : Z) : NoDup (range n).
Proof.
  unfold range. apply Finite.Injective_map_NoDup.
  - intros a b. apply Nat2Z.inj.
  - apply seq_NoDup.
Qed.

(** References are pairwise different. *)
Lemma expected_refs_NoDup (cfg : Config.t) : NoDup (map fst (expected_refs cfg)).
Proof.
  unfold expected_refs. rewrite map_app, !map_map. cbn [fst].
  set (np := n_personal cfg). set (nb := n_business cfg).
  apply NoDup_app.
  - apply (Finite.Injective_map_NoDup (f := fun i => ("MCB-" ++ str_of_Z (10000001 + i))%string)).
    + intros a b E. apply append_inj_l, str_of_Z_inj in E. lia.
    + apply range_NoDup.
  - apply (Finite.Injective_map_NoDup (f := fun i => ("MCB-" ++ str_of_Z (10000001 + np + i))%string)).
    + intros a b E. apply append_inj_l, str_of_Z_inj in E. lia.
    + apply range_NoDup.
  - intros ref H1 H2. apply in_map_iff in H1, H2.
    destruct H1 as (i & <- & Hi), H2 as (j & E & Hj).
    apply append_inj_l, str_of_Z_inj in E.
    apply in_range in Hi, Hj. lia.
Qed.

(** *** One customer *)

Section Stage.
Context {G : Type} {gen : Generator G} {F : Type} {prov : Provider F}.
Variable cfg : Config.t.

Lemma records_of_snd (s s' : G * local (F:=F)) :
  snd s' = snd s -> records_of s' = records_of s.
Proof. unfold records_of. now intros ->. Qed.

(** A choice returns an item of the list it is given. *)
Lemma wp_rng_choice_in {L A} (xs : list A) (p : option (list Q))
      (Q : A -> G * L -> Prop) (s : G * L) :
  (forall a s', In a xs -> snd s' = snd s -> Q a s') -> wp (rng_choice xs p) Q s.
Proof.
  intros HQ a s' E. unfold rng_choice in E.
  destruct xs as [|x xs]; [discriminate E|].
  unfold bind in E.
  destruct (rng_choice_int (List.length (x :: xs)) p s) as [[i s1]| |] eqn:Ei;
    try discriminate E.
  apply Ok_pair_inj in E. destruct E as [<- <-].
  apply HQ.
  - destruct (nth_in_or_default i (x :: xs) x) as [Hin | ->]; [exact Hin | now left].
  - eapply preserves_rng_choice_int. exact Ei.
Qed.

Ltac frame_c :=
  repeat first
    [ apply preserves_fake
    | apply preserves_ret
    | apply preserves_raise
    | apply preserves_sampling; solve [auto with frame]
    | apply preserves_if
    | apply preserves_bind; [|intros ?] ].

Ltac step Hrec :=
  cbv beta iota;
  lazymatch goal with
  | |- wp (ret _) _ _ => apply wp_ret
  | |- wp (if ?c then _ else _) _ _ => destruct c eqn:?
  | |- wp (rng_choice _ _) _ _ =>
      apply wp_rng_choice_in;
      let a := fresh "c" in
      let s1 := fresh "s" in
      let Hin := fresh "Hin" in
      let Hs := fresh "Hs" in
      intros a s1 Hin Hs; apply records_of_snd in Hs; rewrite <- Hs in Hrec; clear Hs
  | |- wp (append _) _ _ => fail
  | |- wp (bind _ _) _ _ => apply wp_bind
  | |- wp _ _ _ =>
      eapply wp_preserves with (proj := records_of); [solve [frame_c]|];
      let a := fresh "v" in
      let s1 := fresh "s" in
      let Heq := fresh "Heq" in
      intros a s1 Heq; rewrite <- Heq in Hrec; clear Heq
  end.

Ltac booleans :=
  repeat match goal with
         | H : negb _ = true |- _ => apply negb_true_iff in H
         | H : negb _ = false |- _ => apply negb_false_iff in H
         | H : String.eqb _ _ = true |- _ => apply String.eqb_eq in H
         | H : String.eqb _ _ = false |- _ => apply String.eqb_neq in H
         end.

Ltac member_of :=
  match goal with
  | H : In ?x _ |- In ?x _ => revert H; clear; cbn [In firstn]; tauto
  end.

(** A record built as the personal loop builds it. *)
Lemma personal_consistent (c : Customer.t) (title first last gender : string) :
  Customer.type c = "personal" ->
  Customer.title c = Some title ->
  Customer.first_name c = Some first ->
  Customer.last_name c = Some last ->
  Customer.full_name c = (title ++ " " ++ first ++ " " ++ last)%string ->
  Customer.gender c = Some gender ->
  In gender ["male"; "female"] ->
  (gender = "male" -> In title ["Mr"; "Mr"; "Mr"; "Dr"]) ->
  (gender <> "male" -> In title ["Ms"; "Mrs"; "Miss"; "Dr"]) ->
  In (Customer.kyc_status c) kyc_statuses ->
  In (Customer.risk_rating c) risk_ratings ->
  (Customer.is_active c = true <-> Customer.closed_date c = None) ->
  (Customer.kyc_verified_date c <> None <-> Customer.kyc_status c = "verified") ->
  fields_consistent c.
Proof.
  intros Hty Ht Hf Hl Hfull Hg Hgin Hmale Hfemale Hkyc Hrisk Hact Hver.
  unfold fields_consistent. split; [exact Hact|]. split.
  - intros _. split; [exact Hver|].
    split; [revert Hkyc; unfold kyc_statuses; cbn [In]; tauto|].
    split; [exact Hrisk|].
    exists title, first, last. repeat (split; [assumption|]).
    destruct (String.eqb_spec gender "male") as [-> | Hne].
    + left. split; [exact Hg|]. specialize (Hmale eq_refl).
      revert Hmale. cbn [In]. tauto.
    + right. split; [|now apply Hfemale].
      rewrite Hg. f_equal. destruct Hgin as [<- | [<- | []]]; [contradiction | reflexivity].
  - rewrite Hty. intros [=].
Qed.

(** A record built as the business loop builds it. *)
Lemma business_consistent (c : Customer.t) :
  Customer.type c = "business" ->
  Customer.kyc_verified_date c <> None ->
  In (Customer.kyc_status c)
     ["verified"; "verified"; "verified"; "enhanced_due_diligence"] ->
  In (Customer.risk_rating c) (firstn 4 risk_ratings) ->
  Customer.company_name c = Some (Customer.full_name c) ->
  (Customer.is_active c = true <-> Customer.closed_date c = None) ->
  fields_consistent c.
Proof.
  intros Hty Hver Hkyc Hrisk Hname Hact.
  unfold fields_consistent. split; [exact Hact|]. split.
  - rewrite Hty. intros [=].
  - intros _. split; [exact Hver|].
    split; [revert Hkyc; cbn [In]; tauto|].
    split; [exact Hrisk | exact Hname].
Qed.

Ltac projections :=
  cbn [Customer.is_active Customer.closed_date Customer.type Customer.kyc_verified_date
       Customer.kyc_status Customer.risk_rating Customer.title Customer.first_name
       Customer.last_name Customer.full_name Customer.gender Customer.company_name].

(** One personal customer: one more record, with the next reference. *)
Lemma personal_customer_adds (i : Z) (s : G * local (F:=F)) :
  wp (personal_customer i)
     (fun _ s' => exists r,
          records_of s' = records_of s ++ [r]
          /\ Customer.customer_ref r = ("MCB-" ++ str_of_Z (10000001 + i))%string
          /\ Customer.type r = "personal"
          /\ fields_consistent r) s.
Proof.
  remember (records_of s) as R eqn:Hrec. symmetry in Hrec.
  unfold personal_customer.
  repeat step Hrec.
  all: apply wp_append; eexists;
    (split; [unfold records_of at 1; cbn [fst snd]; rewrite Hrec; reflexivity|]);
    (split; [reflexivity|]); (split; [reflexivity|]);
    booleans;
    eapply personal_consistent; projections;
    [ reflexivity | reflexivity | reflexivity | reflexivity | reflexivity | reflexivity
    | member_of
    | intros ?; first [contradiction | member_of]
    | intros ?; first [contradiction | member_of]
    | member_of | member_of
    | split; congruence | split; congruence ].
Qed.

(** One business customer. *)
Lemma business_customer_adds (n i : Z) (s : G * local (F:=F)) :
  wp (business_customer n i)
     (fun _ s' => exists r,
          records_of s' = records_of s ++ [r]
          /\ Customer.customer_ref r = ("MCB-" ++ str_of_Z (10000001 + n + i))%string
          /\ Customer.type r = "business"
          /\ fields_consistent r) s.
Proof.
  remember (records_of s) as R eqn:Hrec. symmetry in Hrec.
  unfold business_customer.
  repeat step Hrec.
  all: apply wp_append; eexists;
    (split; [unfold records_of at 1; cbn [fst snd]; rewrite Hrec; reflexivity|]);
    (split; [reflexivity|]); (split; [reflexivity|]);
    booleans;
    apply business_consistent; projections;
    [ reflexivity | discriminate | member_of | member_of | reflexivity
    | split; congruence ].
Qed.

End Stage.

(** *** The two loops *)

Section Loops.
Context {G : Type} {gen : Generator G} {F : Type} {prov : Provider F}.
Variable cfg : Config.t.

Definition ref_and_type (c : Customer.t) : string * string :=
  (Customer.customer_ref c, Customer.type c).

Lemma build_records_numbered (s : G * local (F:=F)) :
  records_of s = [] ->
  wp (build_records cfg)
     (fun _ s' => map ref_and_type (records_of s') = expected_refs cfg
                  /\ Forall fields_consistent (records_of s')) s.
Proof.
  intros Hempty. unfold build_records, expected_refs.
  set (personal := fun i : Z => (("MCB-" ++ str_of_Z (10000001 + i))%string, "personal")).
  set (business := fun i : Z =>
         (("MCB-" ++ str_of_Z (10000001 + n_personal cfg + i))%string, "business")).
  apply wp_bind. eapply wp_mono.
  { apply (wp_for_each_indexed (range (n_personal cfg)) personal_customer
             (fun done s0 => map ref_and_type (records_of s0) = map personal done
                             /\ Forall fields_consistent (records_of s0)) [] s).
    - rewrite Hempty. split; [reflexivity | constructor].
    - intros pre i s0 [Hmap Hall]. eapply wp_mono; [apply personal_customer_adds|].
      cbv beta. intros _ s1 (r & -> & Href & Hty & Hok). split.
      + rewrite !map_app, Hmap. cbn [map]. do 2 f_equal.
        unfold ref_and_type, personal. now rewrite Href, Hty.
      + apply Forall_app. split; [exact Hall | now constructor]. }
  cbv beta. cbn [app]. intros _ s1 [Hmap1 Hall1].
  eapply wp_mono.
  { apply (wp_for_each_indexed (range (n_business cfg)) (business_customer (n_personal cfg))
             (fun done s0 => map ref_and_type (records_of s0)
                             = map personal (range (n_personal cfg)) ++ map business done
                             /\ Forall fields_consistent (records_of s0)) [] s1).
    - cbn [map]. rewrite app_nil_r. split; assumption.
    - intros pre i s0 [Hmap Hall]. eapply wp_mono; [apply business_customer_adds|].
      cbv beta. intros _ s2 (r & -> & Href & Hty & Hok). split.
      + rewrite !map_app, Hmap, <- app_assoc. cbn [map]. do 3 f_equal.
        unfold ref_and_type, business. now rewrite Href, Hty.
      + apply Forall_app. split; [exact Hall | now constructor]. }
  cbv beta. cbn [app]. intros _ s2 H2. exact H2.
Qed.

(** What a run that returns has inserted. *)
Lemma generate_customers_records (w w' : World.t F) (all_ids : list Z) :
  generate_customers cfg w = Ok (all_ids, w') ->
  exists records : list Customer.t,
    Store.rows (Store.customers (World.db w')) =
    Store.rows (Store.customers (World.db w))
    ++ combine (Store.new_keys (Store.next_id (Store.customers (World.db w)))
                               (List.length records)) records
    /\ map ref_and_type records = expected_refs cfg
    /\ Forall fields_consistent records
    /\ Forall variant_exclusive records.
Proof.
  unfold generate_customers. intros E.
  destruct (build_records cfg (default_rng (Config.SEED cfg), (World.faker w, [])))
    as [[u [g [fk records]]]| |] eqn:Eb; try discriminate E.
  pose proof (@build_records_numbered (default_rng (Config.SEED cfg), (World.faker w, []))
                eq_refl u (g, (fk, records)) Eb) as [Hmap Hall].
  pose proof (@build_records_ok G gen F prov cfg
                (default_rng (Config.SEED cfg), (World.faker w, []))
                (Forall_nil _) u (g, (fk, records)) Eb) as Hvar.
  unfold records_of in Hmap, Hall, Hvar. cbn [fst snd] in Hmap, Hall, Hvar.
  destruct records as [|r records]; [discriminate E|].
  apply Ok_pair_inj in E. destruct E as [_ <-].
  exists (r :: records). split; [|auto].
  cbn [World.db World.register World.set_registry World.set_faker World.set_db
       with_customers Store.customers].
  rewrite StoreFacts.bulk_insert_rows. reflexivity.
Qed.

(** References count up. The customers a run inserts are, in order,
    [int(CUSTOMER_COUNT * PERSONAL_RATIO)] personal customers and then
    the business customers that make up the count, with the references
    MCB-10000001, MCB-10000002 and so on in that order; no two customers
    of a run share a reference. *)
Theorem customers_numbered_in_order (w w' : World.t F) (all_ids : list Z) :
  generate_customers cfg w = Ok (all_ids, w') ->
  exists records : list Customer.t,
    Store.rows (Store.customers (World.db w')) =
    Store.rows (Store.customers (World.db w))
    ++ combine (Store.new_keys (Store.next_id (Store.customers (World.db w)))
                               (List.length records)) records
    /\ map (fun c => (Customer.customer_ref c, Customer.type c)) records
       = expected_refs cfg
    /\ List.length records
       = (Z.to_nat (n_personal cfg) + Z.to_nat (n_business cfg))%nat
    /\ NoDup (map Customer.customer_ref records).
Proof.
  intros E. destruct (generate_customers_records w E) as (records & Hrows & Hmap & _ & _).
  exists records. split; [exact Hrows|]. split; [exact Hmap|]. split.
  - rewrite <- (length_map ref_and_type), Hmap. unfold expected_refs, range.
    now rewrite length_app, !length_map, !length_seq.
  - replace (map Customer.customer_ref records) with (map fst (map ref_and_type records))
      by (rewrite map_map; reflexivity).
    rewrite Hmap. apply expected_refs_NoDup.
Qed.

(** The number of personal customers is the float product truncated:
    [100 * 0.57] is the double just below 57, and [1000 * 0.85] is the
    double 850 although the double of 0.85 is below 0.85. *)
Example personal_count_is_a_float_product :
  n_personal (Demo.sized 100 (57 # 100)) = 56
  /\ n_business (Demo.sized 100 (57 # 100)) = 44
  /\ n_personal (Demo.sized 1000 (85 # 100)) = 850
  /\ n_personal (Demo.sized 7 (57 # 100)) = 3.
Proof. vm_compute. repeat split. Qed.

(** The status fields of a customer agree. Every customer a run
    inserts has a closing date exactly when it is not active; a personal
    customer has a KYC verification date exactly when its KYC status is
    verified, a title that fits its gender and the full name "title
    first last"; a business customer always has a verification date,
    its company name as full name, a KYC status that is verified or
    enhanced_due_diligence and a risk rating that is neither pep nor
    sanctioned. *)
Theorem customers_fields_consistent (w w' : World.t F) (all_ids : list Z) :
  generate_customers cfg w = Ok (all_ids, w') ->
  exists records : list Customer.t,
    Store.rows (Store.customers (World.db w')) =
    Store.rows (Store.customers (World.db w))
    ++ combine (Store.new_keys (Store.next_id (Store.customers (World.db w)))
                               (List.length records)) records
    /\ Forall fields_consistent records.
Proof.
  intros E. destruct (generate_customers_records w E) as (records & Hrows & _ & Hall & _).
  exists records. split; assumption.
Qed.

End Loops.

(** *** What the stage registers *)

Section Registry.
Context {G : Type} {gen : Generator G} {F : Type} {prov : Provider F}.
Variable cfg : Config.t.

Lemma in_insert_by_key {R} (x y : Z * R) (l : list (Z * R)) :
  In x (Store.insert_by_key y l) <-> x = y \/ In x l.
Proof.
  induction l as [|z l IH]; cbn [Store.insert_by_key In].
  - intuition.
  - destruct (fst y <=? fst z); cbn [In]; [intuition|].
    rewrite IH. intuition.
Qed.

Lemma in_order_by_key {R} (x : Z * R) (l : list (Z * R)) :
  In x (Store.order_by_key l) <-> In x l.
Proof.
  unfold Store.order_by_key. induction l as [|y l IH]; cbn [fold_right In]; [reflexivity|].
  rewrite in_insert_by_key, IH. intuition.
Qed.

Lemma select_where (p : Customer.t -> bool) (q : Z * string * bool -> bool)
      (l : list (Z * Customer.t)) :
  (forall r, q (fst r, Customer.type (snd r), Customer.is_active (snd r)) = p (snd r)) ->
  map (fun '(c0, c1, c2) => c0)
      (filter q (map (fun r => (fst r, Customer.type (snd r), Customer.is_active (snd r))) l))
  = map fst (filter (fun r => p (snd r)) l).
Proof.
  intros Hq. induction l as [|r l IH]; cbn [map filter]; [reflexivity|].
  rewrite Hq. destruct (p (snd r)); cbn [map]; now rewrite IH.
Qed.

Lemma in_customer_ids_where (p : Customer.t -> bool) (d : Store.database) (c : Z) :
  In c (customer_ids_where p d)
  <-> exists row, In (c, row) (Store.rows (Store.customers d)) /\ p row = true.
Proof.
  unfold customer_ids_where. rewrite in_map_iff. split.
  - intros ([c' row] & <- & Hin). apply filter_In in Hin. destruct Hin as [Hin Hp].
    apply (proj1 (in_order_by_key _ _)) in Hin. exists row. cbn [fst snd] in *.
    split; assumption.
  - intros (row & Hin & Hp). exists (c, row). split; [reflexivity|].
    apply filter_In. split; [apply (proj2 (in_order_by_key _ _)); exact Hin | exact Hp].
Qed.

(** What the stage leaves in the registry. *)
Lemma generate_customers_registers (w w' : World.t F) (all_ids : list Z) :
  generate_customers cfg w = Ok (all_ids, w') ->
  registered_ids w' "customer_ids" = Some all_ids
  /\ all_ids = customer_ids_where (fun _ => true) (World.db w')
  /\ registered_ids w' "personal_customer_ids"
     = Some (customer_ids_where (fun c => String.eqb (Customer.type c) "personal")
                                (World.db w'))
  /\ registered_ids w' "business_customer_ids"
     = Some (customer_ids_where (fun c => String.eqb (Customer.type c) "business")
                                (World.db w'))
  /\ registered_ids w' "active_customer_ids"
     = Some (customer_ids_where Customer.is_active (World.db w')).
Proof.
  unfold generate_customers. intros E.
  destruct (build_records cfg (default_rng (Config.SEED cfg), (World.faker w, [])))
    as [[u [g [fk records]]]| |] eqn:Eb; try discriminate E.
  destruct records as [|r records]; [discriminate E|].
  apply Ok_pair_inj in E. destruct E as [<- <-].
  unfold registered_ids, IDRegistry.get_ids, World.register.
  cbn [World.registry World.set_registry World.db World.set_db World.set_faker].
  unfold select_customers, customer_ids_where.
  set (rows := Store.order_by_key _).
  assert (Hall : map (fun '(c0, _, _) => c0)
                     (map (fun r => (fst r, Customer.type (snd r),
                                     Customer.is_active (snd r))) rows)
                 = map fst (filter (fun _ => true) rows)).
  { rewrite map_map. clear. induction rows as [|x rows IH]; cbn [map filter];
      [reflexivity | now rewrite IH]. }
  split; [|split; [exact Hall|split; [|split]]];
    repeat (rewrite IDRegistryFacts.lookup_register_other by discriminate);
    rewrite IDRegistryFacts.lookup_register_same; cbv beta iota;
    [reflexivity | f_equal | f_equal | f_equal ].
  - apply (select_where (fun c => String.eqb (Customer.type c) "personal")).
    intros row. reflexivity.
  - apply (select_where (fun c => String.eqb (Customer.type c) "business")).
    intros row. reflexivity.
  - apply (select_where Customer.is_active). intros row. reflexivity.
Qed.

(** The registry after the stage. The ids returned and registered
    under [customer_ids] are the ids of all customers the table then
    holds, those of earlier runs included, in ascending order; the ids
    registered for personal, business and active customers are those of
    the rows of that kind. *)
Theorem customers_registry_matches_table (w w' : World.t F) (all_ids : list Z) :
  generate_customers cfg w = Ok (all_ids, w') ->
  registered_ids w' "customer_ids" = Some all_ids
  /\ (forall c, In c all_ids <-> In c (GenerateAccounts.customer_ids (World.db w')))
  /\ (exists personal_ids business_ids active_ids,
         registered_ids w' "personal_customer_ids" = Some personal_ids
         /\ registered_ids w' "business_customer_ids" = Some business_ids
         /\ registered_ids w' "active_customer_ids" = Some active_ids
         /\ forall c,
             (In c personal_ids
              <-> exists row, In (c, row) (Store.rows (Store.customers (World.db w')))
                              /\ Customer.type row = "personal")
             /\ (In c business_ids
                 <-> exists row, In (c, row) (Store.rows (Store.customers (World.db w')))
                                 /\ Customer.type row = "business")
             /\ (In c active_ids
                 <-> exists row, In (c, row) (Store.rows (Store.customers (World.db w')))
                                 /\ Customer.is_active row = true)).
Proof.
  intros E. destruct (generate_customers_registers w E) as (Hall & Hids & Hp & Hb & Ha).
  split; [exact Hall|]. split.
  - intros c. rewrite Hids, in_customer_ids_where.
    unfold GenerateAccounts.customer_ids. rewrite in_map_iff. split.
    + intros (row & Hin & _). now exists (c, row).
    + intros ([c' row] & <- & Hin). now exists row.
  - eexists _, _, _. split; [exact Hp|]. split; [exact Hb|]. split; [exact Ha|].
    intros c. rewrite !in_customer_ids_where.
    repeat split; intros (row & Hin & Hrow); exists row; (split; [exact Hin|]);
      first [now apply String.eqb_eq | exact Hrow].
Qed.

(** The customers stage prepares the accounts stage. If the customers
    the table held before the run are personal or business customers
    (as when it was empty), then after the run the ids registered for
    personal and for business customers are, together, exactly the ids
    of the customers in the table: the state of the registry in which
    every account of a registered customer resolves. *)
Theorem customers_leave_registry_consistent (w w' : World.t F) (all_ids : list Z) :
  Forall (fun r => Customer.type (snd r) = "personal" \/ Customer.type (snd r) = "business")
         (Store.rows (Store.customers (World.db w))) ->
  generate_customers cfg w = Ok (all_ids, w') ->
  GenerateAccounts.registry_consistent w'.
Proof.
  intros Hold E.
  destruct (generate_customers_registers w E) as (_ & _ & Hp & Hb & _).
  destruct (generate_customers_records cfg w E) as (records & Hrows & _ & _ & Hvar).
  intros personal_ids business_ids Ep Eb c.
  unfold registered_ids in Hp, Hb. unfold GenerateAccounts.get_id_list in Ep, Eb.
  destruct (IDRegistry.get_ids (World.registry w') "personal_customer_ids")
    as [[l1 | ?]| |]; try discriminate Hp.
  destruct (IDRegistry.get_ids (World.registry w') "business_customer_ids")
    as [[l2 | ?]| |]; try discriminate Hb.
  injection Hp as ->. injection Hb as ->. injection Ep as <-. injection Eb as <-.
  rewrite !in_customer_ids_where.
  unfold GenerateAccounts.customer_ids. rewrite in_map_iff. split.
  - intros ([c' row] & <- & Hin). cbn [fst].
    assert (Hty : Customer.type row = "personal" \/ Customer.type row = "business").
    { rewrite Hrows in Hin. apply in_app_or in Hin. destruct Hin as [Hin | Hin].
      - rewrite Forall_forall in Hold. exact (Hold _ Hin).
      - apply in_combine_r in Hin. rewrite Forall_forall in Hvar.
        destruct (Hvar _ Hin) as [[Hty _] | [Hty _]]; auto. }
    destruct Hty as [Hty | Hty]; [left | right]; exists row; (split; [exact Hin|]);
      now apply String.eqb_eq.
  - intros [(row & Hin & _) | (row & Hin & _)]; now exists (c, row).
Qed.

(** With no customer to generate the stage does not return: the
    column list is read off the first record, [records[0]], and there
    is none. *)
Theorem customers_none_requested_raises (w : World.t F) :
  Config.CUSTOMER_COUNT cfg = 0 ->
  generate_customers cfg w = Raise (IndexError "list index out of range").
Proof.
  intros Hcount. unfold generate_customers, build_records, n_business, n_personal.
  rewrite Hcount.
  assert (H0 : int_of_float (Float.mul (Float.of_int 0)
                                       (Float.of_decimal (Config.PERSONAL_RATIO cfg))) = 0).
  { reflexivity. }
  rewrite H0. reflexivity.
Qed.

End Registry.

(** *** A run of the stage on the demonstration database *)

Unset Implicit Arguments.

Lemma customers_numbered_in_order_witness :
  match generate_customers (gen := Demo.lcg) (prov := Demo.counter_faker)
          Demo.config Demo.fresh_world with
  | Ok (_, w') =>
      exists records : list Customer.t,
        Store.rows (Store.customers (World.db w')) =
        Store.rows (Store.customers (World.db Demo.fresh_world))
        ++ combine (Store.new_keys
                      (Store.next_id (Store.customers (World.db Demo.fresh_world)))
                      (List.length records)) records
        /\ map (fun c => (Customer.customer_ref c, Customer.type c)) records
           = expected_refs Demo.config
        /\ List.length records
           = (Z.to_nat (n_personal Demo.config) + Z.to_nat (n_business Demo.config))%nat
        /\ NoDup (map Customer.customer_ref records)
  | _ => False
  end.
Proof.
  destruct (generate_customers (gen := Demo.lcg) (prov := Demo.counter_faker)
              Demo.config Demo.fresh_world) as [[ids w']| |] eqn:E.
  - exact (@customers_numbered_in_order Z Demo.lcg Z Demo.counter_faker Demo.config
             Demo.fresh_world w' ids E).
  - pose proof demo_customers_run as Hrun. rewrite E in Hrun. discriminate Hrun.
  - pose proof demo_customers_run as Hrun. rewrite E in Hrun. discriminate Hrun.
Defined.

Lemma customers_fields_consistent_witness :
  match generate_customers (gen := Demo.lcg) (prov := Demo.counter_faker)
          Demo.config Demo.fresh_world with
  | Ok (_, w') =>
      exists records : list Customer.t,
        Store.rows (Store.customers (World.db w')) =
        Store.rows (Store.customers (World.db Demo.fresh_world))
        ++ combine (Store.new_keys
                      (Store.next_id (Store.customers (World.db Demo.fresh_world)))
                      (List.length records)) records
        /\ Forall fields_consistent records
  | _ => False
  end.
Proof.
  destruct (generate_customers (gen := Demo.lcg) (prov := Demo.counter_faker)
              Demo.config Demo.fresh_world) as [[ids w']| |] eqn:E.
  - exact (@customers_fields_consistent Z Demo.lcg Z Demo.counter_faker Demo.config
             Demo.fresh_world w' ids E).
  - pose proof demo_customers_run as Hrun. rewrite E in Hrun. discriminate Hrun.
  - pose proof demo_customers_run as Hrun. rewrite E in Hrun. discriminate Hrun.
Defined.

Lemma customers_registry_matches_table_witness :
  match generate_customers (gen := Demo.lcg) (prov := Demo.counter_faker)
          Demo.config Demo.fresh_world with
  | Ok (all_ids, w') =>
      registered_ids w' "customer_ids" = Some all_ids
      /\ (forall c, In c all_ids <-> In c (GenerateAccounts.customer_ids (World.db w')))
  | _ => False
  end.
Proof.
  destruct (generate_customers (gen := Demo.lcg) (prov := Demo.counter_faker)
              Demo.config Demo.fresh_world) as [[ids w']| |] eqn:E.
  - destruct (@customers_registry_matches_table Z Demo.lcg Z Demo.counter_faker Demo.config
                Demo.fresh_world w' ids E) as (H1 & H2 & _).
    split; [exact H1 | exact H2].
  - pose proof demo_customers_run as Hrun. rewrite E in Hrun. discriminate Hrun.
  - pose proof demo_customers_run as Hrun. rewrite E in Hrun. discriminate Hrun.
Defined.

Lemma customers_leave_registry_consistent_witness :
  match generate_customers (gen := Demo.lcg) (prov := Demo.counter_faker)
          Demo.config Demo.fresh_world with
  | Ok (_, w') => GenerateAccounts.registry_consistent w'
  | _ => False
  end.
Proof.
  destruct (generate_customers (gen := Demo.lcg) (prov := Demo.counter_faker)
              Demo.config Demo.fresh_world) as [[ids w']| |] eqn:E.
  - exact (@customers_leave_registry_consistent Z Demo.lcg Z Demo.counter_faker Demo.config
             Demo.fresh_world w' ids (Forall_nil _) E).
  - pose proof demo_customers_run as Hrun. rewrite E in Hrun. discriminate Hrun.
  - pose proof demo_customers_run as Hrun. rewrite E in Hrun. discriminate Hrun.
Defined.

Lemma customers_none_requested_raises_witness :
  Config.CUSTOMER_COUNT Demo.no_customers = 0
  /\ generate_customers (gen := Demo.lcg) (prov := Demo.counter_faker)
       Demo.no_customers Demo.fresh_world
     = Raise (IndexError "list index out of range").
Proof.
  split; [reflexivity|].
  exact (@customers_none_requested_raises Z Demo.lcg Z Demo.counter_faker Demo.no_customers
           Demo.fresh_world eq_refl).
Defined.

Set Implicit Arguments.

End CustomerRecordsFacts.

(* ------------------------------------------------------------------ *)
(** ** Stage: accounts, record by record                               *)
(* ------------------------------------------------------------------ *)

Module AccountRecordsFacts.
Import Monad Logic LogicFacts Numpy Sampling Config GenerateAccounts.
Import TransactionsFacts CustomerRecordsFacts.
Local Open Scope list_scope.

Section Stage.
Context {G : Type} {gen : Generator G}.
Variable cfg : Config.t.
Variable fuel : nat.

Lemma preserves_snd_products_of pbc cat :
  preserves snd (products_of (G:=G) pbc cat).
Proof.
  unfold products_of. destruct (dict_get pbc cat);
    [apply preserves_ret | apply preserves_raise].
Qed.

Ltac frame_snd :=
  repeat first
    [ apply preserves_snd_products_of
    | apply preserves_ret
    | apply preserves_raise
    | solve [auto with frame]
    | apply preserves_if
    | apply preserves_bind; [|intros ?] ].

Ltac member_of :=
  match goal with
  | H : In ?x _ |- In ?x _ => revert H; clear; cbn [In]; tauto
  end.

(** [_make_account] leaves the records alone and returns a record
    of its arguments. *)
Lemma wp_make_account cid pid an sc st od (Q : Account.t -> G * local -> Prop) s :
  (forall r s', snd s' = snd s -> made cid pid an sc st r -> Q r s') ->
  wp (_make_account cid pid an sc st od) Q s.
Proof.
  intros HQ. unfold _make_account.
  assert (Hloc : snd s = snd s) by reflexivity. revert Hloc.
  generalize s at 1 3 as s0. intros s0 Hloc.
  repeat (cbv beta iota;
    lazymatch goal with
    | |- wp (ret _) _ _ => apply wp_ret
    | |- wp (if ?c then _ else _) _ _ => destruct c eqn:?
    | |- wp (rng_choice _ _) _ _ =>
        apply wp_rng_choice_in;
        let a := fresh "c" in
        let s1 := fresh "s" in
        let Hin := fresh "Hin" in
        let Hs := fresh "Hs" in
        intros a s1 Hin Hs; rewrite <- Hs in Hloc; clear Hs
    | |- wp (bind _ _) _ _ => apply wp_bind
    | |- wp _ _ _ =>
        eapply wp_preserves with (proj := snd); [solve [frame_snd]|];
        let a := fresh "v" in
        let s1 := fresh "s" in
        let Heq := fresh "Heq" in
        intros a s1 Heq; rewrite <- Heq in Hloc; clear Heq
    end).
  all: apply HQ; [exact Hloc|];
    unfold made, account_consistent;
    cbn [Account.customer_id Account.product_id Account.account_number Account.sort_code
         Account.status Account.account_name Account.closed_date Account.credit_limit
         Account.overdraft_limit Account.currency Account.last_transaction_date];
    repeat match goal with
           | H : String.eqb _ _ = true |- _ => apply String.eqb_eq in H
           | H : String.eqb _ _ = false |- _ => apply String.eqb_neq in H
           | H : (_ && _)%bool = true |- _ => apply andb_true_iff in H; destruct H
           | H : (_ && _)%bool = false |- _ => apply andb_false_iff in H
           | H : (_ <=? _) = true |- _ => apply Z.leb_le in H
           | H : (_ <? _) = true |- _ => apply Z.ltb_lt in H
           | H : (_ <=? _) = false |- _ => apply Z.leb_gt in H
           | H : (_ <? _) = false |- _ => apply Z.ltb_ge in H
           end;
    repeat (split; [first [reflexivity | intros; congruence | intros; lia
                          | intros ? [=]; discriminate ]|]);
    try (intros; first [congruence | lia]);
    intros Hst;
    repeat split; try congruence; try lia; try exact Hst;
    try (intros x [= <-]; apply in_map; assumption);
    try (intros x [=]).
Qed.

(** [make_unique_account] returns a key that no record carries and
    marks it as used. *)
Lemma wp_make_unique (n : nat) (Q : string * string -> G * local -> Prop) s :
  unique (snd s) ->
  (forall an sc s', pending an sc (snd s') -> Q (an, sc) s') ->
  wp (make_unique_account n) Q s.
Proof.
  revert s. induction n as [|n IH]; intros s HI HQ; [intros a s' [=]|].
  cbn [make_unique_account].
  apply wp_bind. eapply wp_preserves with (proj := snd); [solve [frame_snd]|].
  intros sc s1 Heq1. rewrite <- Heq1 in HI.
  apply wp_bind. eapply wp_preserves with (proj := snd); [solve [frame_snd]|].
  intros an s2 Heq2. rewrite <- Heq2 in HI.
  apply wp_bind, wp_get_local.
  destruct (existsb (String.eqb (an ++ "-" ++ sc)%string) (snd (snd s2))) eqn:Eused.
  - now apply IH.
  - apply wp_bind, wp_modify_local. apply wp_ret. apply HQ.
    unfold pending, unique. cbn [fst snd]. destruct HI as (Hnd & Hused & Hall).
    assert (Hfresh : ~ In (an ++ "-" ++ sc)%string (snd (snd s2))).
    { intros Hin. assert (Ht : existsb (String.eqb (an ++ "-" ++ sc)%string)
                                       (snd (snd s2)) = true).
      { apply existsb_exists. eexists. split; [exact Hin | apply String.eqb_refl]. }
      congruence. }
    split; [|split].
    + split; [exact Hnd|]. split; [|exact Hall].
      intros r Hr. right. now apply Hused.
    + cbn [fst]. intros Hin. apply in_map_iff in Hin. destruct Hin as (r & Hk & Hr).
      apply Hfresh. rewrite <- Hk. now apply Hused.
    + now left.
Qed.

(** Appending the record the pending number was drawn for. *)
Lemma wp_append_pending an sc r (Q : unit -> G * local -> Prop) s :
  pending an sc (snd s) ->
  Account.account_number r = an ->
  Account.sort_code r = sc ->
  account_consistent r ->
  (forall s', unique (snd s') -> Q tt s') ->
  wp (append r) Q s.
Proof.
  intros ((Hnd & Hused & Hall) & Hfresh & Hin) Han Hsc Hok HQ.
  unfold append. apply wp_modify_local. apply HQ. unfold unique. cbn [fst snd].
  assert (Hkey : account_key r = (an ++ "-" ++ sc)%string).
  { unfold account_key. now rewrite Han, Hsc. }
  split; [|split].
  - rewrite map_app. cbn [map]. apply NoDup_app; [exact Hnd | | ].
    + constructor; [intros [] | constructor].
    + intros k Hk [<- | []]. apply Hfresh. now rewrite <- Hkey.
  - intros r0 Hr0. apply in_app_or in Hr0. destruct Hr0 as [Hr0 | [<- | []]].
    + now apply Hused.
    + now rewrite Hkey.
  - apply Forall_app. split; [exact Hall | now constructor].
Qed.

Ltac status_in :=
  first [ member_of
        | repeat match goal with
                 | |- context [if ?c then _ else _] => destruct c
                 end; cbn [In]; tauto ].

Ltac step_acc HI :=
  cbv beta iota;
  lazymatch goal with
  | |- wp (ret _) _ _ => apply wp_ret
  | |- wp (if ?c then _ else _) _ _ => destruct c eqn:?
  | |- wp (when ?c _) _ _ => destruct c eqn:?; cbn [when]
  | |- wp (make_unique_account _) _ _ =>
      apply wp_make_unique; [exact HI|]; clear HI;
      let an := fresh "an" in
      let sc := fresh "sc" in
      let s1 := fresh "s" in
      intros an sc s1 HI
  | |- wp (_make_account _ _ _ _ _ _) _ _ =>
      apply wp_make_account;
      let r := fresh "r" in
      let s1 := fresh "s" in
      let Hs := fresh "Hs" in
      let Hmade := fresh "Hmade" in
      intros r s1 Hs Hmade; rewrite <- Hs in HI; clear Hs
  | |- wp (append ?r) _ _ =>
      eapply wp_append_pending;
      [ exact HI
      | first [ reflexivity
              | match goal with H : made _ _ _ _ _ r |- _ => apply H end ]
      | first [ reflexivity
              | match goal with H : made _ _ _ _ _ r |- _ => apply H end ]
      | first [ match goal with
                | H : made _ _ _ _ _ r |- _ =>
                    apply (proj2 (proj2 (proj2 (proj2 (proj2 (proj2 (proj2 H)))))));
                    status_in
                end
              | unfold account_consistent;
                cbn [Account.status Account.closed_date Account.credit_limit
                     Account.overdraft_limit Account.currency
                     Account.last_transaction_date In];
                repeat split; try tauto; try congruence; intros ? [=] ]
      | clear HI;
        repeat match goal with H : made _ _ _ _ _ _ |- _ => clear H end;
        let s1 := fresh "s" in intros s1 HI ]
  | |- wp (rng_choice _ _) _ _ =>
      apply wp_rng_choice_in;
      let a := fresh "c" in
      let s1 := fresh "s" in
      let Hin := fresh "Hin" in
      let Hs := fresh "Hs" in
      intros a s1 Hin Hs; rewrite <- Hs in HI; clear Hs
  | |- wp (bind _ _) _ _ => apply wp_bind
  | |- wp _ _ _ =>
      eapply wp_preserves with (proj := snd); [solve [frame_snd]|];
      let a := fresh "v" in
      let s1 := fresh "s" in
      let Heq := fresh "Heq" in
      intros a s1 Heq; rewrite <- Heq in HI; clear Heq
  end.

Lemma personal_accounts_unique pbc cid s :
  unique (snd s) ->
  wp (personal_accounts cfg fuel pbc cid) (fun _ s' => unique (snd s')) s.
Proof.
  intros HI. unfold personal_accounts.
  repeat step_acc HI.
  all: exact HI.
Qed.

Lemma business_accounts_unique pbc cid s :
  unique (snd s) ->
  wp (business_accounts cfg fuel pbc cid) (fun _ s' => unique (snd s')) s.
Proof.
  intros HI. unfold business_accounts.
  repeat step_acc HI.
  all: exact HI.
Qed.

Lemma orphaned_account_unique pbc mx i s :
  unique (snd s) ->
  wp (orphaned_account fuel pbc mx i) (fun _ s' => unique (snd s')) s.
Proof.
  intros HI. unfold orphaned_account.
  repeat step_acc HI.
  all: exact HI.
Qed.

End Stage.

Section Loops.
Context {G : Type} {gen : Generator G}.
Variable cfg : Config.t.
Variable fuel : nat.

Lemma build_records_unique pbc personal_ids business_ids (s : G * local) :
  unique (snd s) ->
  wp (build_records cfg fuel pbc personal_ids business_ids)
     (fun _ s' => unique (snd s')) s.
Proof.
  intros HI. unfold build_records.
  apply wp_bind. eapply wp_mono.
  { apply (wp_for_each _ _ (fun s0 : G * local => unique (snd s0))); [exact HI|].
    intros cid s0 _ H0. now apply personal_accounts_unique. }
  cbv beta. intros _ s1 H1.
  apply wp_bind. eapply wp_mono.
  { apply (wp_for_each _ _ (fun s0 : G * local => unique (snd s0))); [exact H1|].
    intros cid s0 _ H0. now apply business_accounts_unique. }
  cbv beta. intros _ s2 H2.
  apply wp_bind. unfold max_customer_id_of.
  destruct (array_max personal_ids) as [p|]; [|apply wp_raise].
  destruct (array_max business_ids) as [b|]; [|apply wp_raise].
  apply wp_ret.
  apply (wp_for_each _ _ (fun s0 : G * local => unique (snd s0))); [exact H2|].
  intros i s0 _ H0. now apply orphaned_account_unique.
Qed.

End Loops.

Section Run.
Context {G : Type} {gen : Generator G} {F : Type}.
Variable cfg : Config.t.
Variable fuel : nat.

(** What a run that returns has inserted. *)
Lemma generate_accounts_records (w w' : World.t F) (all_ids : list Z) :
  generate_accounts cfg fuel w = Ok (all_ids, w') ->
  exists records : list Account.t,
    Store.rows (Store.accounts (World.db w')) =
    Store.rows (Store.accounts (World.db w))
    ++ combine (Store.new_keys (Store.next_id (Store.accounts (World.db w)))
                               (List.length records)) records
    /\ NoDup (map account_key records)
    /\ Forall account_consistent records.
Proof.
  intros E.
  destruct (@AccountsFacts.generate_accounts_inv G gen F cfg fuel w w' all_ids E)
    as (personal_ids & business_ids & records & _ & _ & Eg & ->).
  unfold generated_records in Eg.
  destruct (build_records cfg fuel (group_products (Store.products (World.db w)))
              personal_ids business_ids (default_rng (Config.SEED cfg + 10), ([], [])))
    as [[u [g [recs used]]]| |] eqn:Ebuild; try discriminate Eg.
  injection Eg as <-.
  assert (Hinit : unique (snd (default_rng (Config.SEED cfg + 10),
                               (@nil Account.t, @nil string)))).
  { unfold unique. cbn [fst snd map]. split; [constructor|].
    split; [intros r []| constructor]. }
  pose proof (@build_records_unique G gen cfg fuel _ _ _ _ Hinit _ _ Ebuild)
    as (Hnd & _ & Hall).
  cbn [fst snd] in Hnd, Hall.
  exists recs. split; [|split; assumption].
  rewrite AccountsFacts.db_register_accounts. cbn [World.db World.set_db].
  unfold database_after, add_fkey_not_valid. cbn [with_accounts Store.accounts].
  now rewrite StoreFacts.bulk_insert_rows.
Qed.

(** Account numbers are not reused. No two accounts a run inserts
    have the same account number and sort code: the keys
    [f"{an}-{sc}"] of the accounts of a run, orphans included, are
    pairwise different. *)
Theorem accounts_keys_unique (w w' : World.t F) (all_ids : list Z) :
  generate_accounts cfg fuel w = Ok (all_ids, w') ->
  exists records : list Account.t,
    Store.rows (Store.accounts (World.db w')) =
    Store.rows (Store.accounts (World.db w))
    ++ combine (Store.new_keys (Store.next_id (Store.accounts (World.db w)))
                               (List.length records)) records
    /\ NoDup (map account_key records)
    /\ NoDup (map (fun r => (Account.account_number r, Account.sort_code r)) records).
Proof.
  intros E. destruct (generate_accounts_records w E) as (records & Hrows & Hnd & _).
  exists records. split; [exact Hrows|]. split; [exact Hnd|].
  clear Hrows. induction records as [|r records IH]; cbn [map]; [constructor|].
  cbn [map] in Hnd. inversion Hnd as [|? ? Hnotin Hnd']; subst.
  constructor; [|now apply IH].
  intros Hin. apply Hnotin. apply in_map_iff in Hin. destruct Hin as (r0 & [= Han Hsc] & Hr0).
  apply in_map_iff. exists r0. split; [|exact Hr0].
  unfold account_key. now rewrite Han, Hsc.
Qed.

(** The fields of an account agree. Every account a run inserts has
    a closing date exactly when its status is closed, a status among
    active, dormant, closed, in_arrears and default, a credit limit only
    if its product id is 15 or 16, limits among the listed amounts,
    currency GBP and no last transaction date. *)
Theorem accounts_fields_consistent (w w' : World.t F) (all_ids : list Z) :
  generate_accounts cfg fuel w = Ok (all_ids, w') ->
  exists records : list Account.t,
    Store.rows (Store.accounts (World.db w')) =
    Store.rows (Store.accounts (World.db w))
    ++ combine (Store.new_keys (Store.next_id (Store.accounts (World.db w)))
                               (List.length records)) records
    /\ Forall account_consistent records.
Proof.
  intros E. destruct (generate_accounts_records w E) as (records & Hrows & _ & Hall).
  exists records. split; assumption.
Qed.

(** The stage needs customers of both kinds. A run returns only if
    ids are registered for personal and for business customers and
    neither list is empty: the largest customer id is taken over both,
    and the largest of no ids does not exist. *)
Theorem accounts_need_both_kinds (w w' : World.t F) (all_ids : list Z) :
  generate_accounts cfg fuel w = Ok (all_ids, w') ->
  exists personal_ids business_ids,
    get_id_list (World.registry w) "personal_customer_ids" = Ok personal_ids
    /\ get_id_list (World.registry w) "business_customer_ids" = Ok business_ids
    /\ personal_ids <> []
    /\ business_ids <> [].
Proof.
  intros E.
  destruct (@AccountsFacts.generate_accounts_inv G gen F cfg fuel w w' all_ids E)
    as (personal_ids & business_ids & records & Ep & Eb & Eg & _).
  exists personal_ids, business_ids. split; [exact Ep|]. split; [exact Eb|].
  unfold generated_records in Eg.
  destruct (build_records cfg fuel (group_products (Store.products (World.db w)))
              personal_ids business_ids (default_rng (Config.SEED cfg + 10), ([], [])))
    as [[u s']| |] eqn:Ebuild; try discriminate Eg.
  destruct (@AccountsFacts.build_records_spec G gen cfg fuel _ _ _ _ _ _ Ebuild)
    as (_ & _ & p & b & _ & _ & Hp & Hb & _).
  split; intros ->; discriminate.
Qed.

End Run.

(** *** A run of the stage on the demonstration database *)

Unset Implicit Arguments.

Lemma accounts_keys_unique_witness :
  match generate_accounts (gen := Demo.lcg) Demo.config 10 DemoRun.after_customers with
  | Ok (_, w') =>
      exists records : list Account.t,
        Store.rows (Store.accounts (World.db w')) =
        Store.rows (Store.accounts (World.db DemoRun.after_customers))
        ++ combine (Store.new_keys
                      (Store.next_id (Store.accounts (World.db DemoRun.after_customers)))
                      (List.length records)) records
        /\ NoDup (map account_key records)
        /\ NoDup (map (fun r => (Account.account_number r, Account.sort_code r)) records)
  | _ => False
  end.
Proof.
  destruct (generate_accounts (gen := Demo.lcg) Demo.config 10 DemoRun.after_customers)
    as [[ids w']| |] eqn:E.
  - exact (@accounts_keys_unique Z Demo.lcg Z Demo.config 10 DemoRun.after_customers w' ids E).
  - pose proof AccountsFacts.demo_accounts_run as Hrun. rewrite E in Hrun. discriminate Hrun.
  - pose proof AccountsFacts.demo_accounts_run as Hrun. rewrite E in Hrun. discriminate Hrun.
Defined.

Lemma accounts_fields_consistent_witness :
  match generate_accounts (gen := Demo.lcg) Demo.config 10 DemoRun.after_customers with
  | Ok (_, w') =>
      exists records : list Account.t,
        Store.rows (Store.accounts (World.db w')) =
        Store.rows (Store.accounts (World.db DemoRun.after_customers))
        ++ combine (Store.new_keys
                      (Store.next_id (Store.accounts (World.db DemoRun.after_customers)))
                      (List.length records)) records
        /\ Forall account_consistent records
  | _ => False
  end.
Proof.
  destruct (generate_accounts (gen := Demo.lcg) Demo.config 10 DemoRun.after_customers)
    as [[ids w']| |] eqn:E.
  - exact (@accounts_fields_consistent Z Demo.lcg Z Demo.config 10
             DemoRun.after_customers w' ids E).
  - pose proof AccountsFacts.demo_accounts_run as Hrun. rewrite E in Hrun. discriminate Hrun.
  - pose proof AccountsFacts.demo_accounts_run as Hrun. rewrite E in Hrun. discriminate Hrun.
Defined.

Lemma accounts_need_both_kinds_witness :
  match generate_accounts (gen := Demo.lcg) Demo.config 10 DemoRun.after_customers with
  | Ok (_, w') =>
      exists personal_ids business_ids,
        get_id_list (World.registry DemoRun.after_customers) "personal_customer_ids"
        = Ok personal_ids
        /\ get_id_list (World.registry DemoRun.after_customers) "business_customer_ids"
           = Ok business_ids
        /\ personal_ids <> []
        /\ business_ids <> []
  | _ => False
  end.
Proof.
  destruct (generate_accounts (gen := Demo.lcg) Demo.config 10 DemoRun.after_customers)
    as [[ids w']| |] eqn:E.
  - exact (@accounts_need_both_kinds Z Demo.lcg Z Demo.config 10
             DemoRun.after_customers w' ids E).
  - pose proof AccountsFacts.demo_accounts_run as Hrun. rewrite E in Hrun. discriminate Hrun.
  - pose proof AccountsFacts.demo_accounts_run as Hrun. rewrite E in Hrun. discriminate Hrun.
Defined.

Set Implicit Arguments.

End AccountRecordsFacts.

(* ------------------------------------------------------------------ *)
(** ** Stage: transactions, record by record                           *)
(* ------------------------------------------------------------------ *)

Module TransactionRecordsFacts.
Import Monad Logic LogicFacts Numpy Sampling Config GenerateTransactions.
Import TransactionsFacts CustomerRecordsFacts.
Local Open Scope list_scope.

Lemma in_insert_sorted (x y : Z) (l : list Z) :
  In x (insert_sorted y l) <-> x = y \/ In x l.
Proof.
  induction l as [|z l IH]; cbn [insert_sorted In].
  - intuition.
  - destruct (y <=? z); cbn [In]; [intuition|].
    rewrite IH. intuition.
Qed.

Lemma in_sorted (x : Z) (l : list Z) : In x (sorted l) <-> In x l.
Proof.
  unfold sorted. induction l as [|y l IH]; cbn [fold_right In]; [reflexivity|].
  rewrite in_insert_sorted, IH. intuition.
Qed.

Lemma in_period (cfg : Config.t) (d : Date.t) :
  In d (period cfg) <-> TXN_DATE_START cfg <= d <= TXN_DATE_END cfg.
Proof.
  unfold period, Date.days_from. rewrite in_map_iff. split.
  - intros (k & <- & Hk). apply in_seq in Hk. lia.
  - intros Hd. exists (Z.to_nat (d - TXN_DATE_START cfg)). split; [lia|].
    apply in_seq. lia.
Qed.

(** The sign of an amount that was not negative before its sign was
    chosen. *)
Lemma sign_of_nonneg (txn_type : string) (a : Q) :
  (0 <= a)%Q ->
  sign_rule txn_type
    (if negb (str_in txn_type ["salary"; "transfer_in"; "interest"]) then (- a)%Q else a).
Proof.
  intros Ha. unfold sign_rule.
  destruct (str_in txn_type ["salary"; "transfer_in"; "interest"]); cbn [negb]; [exact Ha|].
  change 0%Q with (- 0)%Q. now apply Qopp_le_compat.
Qed.

Section Stage.
Context {G : Type} {gen : Generator G}.
Variable cfg : Config.t.

Lemma emitted_snd (s s' : G * local) : snd s' = snd s -> emitted s' = emitted s.
Proof. unfold emitted. now intros ->. Qed.

Lemma preserves_emitted_sampling {A} (m : stage (G:=G) A) :
  preserves snd m -> preserves emitted m.
Proof. intros Hm s a s' E. apply emitted_snd. exact (Hm s a s' E). Qed.

Lemma preserves_emitted_flush : preserves emitted (flush (G:=G)).
Proof.
  intros s a s' E. pose proof (preserves_view_flush E) as Hv.
  unfold view in Hv. now injection Hv.
Qed.

Ltac frame_em :=
  repeat first
    [ apply preserves_ret
    | apply preserves_raise
    | apply preserves_emitted_sampling; solve [auto with frame]
    | apply preserves_if
    | apply preserves_bind; [|intros ?] ].

(** [xs[i]] is an item of [xs]. *)
Lemma wp_item {A} (xs : list A) (i : Z) (Q : A -> G * local -> Prop) s :
  (forall x, In x xs -> Q x s) -> wp (item xs i) Q s.
Proof.
  intros HQ. unfold item. destruct (nth_error xs (Z.to_nat i)) as [x|] eqn:E.
  - apply wp_ret. apply HQ. eapply nth_error_In. exact E.
  - apply wp_raise.
Qed.

(** A sized choice returns items of the list it is given. *)
Lemma wp_rng_choice_sized_in {A} (xs : list A) (size : nat) (p : option (list Q))
      (Q : list A -> G * local -> Prop) s :
  (forall l s', Forall (fun a => In a xs) l -> snd s' = snd s -> Q l s') ->
  wp (rng_choice_sized xs size p) Q s.
Proof.
  intros HQ a s' E.
  pose proof (preserves_rng_choice_sized (G:=G) (L:=local) xs size p) as Hp.
  specialize (Hp s a s' E).
  apply HQ; [|exact Hp].
  unfold rng_choice_sized in E. destruct xs as [|x xs].
  - destruct size; [|discriminate E]. apply Ok_pair_inj in E. destruct E as [<- _].
    constructor.
  - unfold bind in E.
    destruct (check_population (List.length (x :: xs)) p s) as [[u s1]| |];
      try discriminate E.
    destruct (draw (choice_indices (List.length (x :: xs)) p size) s1) as [[idx s2]| |];
      try discriminate E.
    apply Ok_pair_inj in E. destruct E as [<- _].
    apply Forall_forall. intros y Hy. apply in_map_iff in Hy.
    destruct Hy as (i & <- & _).
    destruct (nth_in_or_default i (x :: xs) x) as [Hin | ->]; [exact Hin | now left].
Qed.

(** The channel of a transaction follows from its type. *)
Lemma wp_draw_channel txn_type (Q : string -> G * local -> Prop) s :
  (forall c s', snd s' = snd s -> channel_rule txn_type c -> Q c s') ->
  wp (draw_channel txn_type) Q s.
Proof.
  intros HQ. unfold draw_channel.
  destruct (str_in txn_type ["direct_debit"; "standing_order"; "bacs"; "interest"; "fee"])
    eqn:Ebatch.
  { apply wp_ret. apply HQ; [reflexivity|].
    unfold channel_rule, CHANNELS. cbn [In].
    repeat split; try tauto; intros ->; discriminate Ebatch. }
  destruct (String.eqb_spec txn_type "atm_withdrawal") as [-> | Hatm].
  { apply wp_ret. apply HQ; [reflexivity|].
    unfold channel_rule, CHANNELS. cbn [In].
    repeat split; try tauto; intros [=]. }
  destruct (str_in txn_type ["card_payment"]) eqn:Ecard.
  { apply wp_rng_choice_in. intros c s' Hin Hs. apply HQ; [exact Hs|].
    assert (Hty : txn_type = "card_payment").
    { unfold str_in in Ecard. cbn [existsb] in Ecard. rewrite orb_false_r in Ecard.
      now apply String.eqb_eq. }
    subst txn_type. unfold channel_rule, CHANNELS.
    repeat split; try (intros [=]); try exact Hin.
    revert Hin. cbn [In]. tauto. }
  assert (Hcard : txn_type <> "card_payment").
  { intros ->. discriminate Ecard. }
  destruct (String.eqb_spec txn_type "salary") as [-> | Hsal].
  { apply wp_bind. unfold rng_random. apply wp_draw. apply wp_ret.
    apply HQ; [reflexivity|].
    unfold channel_rule, CHANNELS.
    destruct (Qltb (5 # 10) (fst (random (fst s)))); cbn [In];
      repeat split; try tauto; intros [=]. }
  destruct (str_in txn_type ["chaps"]) eqn:Echaps.
  { apply wp_ret. apply HQ; [reflexivity|].
    unfold channel_rule, CHANNELS. cbn [In].
    repeat split; try tauto; try congruence. }
  apply wp_rng_choice_in. intros c s' Hin Hs. apply HQ; [exact Hs|].
  unfold channel_rule. repeat split; try congruence; try exact Hin.
  intros ->. discriminate Echaps.
Qed.

(** The sign of the amount follows from the type. *)
Lemma wp_draw_amount_sign txn_type (Q : Q -> G * local -> Prop) (s : G * local) :
  (forall a s1,
      emitted s1 = emitted s ->
      (lognormal_nonneg G -> sign_rule txn_type a) ->
      Q a s1) ->
  wp (draw_amount cfg txn_type) Q s.
Proof.
  intros HQ. unfold draw_amount.
  destruct (dict_get_default AMOUNT_PARAMS txn_type (4, 8 # 10)%Q) as [mean std].
  apply wp_bind. unfold rng_lognormal. apply wp_draw.
  assert (Hdrawn : lognormal_nonneg G ->
            (0 <= (if String.eqb txn_type "atm_withdrawal"
                   then inject_Z (Z.max 10 (Z.min (round (Qmin (round2
                          (fst (lognormal mean std (fst s)))) 500000 / 10) * 10) 500))
                   else Qmin (round2 (fst (lognormal mean std (fst s)))) 500000))%Q).
  { intros Hlaw.
    exact (proj1 (proj1 (drawn_amount_range txn_type (Hlaw mean std (fst s))))). }
  set (x := fst (lognormal mean std (fst s))) in *.
  set (s1 := (snd (lognormal mean std (fst s)), snd s)).
  set (drawn := if String.eqb txn_type "atm_withdrawal"
                then inject_Z (Z.max 10 (Z.min (round (Qmin (round2 x) 500000 / 10) * 10) 500))
                else Qmin (round2 x) 500000) in *.
  apply wp_bind. apply wp_get_local.
  apply wp_bind.
  destruct (zero_amount_inserted (snd s1) <? Config.ZERO_AMOUNT_TXNS cfg).
  - apply wp_bind. unfold rng_random. apply wp_draw.
    destruct (Qltb (fst (random (fst s1))) (1 # 10000)).
    + apply wp_bind. unfold count_zero. apply wp_modify_local.
      apply wp_ret. apply wp_ret. apply HQ.
      * reflexivity.
      * intros _. apply sign_of_nonneg. discriminate.
    + apply wp_ret. apply wp_ret. apply HQ.
      * reflexivity.
      * intros Hlaw. now apply sign_of_nonneg, Hdrawn.
  - apply wp_ret. apply wp_ret. apply HQ.
    + reflexivity.
    + intros Hlaw. now apply sign_of_nonneg, Hdrawn.
Qed.

Ltac step_txn Hem :=
  cbv beta iota;
  lazymatch goal with
  | |- wp (ret _) _ _ => apply wp_ret
  | |- wp (if ?c then _ else _) _ _ => destruct c eqn:?
  | |- wp (item _ _) _ _ =>
      apply wp_item;
      let x := fresh "x" in
      let Hin := fresh "Hin" in
      intros x Hin
  | |- wp (draw_amount _ _) _ _ =>
      apply wp_draw_amount_sign;
      let a := fresh "amount" in
      let s1 := fresh "s" in
      let He := fresh "He" in
      let Hsign := fresh "Hsign" in
      intros a s1 He Hsign; rewrite <- He in Hem; clear He
  | |- wp (draw_channel _) _ _ =>
      apply wp_draw_channel;
      let c := fresh "channel" in
      let s1 := fresh "s" in
      let Hs := fresh "Hs" in
      let Hch := fresh "Hchannel" in
      intros c s1 Hs Hch; apply emitted_snd in Hs; rewrite <- Hs in Hem; clear Hs
  | |- wp (rng_choice _ _) _ _ =>
      apply wp_rng_choice_in;
      let a := fresh "c" in
      let s1 := fresh "s" in
      let Hin := fresh "Hin" in
      let Hs := fresh "Hs" in
      intros a s1 Hin Hs; apply emitted_snd in Hs; rewrite <- Hs in Hem; clear Hs
  | |- wp (append _) _ _ => fail
  | |- wp (bind _ _) _ _ => apply wp_bind
  | |- wp _ _ _ =>
      eapply wp_preserves with (proj := emitted); [solve [frame_em]|];
      let a := fresh "v" in
      let s1 := fresh "s" in
      let Heq := fresh "Heq" in
      intros a s1 Heq; rewrite <- Heq in Hem; clear Heq
  end.

(** One transaction: one more record, of the account, with a type
    and a date among those drawn for it. *)
Lemma transaction_adds account_id is_business txn_types txn_dates i (s : G * local) :
  wp (transaction cfg account_id is_business txn_types txn_dates i)
     (fun _ s' => exists r,
          emitted s' = emitted s ++ [r]
          /\ generated G account_id txn_types txn_dates r) s.
Proof.
  remember (emitted s) as E eqn:Hem. symmetry in Hem.
  unfold transaction.
  repeat step_txn Hem.
  all: unfold append; apply wp_modify_local; unfold count_txn; apply wp_modify_local;
    eexists;
    (split; [unfold emitted in *;
             cbn [fst snd all_records table total_txns zero_amount_inserted];
             rewrite app_assoc, Hem; reflexivity|]);
    unfold generated;
    cbn [Transaction.account_id Transaction.txn_type Transaction.txn_date
         Transaction.value_date Transaction.txn_timestamp Transaction.channel
         Transaction.status Transaction.currency Transaction.balance_after
         Transaction.amount];
    (split; [reflexivity|]); (split; [assumption|]);
    (split; [eexists _, (Z.max 0 (Z.min 23 _)), _;
             split; [eassumption|]; split; [lia|]; repeat split; reflexivity|]);
    (split; [assumption|]);
    (split; [first [ match goal with
                     | H : In ?x _ |- In ?x _ => revert H; clear; cbn [In]; tauto
                     end
                   | cbn [In]; tauto ]|]);
    (split; [reflexivity|]); (split; [reflexivity|]);
    assumption.
Qed.

End Stage.

Section Loops.
Context {G : Type} {gen : Generator G}.
Variable cfg : Config.t.

Lemma generated_weaken account_id (types types' : list string) (dates dates' : list Date.t) t :
  (forall x, In x types -> In x types') ->
  (forall d, In d dates -> In d dates') ->
  generated G account_id types dates t -> generated G account_id types' dates' t.
Proof.
  intros Ht Hd (H1 & H2 & (d & hour & minute & Hin & Hrest) & H4).
  split; [exact H1|]. split; [now apply Ht|]. split; [|exact H4].
  exists d, hour, minute. split; [now apply Hd | exact Hrest].
Qed.

(** The transactions of one account: at least one, all of them of
    that account, with a type configured for its product category and a
    date of the period. *)
Lemma account_transactions_adds (a : active_account_row) (s : G * local) :
  wp (account_transactions cfg (period cfg) a)
     (fun _ s' => exists news,
          emitted s' = emitted s ++ news
          /\ news <> []
          /\ Forall (transaction_of G cfg a) news) s.
Proof.
  destruct a as [[[[account_id customer_id] status] product_cat] c4].
  unfold account_transactions, transaction_of.
  apply wp_bind. eapply wp_preserves with (proj := emitted);
    [apply preserves_emitted_sampling; solve [auto with frame]|].
  intros k s1 Heq1.
  destruct (Z.max 1 k =? 0) eqn:Ezero; [apply Z.eqb_eq in Ezero; lia|].
  apply wp_bind, wp_rng_choice_sized_in. intros txn_types s2 Htypes Hs2.
  apply emitted_snd in Hs2.
  apply wp_bind, wp_rng_choice_sized_in. intros chosen s3 Hdates Hs3.
  apply emitted_snd in Hs3.
  set (txn_dates := sorted chosen).
  apply wp_bind. eapply wp_mono.
  { apply (wp_for_each_indexed (range (Z.max 1 k))
             (transaction cfg account_id _ txn_types txn_dates)
             (fun done s0 => exists news,
                  emitted s0 = emitted s ++ news
                  /\ List.length news = List.length done
                  /\ Forall (generated G account_id txn_types txn_dates) news) [] s3).
    - exists []. rewrite app_nil_r, Hs3, Hs2, Heq1. repeat split. constructor.
    - intros pre i s0 (news & Hem & Hlen & Hall).
      eapply wp_mono; [apply transaction_adds|]. cbv beta.
      intros _ s4 (r & Hem4 & Hr). exists (news ++ [r]).
      rewrite Hem4, Hem, <- app_assoc. split; [reflexivity|]. split.
      + rewrite !length_app, Hlen. reflexivity.
      + apply Forall_app. split; [exact Hall | now constructor]. }
  cbv beta. cbn [app]. intros _ s4 (news & Hem & Hlen & Hall).
  assert (Hne : news <> []).
  { intros ->. cbn [List.length] in Hlen. unfold range in Hlen.
    rewrite length_map, length_seq in Hlen. lia. }
  assert (Hall' : Forall (generated G account_id (types_of product_cat) (period cfg)) news).
  { rewrite Forall_forall in *. intros t Ht. eapply generated_weaken; [| |exact (Hall t Ht)].
    - intros x Hx. exact (Htypes x Hx).
    - intros d Hd. unfold txn_dates in Hd. apply (proj1 (in_sorted _ _)) in Hd.
      exact (Hdates d Hd). }
  apply wp_bind, wp_get_local.
  destruct (50000 <=? Z.of_nat (List.length (all_records (snd s4)))); cbn [when].
  - eapply wp_preserves with (proj := emitted); [apply preserves_emitted_flush|].
    intros _ s5 Heq5. exists news. rewrite Heq5. auto.
  - apply wp_ret. exists news. auto.
Qed.

(** What the loop over the accounts has emitted after the accounts
    [done]: transactions of those accounts, at least one for each. *)
Definition covered (old : list Transaction.t) (done : list active_account_row)
           (s : G * local) : Prop :=
  exists news,
    emitted s = old ++ news
    /\ Forall (fun t => exists a, In a done /\ transaction_of G cfg a t) news
    /\ forall a, In a done ->
                 exists t, In t news /\ Transaction.account_id t = row_account_id a.

Lemma build_records_adds (accounts : list active_account_row) (s : G * local) :
  wp (build_records cfg accounts)
     (fun _ s' => covered (emitted s) accounts s' /\ all_records (snd s') = []) s.
Proof.
  unfold build_records. fold (period cfg).
  apply wp_bind. eapply wp_mono.
  { apply (wp_for_each_indexed accounts (account_transactions cfg (period cfg))
             (covered (emitted s)) [] s).
    - exists []. rewrite app_nil_r. split; [reflexivity|]. split; [constructor|].
      intros a [].
    - intros pre a s0 (news & Hem & Hall & Hcov).
      eapply wp_mono; [apply account_transactions_adds|]. cbv beta.
      intros _ s1 (more & Hem1 & Hne & Hmore). exists (news ++ more).
      rewrite Hem1, Hem, <- app_assoc. split; [reflexivity|]. split.
      + apply Forall_app. split.
        * rewrite Forall_forall in *. intros t Ht. destruct (Hall t Ht) as (a0 & Ha0 & Hok).
          exists a0. split; [apply in_or_app; now left | exact Hok].
        * rewrite Forall_forall in *. intros t Ht. exists a.
          split; [apply in_or_app; right; now left | exact (Hmore t Ht)].
      + intros a0 Ha0. apply in_app_or in Ha0. destruct Ha0 as [Ha0 | [<- | []]].
        * destruct (Hcov a0 Ha0) as (t & Ht & Hid). exists t.
          split; [apply in_or_app; now left | exact Hid].
        * destruct more as [|t more]; [contradiction|]. exists t.
          split; [apply in_or_app; right; now left|].
          rewrite Forall_forall in Hmore. specialize (Hmore t (or_introl eq_refl)).
          destruct a as [[[[account_id customer_id] status] product_cat] c4].
          exact (proj1 Hmore). }
  cbv beta. cbn [app]. intros _ s1 H1.
  apply wp_bind, wp_get_local.
  destruct (all_records (snd s1)) eqn:Erec.
  - apply wp_ret. split; assumption.
  - intros u' s2 E. split.
    + destruct H1 as (news & Hem & Hrest). exists news.
      rewrite (preserves_emitted_flush E). auto.
    + unfold flush, modify_local in E. apply Ok_pair_inj in E. destruct E as [_ <-].
      reflexivity.
Qed.

End Loops.

Section Run.
Context {G : Type} {gen : Generator G} {F : Type}.
Variable cfg : Config.t.

(** What a run that returns has added, account by account. *)
Lemma generate_transactions_records (w w' : World.t F) (rep : report) :
  generate_transactions cfg w = Ok (rep, w') ->
  Forall (fun t => exists a, In a (select_active_accounts (World.db w))
                             /\ transaction_of G cfg a t)
         (added_rows w w')
  /\ forall a, In a (select_active_accounts (World.db w)) ->
               exists t, In t (added_rows w w')
                         /\ Transaction.account_id t = row_account_id a.
Proof.
  unfold generate_transactions. intros E.
  destruct (build_records cfg (select_active_accounts (World.db w)) (initial cfg (World.db w)))
    as [[u [g l]]| |] eqn:Eb; try discriminate E.
  apply Ok_pair_inj in E. destruct E as [_ <-].
  destruct (@build_records_adds G gen cfg (select_active_accounts (World.db w))
              (initial cfg (World.db w)) u (g, l) Eb)
    as [(news & Hem & Hall & Hcov) Hrec].
  unfold emitted, initial in Hem. cbn [fst snd all_records table] in Hem, Hrec.
  rewrite Hrec, !app_nil_r in Hem.
  assert (Hadded : added_rows w (World.set_db (with_transactions (World.db w) (table l)) w)
                   = news).
  { unfold added_rows. cbn [World.db World.set_db with_transactions Store.transactions].
    rewrite Hem. rewrite <- (length_map snd).
    rewrite skipn_app, skipn_all, Nat.sub_diag. reflexivity. }
  rewrite Hadded. split; assumption.
Qed.

Lemma active_account_row_spec (d : Store.database) (a : active_account_row) :
  In a (select_active_accounts d) ->
  exists acc,
    In (row_account_id a, acc) (Store.rows (Store.accounts d))
    /\ In (Account.status acc) ["active"; "in_arrears"]
    /\ In (Account.product_id acc, row_category a) (Store.products d).
Proof.
  unfold select_active_accounts. intros Hin.
  apply in_flat_map in Hin. destruct Hin as ([id acc] & Hacc & Hin).
  apply (proj1 (CustomerRecordsFacts.in_order_by_key _ _)) in Hacc.
  cbn [fst snd] in Hin.
  destruct (str_in (Account.status acc) ["active"; "in_arrears"]) eqn:Est; [|contradiction].
  apply in_flat_map in Hin. destruct Hin as ([pid cat] & Hprod & Hin).
  cbn [fst snd] in Hin.
  destruct (pid =? Account.product_id acc) eqn:Epid; [|contradiction].
  apply Z.eqb_eq in Epid. subst pid.
  assert (Hrow : row_account_id a = id /\ row_category a = cat).
  { destruct (filter _ _) as [|c cs].
    - destruct Hin as [<- | []]. split; reflexivity.
    - apply in_map_iff in Hin. destruct Hin as (c0 & <- & _). split; reflexivity. }
  destruct Hrow as [-> ->]. exists acc. split; [exact Hacc|]. split; [|exact Hprod].
  unfold str_in in Est. apply existsb_exists in Est. destruct Est as (x & Hx & Heq).
  apply String.eqb_eq in Heq. now subst x.
Qed.

(** Transactions belong to accounts in use. Every transaction a run
    adds carries the id of an account of the accounts table whose status
    is active or in_arrears, and every such account whose product
    exists gets at least one transaction (the test for an account
    without transactions never fires). *)
Theorem transactions_reference_active_accounts (w w' : World.t F) (rep : report) :
  generate_transactions cfg w = Ok (rep, w') ->
  Forall (fun t => exists acc,
              In (Transaction.account_id t, acc) (Store.rows (Store.accounts (World.db w)))
              /\ In (Account.status acc) ["active"; "in_arrears"])
         (added_rows w w')
  /\ forall a, In a (select_active_accounts (World.db w)) ->
               exists t, In t (added_rows w w')
                         /\ Transaction.account_id t = row_account_id a.
Proof.
  intros E. destruct (generate_transactions_records w E) as [Hall Hcov].
  split; [|exact Hcov].
  rewrite Forall_forall in *. intros t Ht. destruct (Hall t Ht) as (a & Ha & Hok).
  destruct (active_account_row_spec _ _ Ha) as (acc & Hacc & Hst & _).
  exists acc. split; [|exact Hst].
  destruct a as [[[[account_id customer_id] status] product_cat] c4].
  destruct Hok as [-> _]. exact Hacc.
Qed.

(** The type of a transaction fits the product of its account. Every
    transaction a run adds has a type among those configured in
    [TXN_TYPE_WEIGHTS] for the category of the product of its account
    (those of a current account for a category that is not configured):
    a savings account, for instance, gets no card payment. *)
Theorem transaction_types_fit_product (w w' : World.t F) (rep : report) :
  generate_transactions cfg w = Ok (rep, w') ->
  Forall (fun t => exists acc category,
              In (Transaction.account_id t, acc) (Store.rows (Store.accounts (World.db w)))
              /\ In (Account.product_id acc, category) (Store.products (World.db w))
              /\ In (Transaction.txn_type t) (types_of category))
         (added_rows w w').
Proof.
  intros E. destruct (generate_transactions_records w E) as [Hall _].
  rewrite Forall_forall in *. intros t Ht. destruct (Hall t Ht) as (a & Ha & Hok).
  destruct (active_account_row_spec _ _ Ha) as (acc & Hacc & _ & Hprod).
  exists acc, (row_category a).
  destruct a as [[[[account_id customer_id] status] product_cat] c4].
  destruct Hok as (-> & Hty & _). auto.
Qed.

(** Credits and debits. With lognormal draws that are not negative,
    every transaction a run adds of type salary, transfer_in or interest
    has an amount that is not negative, and every transaction of another
    type an amount that is not positive. *)
Theorem transactions_signed_by_type (w w' : World.t F) (rep : report) :
  lognormal_nonneg G ->
  generate_transactions cfg w = Ok (rep, w') ->
  Forall (fun t => sign_rule (Transaction.txn_type t) (Transaction.amount t))
         (added_rows w w').
Proof.
  intros Hlaw E. destruct (generate_transactions_records w E) as [Hall _].
  rewrite Forall_forall in *. intros t Ht. destruct (Hall t Ht) as (a & _ & Hok).
  destruct a as [[[[account_id customer_id] status] product_cat] c4].
  destruct Hok as (_ & _ & _ & _ & _ & _ & _ & Hsign). now apply Hsign.
Qed.

(** The channel follows the type. For every transaction a run adds:
    direct debits, standing orders, BACS, interest and fees come through
    batch, ATM withdrawals through atm, CHAPS through api, salaries
    through api or batch, card payments through mobile, online or
    branch; the channel is always one of the seven known channels and
    the status one of completed, failed, reversed and disputed. *)
Theorem transactions_channel_by_type (w w' : World.t F) (rep : report) :
  generate_transactions cfg w = Ok (rep, w') ->
  Forall (fun t => channel_rule (Transaction.txn_type t) (Transaction.channel t)
                   /\ In (Transaction.status t)
                         ["completed"; "failed"; "reversed"; "disputed"])
         (added_rows w w').
Proof.
  intros E. destruct (generate_transactions_records w E) as [Hall _].
  rewrite Forall_forall in *. intros t Ht. destruct (Hall t Ht) as (a & _ & Hok).
  destruct a as [[[[account_id customer_id] status] product_cat] c4].
  destruct Hok as (_ & _ & _ & Hch & Hst & _). split; assumption.
Qed.

(** Dates stay within the period. Every transaction a run adds is
    dated on a day from [TXN_DATE_START] to [TXN_DATE_END], both
    included; its value date is its transaction date, its timestamp is
    on that day at an hour from 0 to 23, its currency is GBP and its
    balance is left null. *)
Theorem transactions_dated_within_period (w w' : World.t F) (rep : report) :
  generate_transactions cfg w = Ok (rep, w') ->
  Forall (fun t => exists d hour minute,
              TXN_DATE_START cfg <= d <= TXN_DATE_END cfg
              /\ 0 <= hour <= 23
              /\ Transaction.txn_date t = Date.isoformat d
              /\ Transaction.value_date t = Transaction.txn_date t
              /\ Transaction.txn_timestamp t = Date.datetime_isoformat d hour minute
              /\ Transaction.currency t = "GBP"
              /\ Transaction.balance_after t = None)
         (added_rows w w').
Proof.
  intros E. destruct (generate_transactions_records w E) as [Hall _].
  rewrite Forall_forall in *. intros t Ht. destruct (Hall t Ht) as (a & _ & Hok).
  destruct a as [[[[account_id customer_id] status] product_cat] c4].
  destruct Hok as (_ & _ & (d & hour & minute & Hd & Hh & Hdate & Hval & Hts)
                   & _ & _ & Hcur & Hbal & _).
  exists d, hour, minute. apply in_period in Hd.
  rewrite Hval, Hdate. auto 10.
Qed.

End Run.

(** *** A run of the stage on the demonstration database *)

Unset Implicit Arguments.

Lemma transactions_reference_active_accounts_witness :
  match generate_transactions (gen := Demo.lcg) Demo.config DemoRun.after_accounts with
  | Ok (rep, w') =>
      Forall (fun t => exists acc,
                  In (Transaction.account_id t, acc)
                     (Store.rows (Store.accounts (World.db DemoRun.after_accounts)))
                  /\ In (Account.status acc) ["active"; "in_arrears"])
             (added_rows DemoRun.after_accounts w')
      /\ forall a, In a (select_active_accounts (World.db DemoRun.after_accounts)) ->
                   exists t, In t (added_rows DemoRun.after_accounts w')
                             /\ Transaction.account_id t = row_account_id a
  | _ => False
  end.
Proof.
  destruct (generate_transactions (gen := Demo.lcg) Demo.config DemoRun.after_accounts)
    as [[rep w']| |] eqn:E.
  - exact (@transactions_reference_active_accounts Z Demo.lcg Z Demo.config
             DemoRun.after_accounts w' rep E).
  - pose proof demo_transactions_run as Hrun. rewrite E in Hrun. discriminate Hrun.
  - pose proof demo_transactions_run as Hrun. rewrite E in Hrun. discriminate Hrun.
Defined.

Lemma transaction_types_fit_product_witness :
  match generate_transactions (gen := Demo.lcg) Demo.config DemoRun.after_accounts with
  | Ok (rep, w') =>
      Forall (fun t => exists acc category,
                  In (Transaction.account_id t, acc)
                     (Store.rows (Store.accounts (World.db DemoRun.after_accounts)))
                  /\ In (Account.product_id acc, category)
                        (Store.products (World.db DemoRun.after_accounts))
                  /\ In (Transaction.txn_type t) (types_of category))
             (added_rows DemoRun.after_accounts w')
  | _ => False
  end.
Proof.
  destruct (generate_transactions (gen := Demo.lcg) Demo.config DemoRun.after_accounts)
    as [[rep w']| |] eqn:E.
  - exact (@transaction_types_fit_product Z Demo.lcg Z Demo.config
             DemoRun.after_accounts w' rep E).
  - pose proof demo_transactions_run as Hrun. rewrite E in Hrun. discriminate Hrun.
  - pose proof demo_transactions_run as Hrun. rewrite E in Hrun. discriminate Hrun.
Defined.

Lemma transactions_signed_by_type_witness :
  @lognormal_nonneg Z Demo.lcg
  /\ match generate_transactions (gen := Demo.lcg) Demo.config DemoRun.after_accounts with
     | Ok (rep, w') =>
         Forall (fun t => sign_rule (Transaction.txn_type t) (Transaction.amount t))
                (added_rows DemoRun.after_accounts w')
     | _ => False
     end.
Proof.
  split; [exact lcg_lognormal_nonneg|].
  destruct (generate_transactions (gen := Demo.lcg) Demo.config DemoRun.after_accounts)
    as [[rep w']| |] eqn:E.
  - exact (@transactions_signed_by_type Z Demo.lcg Z Demo.config
             DemoRun.after_accounts w' rep lcg_lognormal_nonneg E).
  - pose proof demo_transactions_run as Hrun. rewrite E in Hrun. discriminate Hrun.
  - pose proof demo_transactions_run as Hrun. rewrite E in Hrun. discriminate Hrun.
Defined.

Lemma transactions_channel_by_type_witness :
  match generate_transactions (gen := Demo.lcg) Demo.config DemoRun.after_accounts with
  | Ok (rep, w') =>
      Forall (fun t => channel_rule (Transaction.txn_type t) (Transaction.channel t)
                       /\ In (Transaction.status t)
                             ["completed"; "failed"; "reversed"; "disputed"])
             (added_rows DemoRun.after_accounts w')
  | _ => False
  end.
Proof.
  destruct (generate_transactions (gen := Demo.lcg) Demo.config DemoRun.after_accounts)
    as [[rep w']| |] eqn:E.
  - exact (@transactions_channel_by_type Z Demo.lcg Z Demo.config
             DemoRun.after_accounts w' rep E).
  - pose proof demo_transactions_run as Hrun. rewrite E in Hrun. discriminate Hrun.
  - pose proof demo_transactions_run as Hrun. rewrite E in Hrun. discriminate Hrun.
Defined.

Lemma transactions_dated_within_period_witness :
  match generate_transactions (gen := Demo.lcg) Demo.config DemoRun.after_accounts with
  | Ok (rep, w') =>
      Forall (fun t => exists d hour minute,
                  TXN_DATE_START Demo.config <= d <= TXN_DATE_END Demo.config
                  /\ 0 <= hour <= 23
                  /\ Transaction.txn_date t = Date.isoformat d
                  /\ Transaction.value_date t = Transaction.txn_date t
                  /\ Transaction.txn_timestamp t = Date.datetime_isoformat d hour minute
                  /\ Transaction.currency t = "GBP"
                  /\ Transaction.balance_after t = None)
             (added_rows DemoRun.after_accounts w')
  | _ => False
  end.
Proof.
  destruct (generate_transactions (gen := Demo.lcg) Demo.config DemoRun.after_accounts)
    as [[rep w']| |] eqn:E.
  - exact (@transactions_dated_within_period Z Demo.lcg Z Demo.config
             DemoRun.after_accounts w' rep E).
  - pose proof demo_transactions_run as Hrun. rewrite E in Hrun. discriminate Hrun.
  - pose proof demo_transactions_run as Hrun. rewrite E in Hrun. discriminate Hrun.
Defined.

Set Implicit Arguments.

End TransactionRecordsFacts.

(* ------------------------------------------------------------------ *)
(** ** Stage: general ledger balances                                  *)
(* ------------------------------------------------------------------ *)

Module GLBalancesFacts.
Import GenerateGLBalances.
Local Open Scope list_scope.

Lemma key_eqb_refl (k : key) : key_eqb k k = true.
Proof. unfold key_eqb. now rewrite !String.eqb_refl. Qed.

Lemma key_eqb_eq (a b : key) : key_eqb a b = true <-> a = b.
Proof.
  unfold key_eqb. destruct a as [a1 a2], b as [b1 b2]. cbn [fst snd].
  rewrite andb_true_iff, !String.eqb_eq. split.
  - intros [-> ->]. reflexivity.
  - intros [= -> ->]. split; reflexivity.
Qed.

Lemma key_eqb_sym (a b : key) : key_eqb a b = key_eqb b a.
Proof.
  destruct (key_eqb a b) eqn:E1, (key_eqb b a) eqn:E2; try reflexivity.
  - apply key_eqb_eq in E1. subst. now rewrite key_eqb_refl in E2.
  - apply key_eqb_eq in E2. subst. now rewrite key_eqb_refl in E1.
Qed.

Lemma get_set_same (running : list (key * Q)) k v : get (set running k v) k = v.
Proof.
  induction running as [|[k' w] running IH]; cbn [set get].
  - now rewrite key_eqb_refl.
  - destruct (key_eqb k k') eqn:E; cbn [get]; rewrite E; [reflexivity | exact IH].
Qed.

Lemma get_set_other (running : list (key * Q)) k k' v :
  key_eqb k' k = false -> get (set running k v) k' = get running k'.
Proof.
  intros Hne. induction running as [|[k0 w] running IH]; cbn [set get].
  - now rewrite Hne.
  - destruct (key_eqb k k0) eqn:E; cbn [get].
    + apply key_eqb_eq in E. subst k0. now rewrite Hne.
    + now rewrite IH.
Qed.

Lemma balance_of_snoc (k : key) (rows : list summary_row) (row : summary_row) :
  balance_of k (rows ++ [row])
  = let '(_, _, _, debits, credits) := row in
    if key_eqb (key_of row) k
    then Float.sub (Float.add (balance_of k rows) (Float.of_decimal debits))
                   (Float.of_decimal credits)
    else balance_of k rows.
Proof. unfold balance_of. now rewrite fold_left_app. Qed.

(** The loop, from any point on: [running_balances] holds for each
    key the movements so far, and each row adds its snapshot. *)
Lemma fold_snapshot (rows before : list summary_row) (records : list GLBalance.t)
      (running : list (key * Q)) :
  (forall k, get running k = balance_of k before) ->
  fst (fold_left snapshot rows (records, running))
  = records ++ map (fun i => snapshot_of (before ++ firstn i rows) (nth i rows ("", "", Other "", 0%Q, 0%Q)))
                   (seq 0 (List.length rows)).
Proof.
  revert before records running.
  induction rows as [|row rows IH]; intros before records running Hrun.
  - cbn [fold_left fst List.length seq map]. now rewrite app_nil_r.
  - cbn [fold_left List.length seq map].
    destruct row as [[[[acct cc] p_end] debits] credits] eqn:Erow.
    cbn [snapshot]. rewrite <- Erow.
    rewrite (IH (before ++ [row])).
    + rewrite <- app_assoc. cbn [app firstn nth]. f_equal. f_equal.
      * rewrite app_nil_r. subst row. unfold snapshot_of.
        rewrite Hrun, balance_of_snoc. cbn [key_of]. now rewrite key_eqb_refl.
      * rewrite <- seq_shift, map_map. apply map_ext. intros i.
        cbn [firstn nth]. now rewrite <- app_assoc.
    + intros k. rewrite balance_of_snoc. subst row. cbn [key_of].
      destruct (key_eqb (acct, cc) k) eqn:E.
      * apply key_eqb_eq in E. subst k. now rewrite get_set_same, Hrun.
      * rewrite get_set_other by (now rewrite key_eqb_sym). apply Hrun.
Qed.

(** Balances run on. The loop of [generate_gl_balances] writes one
    snapshot per row of the query, in order; the snapshot of a row
    copies its account, cost centre and period end and holds, each as
    [round(x, 2)] gives it for a float, the debits and credits of the
    row, as opening balance the debits less credits of all earlier rows
    of the same account and cost centre (0 when there is none), and as
    closing balance the same with the row itself included. The balance
    is the float sum the loop carries: the sums of the rows are
    converted to floats and added and subtracted as floats, row after
    row, and the rounding to two places is applied to what is recorded
    only, never to the balance carried on. *)
Theorem gl_balances_running (before after : list summary_row) (row : summary_row) :
  List.length (balance_records (before ++ row :: after))
  = List.length (before ++ row :: after)
  /\ nth_error (balance_records (before ++ row :: after)) (List.length before)
     = Some (snapshot_of before row).
Proof.
  unfold balance_records.
  rewrite (fold_snapshot (before ++ row :: after) [] [] []) by (intros k; reflexivity).
  cbn [app]. split.
  - now rewrite length_map, length_seq.
  - rewrite nth_error_map, nth_error_seq.
    assert (Hlt : (List.length before <? List.length (before ++ row :: after))%nat = true).
    { apply Nat.ltb_lt. rewrite length_app. cbn [List.length]. lia. }
    rewrite Hlt. cbn [option_map Nat.add]. f_equal. f_equal.
    + rewrite firstn_app, Nat.sub_diag, firstn_all. cbn [firstn]. now rewrite app_nil_r.
    + rewrite app_nth2, Nat.sub_diag by lia. reflexivity.
Qed.

Lemma balance_of_skip (k : key) (rows mid : list summary_row) :
  (forall r, In r mid -> key_of r <> k) ->
  balance_of k (rows ++ mid) = balance_of k rows.
Proof.
  intros Hmid. induction mid as [|r mid IH] using rev_ind; [now rewrite app_nil_r|].
  rewrite app_assoc, balance_of_snoc.
  destruct r as [[[[acct cc] p_end] debits] credits].
  assert (Hne : key_eqb (key_of (acct, cc, p_end, debits, credits)) k = false).
  { destruct (key_eqb _ k) eqn:E; [|reflexivity].
    apply key_eqb_eq in E. exfalso. apply (Hmid (acct, cc, p_end, debits, credits)); [|exact E].
    apply in_or_app. right. now left. }
  rewrite Hne. apply IH. intros r Hr. apply Hmid. apply in_or_app. now left.
Qed.

(** Snapshots of one account follow on. When two rows of the query
    belong to the same account and cost centre and no row between them
    does, the recorded opening balance of the later one is the recorded
    closing balance of the earlier one; and the first row of an account
    and cost centre opens at 0. *)
Theorem gl_balances_continuous (before mid after : list summary_row)
        (earlier later : summary_row) :
  key_of earlier = key_of later ->
  (forall r, In r mid -> key_of r <> key_of later) ->
  exists b1 b2,
    nth_error (balance_records (before ++ earlier :: mid ++ later :: after))
              (List.length before) = Some b1
    /\ nth_error (balance_records (before ++ earlier :: mid ++ later :: after))
                 (List.length before + 1 + List.length mid) = Some b2
    /\ GLBalance.opening_balance b2 = GLBalance.closing_balance b1
    /\ ((forall r, In r before -> key_of r <> key_of earlier) ->
        GLBalance.opening_balance b1 = Float.round2 0).
Proof.
  intros Hkey Hmid.
  exists (snapshot_of before earlier), (snapshot_of (before ++ earlier :: mid) later).
  split; [apply gl_balances_running|]. split.
  - replace (before ++ earlier :: mid ++ later :: after)
      with ((before ++ earlier :: mid) ++ later :: after)
      by (rewrite <- app_assoc; reflexivity).
    replace (List.length before + 1 + List.length mid)%nat
      with (List.length (before ++ earlier :: mid))
      by (rewrite length_app; cbn [List.length]; lia).
    apply gl_balances_running.
  - destruct earlier as [[[[a1 c1] p1] d1] cr1], later as [[[[a2 c2] p2] d2] cr2].
    cbn [key_of] in Hkey, Hmid. injection Hkey as -> ->.
    unfold snapshot_of. cbn [GLBalance.opening_balance GLBalance.closing_balance].
    split.
    + f_equal. change (before ++ (a2, c2, p1, d1, cr1) :: mid)
        with (before ++ [(a2, c2, p1, d1, cr1)] ++ mid).
      rewrite app_assoc. now apply balance_of_skip.
    + intros Hfirst. f_equal.
      rewrite <- (app_nil_l before). apply (@balance_of_skip (a2, c2) [] before).
      exact Hfirst.
Qed.

(** The stage inserts the snapshots and prints their number; with no
    row to summarise it leaves the table alone. *)
Lemma generate_gl_balances_rows (rows : list summary_row) (t : Store.table GLBalance.t) :
  map snd (skipn (List.length (Store.rows t))
                 (Store.rows (fst (generate_gl_balances rows t))))
  = balance_records rows
  /\ snd (generate_gl_balances rows t) = List.length rows.
Proof.
  unfold generate_gl_balances. cbn [fst snd]. split.
  - replace (match balance_records rows with
             | [] => t
             | _ :: _ => Store.bulk_insert t (balance_records rows)
             end) with (Store.bulk_insert t (balance_records rows))
      by (destruct (balance_records rows); reflexivity).
    apply BulkInsertFacts.bulk_insert_round_trip.
  - unfold balance_records.
    rewrite (fold_snapshot rows [] [] []) by (intros k; reflexivity).
    cbn [app]. now rewrite length_map, length_seq.
Qed.

(** What is recorded is what [round] makes of the float: the double
    of 2.675 is below 2.675 and is recorded as 2.67, and an eighth,
    which is a double, goes to the even 0.12. *)
Example recorded_figures_round_the_double :
  map (fun b => (GLBalance.period_debits b, GLBalance.period_credits b))
      (balance_records [("2110", "CC-RET", Timestamp (Date.make 2024 7 31),
                         2675 # 1000, 125 # 1000)%Q])
  = [(Float.of_decimal (267 # 100), Float.of_decimal (12 # 100))].
Proof. vm_compute. reflexivity. Qed.

Lemma gl_balances_continuous_witness :
  let jul := ("2110", "CC-RET", Timestamp (Date.make 2024 7 31), 2675 # 1000, 10)%Q in
  let other := ("4210", "CC-FIN", Timestamp (Date.make 2024 7 31), 5, 0)%Q in
  let aug := ("2110", "CC-RET", Timestamp (Date.make 2024 8 31), 7, 1 # 10)%Q in
  key_of jul = key_of aug
  /\ exists b1 b2,
       nth_error (balance_records ([] ++ jul :: [other] ++ aug :: [])) 0 = Some b1
       /\ nth_error (balance_records ([] ++ jul :: [other] ++ aug :: [])) 2 = Some b2
       /\ GLBalance.opening_balance b2 = GLBalance.closing_balance b1.
Proof.
  intros jul other aug.
  assert (Hkey : key_of jul = key_of aug) by reflexivity.
  split; [exact Hkey|].
  destruct (gl_balances_continuous [] [other] [] jul aug Hkey) as (b1 & b2 & H1 & H2 & H3 & _).
  - intros r [<- | []]. discriminate.
  - exists b1, b2. split; [exact H1|]. split; [exact H2 | exact H3].
Defined.

End GLBalancesFacts.

(* ------------------------------------------------------------------ *)
(** ** Sampling helpers ([generators/utils/faker_extensions.py])       *)
(* ------------------------------------------------------------------ *)

Module SamplingHelpersFacts.
Import Monad Numpy Sampling.
Local Open Scope list_scope.

Section WithGenerator.
Context {G : Type} {gen : Generator G} {L : Type}.

(** A choice from a list that is not empty, without weights, returns
    one of its items and touches nothing but the generator. *)
Lemma rng_choice_returns {A} (xs : list A) (s : G * L) :
  xs <> [] ->
  exists a g', rng_choice xs None s = Ok (a, (g', snd s)) /\ In a xs.
Proof.
  intros Hne. destruct xs as [|x xs]; [contradiction|].
  unfold rng_choice, rng_choice_int, check_population, bind, ret, draw.
  cbn [List.length].
  destruct (choice_index (Datatypes.S (List.length xs)) None (fst s)) as [i g'].
  eexists _, g'. split; [reflexivity|].
  destruct (nth_in_or_default i (x :: xs) x) as [Hin | ->]; [exact Hin | now left].
Qed.

(** Counterparties and sort codes come from the lists of the bank.
    [get_counterparty] always returns: a salary is paid by one of
    [SALARY_PAYERS]; any other transaction of a business customer has a
    counterparty among [BUSINESS_COUNTERPARTIES] and the first ten
    [RETAIL_COUNTERPARTIES], and that of a personal customer one among
    [RETAIL_COUNTERPARTIES] (for a salary the kind of customer plays no
    part). [generate_sort_code] always returns one of the fourteen
    [MERIDIAN_SORT_CODES]. Both leave the variables of the stage
    alone. *)
Theorem counterparty_from_pool (txn_type : string) (is_business : bool) (s : G * L) :
  (exists c g',
      get_counterparty txn_type is_business s = Ok (c, (g', snd s))
      /\ In c (if String.eqb txn_type "salary" then SALARY_PAYERS
               else if is_business
                    then BUSINESS_COUNTERPARTIES ++ firstn 10 RETAIL_COUNTERPARTIES
                    else RETAIL_COUNTERPARTIES))
  /\ (exists sc g',
         generate_sort_code s = Ok (sc, (g', snd s)) /\ In sc MERIDIAN_SORT_CODES).
Proof.
  split.
  - unfold get_counterparty.
    destruct (String.eqb txn_type "salary"); [apply rng_choice_returns; discriminate|].
    destruct is_business; apply rng_choice_returns; discriminate.
  - unfold generate_sort_code. apply rng_choice_returns. discriminate.
Qed.

End WithGenerator.

End SamplingHelpersFacts.

(* ------------------------------------------------------------------ *)
(** ** Two runs of a stage                                             *)
(* ------------------------------------------------------------------ *)

Module ReproducibleFacts.
Import Reproducible.

Section Stages.
Context {G : Type} {gen : Numpy.Generator G} {F : Type}.
Variable cfg : Config.t.



End Stages.

Unset Implicit Arguments.


Set Implicit Arguments.

End ReproducibleFacts.
